(** * Times-tables practice: the spaced-repetition scheduling engine

    A shallow embedding of [times-tables-web/src/lib/spaced-rep.ts] and of
    the answer route [times-tables-web/src/app/api/answer/route.ts].

    - JavaScript numbers that hold real quantities (ease factor, interval,
      response time, time values of dates) are IEEE-754 binary64 values,
      taken from the Standard Library's executable specification
      [SpecFloat] at precision 53 and maximal exponent 1024. Arithmetic
      rounds to nearest even as the language does; [<], [<=], [>=] and
      [===] are the IEEE comparisons, false on NaN.
    - Number fields that hold integers (factors of a problem, answer
      counters, the count of unlocked tables, list lengths) are [Z] or
      [nat]; JavaScript arithmetic on them is exact below 2^53.
    - [Date.now()] and [new Date()] are read from an explicit argument.
    - [Array.prototype.sort] is stable; it is the stable insertion sort.
      With a NaN ease factor the comparator is inconsistent and the order
      the language leaves open is not modelled: theorems on the sorted
      list assume ease factors that are not NaN.
    - The database of the route is a pair of row lists; authentication is
      the optional user id of the session. *)

From Stdlib Require Import ZArith List Bool Lia QArith String SpecFloat.
From Stdlib Require Import Sorting.Permutation Sorting.Sorted Ascii.
From stdpp Require Import base gmap sets strings pretty.
Import ListNotations.
Local Open Scope Z_scope.

(** ** JavaScript numbers *)

Definition number : Type := spec_float.

Definition prec : Z := 53.
Definition emax : Z := 1024.

Definition NaN : number := S754_nan.
Definition Infinity : number := S754_infinity false.
Definition NegInfinity : number := S754_infinity true.

(** An integer literal, and a decimal literal [n / d] rounded to the
    nearest binary64 value as the JavaScript parser does. *)
Definition ofZ (z : Z) : number := binary_normalize prec emax z 0 false.
Definition decimal (n d : Z) : number := SFdiv prec emax (ofZ n) (ofZ d).

Definition num_add : number -> number -> number := SFadd prec emax.
Definition num_sub : number -> number -> number := SFsub prec emax.
Definition num_mul : number -> number -> number := SFmul prec emax.
Definition num_lt : number -> number -> bool := SFltb.
Definition num_le : number -> number -> bool := SFleb.
Definition num_ge (x y : number) : bool := SFleb y x.
Definition num_strict_eq : number -> number -> bool := SFeqb.

Definition isNaN (x : number) : bool :=
  match x with S754_nan => true | _ => false end.

Definition isFinite (x : number) : bool :=
  match x with S754_zero _ | S754_finite _ _ _ => true | _ => false end.

(** [Math.min] and [Math.max] of two arguments, following the loop of the
    language definition: any NaN gives NaN, and -0 is below +0. *)
Definition min_step (lowest n : number) : number :=
  match n, lowest with
  | S754_zero true, S754_zero false => n
  | _, _ => if num_lt n lowest then n else lowest
  end.

Definition Math_min (x y : number) : number :=
  if isNaN x || isNaN y then NaN
  else min_step (min_step Infinity x) y.

Definition max_step (highest n : number) : number :=
  match n, highest with
  | S754_zero false, S754_zero true => n
  | _, _ => if num_lt highest n then n else highest
  end.

Definition Math_max (x y : number) : number :=
  if isNaN x || isNaN y then NaN
  else max_step (max_step NegInfinity x) y.

(** Truncation toward zero of a finite number ([ToIntegerOrInfinity]);
    a zero result is +0. *)
Definition ToInteger (t : number) : number :=
  match t with
  | S754_finite s m e =>
      if 0 <=? e then t
      else binary_normalize prec emax (cond_Zopp s (Z.pos m / 2 ^ (- e))) 0 false
  | S754_zero _ => S754_zero false
  | _ => t
  end.

(** [TimeClip]: the time value a [Date] built from the number [t] holds. *)
Definition TimeClip (t : number) : number :=
  if negb (isFinite t) then NaN
  else if num_lt (ofZ 8640000000000000) (SFabs t) then NaN
  else ToInteger t.

(** A [Date] is its time value in milliseconds. *)
Definition Date : Type := number.

Definition new_Date (t : number) : Date := TimeClip t.

(** ** Data model *)

Definition TABLE_ORDER : list Z := [1; 10; 5; 11; 2; 3; 9; 4; 6; 7; 8; 12].

Record Problem := mkProblem { a : Z; b : Z }.

(** The performance fields of a fact, as [calculateNewStats] reads and
    returns them. *)
Record Stats := mkStats {
  easeFactor : number;
  intervalDays : number;
  nextReview : Date;
  timesCorrect : Z;
  timesWrong : Z;
  consecutiveCorrect : Z
}.

(** A row of the [problemProgress] table. *)
Record ProblemProgress := mkProgress {
  id : Z;
  userId : string;
  problemA : Z;
  problemB : Z;
  stats :> Stats
}.

(** ** The engine *)

Definition generateAllProblems : list Problem :=
  flat_map (fun x => map (fun y => mkProblem x y) (map Z.of_nat (seq 1 12)))
           (map Z.of_nat (seq 1 12)).

(** [arr.slice(0, e)]: a negative [e] counts from the end of the array. *)
Definition slice0 {A : Type} (arr : list A) (e : Z) : list A :=
  let len := Z.of_nat (length arr) in
  let final := if e <? 0 then Z.max (len + e) 0 else Z.min e len in
  firstn (Z.to_nat final) arr.

Definition getUnlockedTableSet (unlockedTables : Z) : gset Z :=
  list_to_set (slice0 TABLE_ORDER unlockedTables).

Definition Set_has (s : gset Z) (x : Z) : bool := bool_decide (x ∈ s).

Definition isProblemUnlocked (a b unlockedTables : Z) : bool :=
  let unlocked := getUnlockedTableSet unlockedTables in
  Set_has unlocked a && Set_has unlocked b.

Definition isMastered (st : Stats) : bool :=
  (consecutiveCorrect st >=? 3) && num_ge (easeFactor st) (decimal 20 10).

Definition easeBonus (responseSecs : number) : number :=
  if num_lt responseSecs (ofZ 3) then decimal 15 100
  else if num_le responseSecs (ofZ 8) then decimal 1 10
  else decimal 5 100.

Definition calculateNewStats
    (current : Stats) (correct : bool) (responseSecs : number) (now : number)
    : Stats :=
  let '(easeFactor, intervalDays, timesCorrect, timesWrong, consecutiveCorrect) :=
    if correct then
      (Math_min (decimal 30 10) (num_add (easeFactor current) (easeBonus responseSecs)),
       (if num_strict_eq (intervalDays current) (ofZ 0) then ofZ 1
        else if num_lt (intervalDays current) (ofZ 1) then ofZ 1
        else num_mul (intervalDays current) (easeFactor current)),
       timesCorrect current + 1,
       timesWrong current,
       consecutiveCorrect current + 1)
    else
      (Math_max (decimal 13 10) (num_sub (easeFactor current) (decimal 2 10)),
       ofZ 0,
       timesCorrect current,
       timesWrong current + 1,
       0) in
  let nextReview :=
    new_Date (num_add now (num_mul (num_mul intervalDays (ofZ 86400)) (ofZ 1000))) in
  mkStats easeFactor intervalDays nextReview timesCorrect timesWrong consecutiveCorrect.

Definition shouldUnlockNextTable
    (progressList : list ProblemProgress) (unlockedTables : Z) : bool :=
  if unlockedTables >=? Z.of_nat (length TABLE_ORDER) then false
  else
    let unlockedProblems :=
      List.filter (fun p => isProblemUnlocked (problemA p) (problemB p) unlockedTables)
                  progressList in
    if Nat.eqb (length unlockedProblems) 0 then false
    else
      let masteredCount := length (List.filter (fun p : ProblemProgress => isMastered p) unlockedProblems) in
      Qle_bool (inject_Z (Z.of_nat (length unlockedProblems) * 3) / inject_Z 4)
               (inject_Z (Z.of_nat masteredCount)).

(** [arr.sort(comparefn)]: the sort is stable, so it is modelled by the
    stable insertion sort; an element [x] goes before [y] when
    [comparefn(x, y) < 0], and a comparator result that is NaN counts as 0
    (then neither test [< 0] holds). *)
Fixpoint insert_sorted {A : Type} (comparefn : A -> A -> number) (x : A) (l : list A)
    : list A :=
  match l with
  | [] => [x]
  | y :: l' =>
      if num_lt (comparefn y x) (ofZ 0) then y :: insert_sorted comparefn x l'
      else x :: l
  end.

Definition Array_sort {A : Type} (comparefn : A -> A -> number) (l : list A) : list A :=
  fold_right (insert_sorted comparefn) [] l.

Definition is_last (lastProblem : option Problem) (p : ProblemProgress) : bool :=
  match lastProblem with
  | Some lp => (problemA p =? a lp) && (problemB p =? b lp)
  | None => false
  end.

Definition due_candidates (progressList : list ProblemProgress)
    (unlockedTables : Z) (lastProblem : option Problem) (now : Date)
    : list ProblemProgress :=
  List.filter
    (fun p => isProblemUnlocked (problemA p) (problemB p) unlockedTables
              && num_le (new_Date (nextReview p)) now
              && negb (is_last lastProblem p))
    progressList.

Definition practice_candidates (progressList : list ProblemProgress)
    (unlockedTables : Z) (lastProblem : option Problem)
    : list ProblemProgress :=
  List.filter
    (fun p => isProblemUnlocked (problemA p) (problemB p) unlockedTables
              && negb (is_last lastProblem p))
    progressList.

Definition selectNextProblem (progressList : list ProblemProgress)
    (unlockedTables : Z) (lastProblem : option Problem) (now : Date)
    : option Problem :=
  let candidates := due_candidates progressList unlockedTables lastProblem now in
  let candidates :=
    if Nat.eqb (length candidates) 0
    then practice_candidates progressList unlockedTables lastProblem
    else candidates in
  if Nat.eqb (length candidates) 0 then None
  else
    match Array_sort (fun x y : ProblemProgress => num_sub (easeFactor x) (easeFactor y))
                     candidates with
    | selected :: _ => Some (mkProblem (problemA selected) (problemB selected))
    | [] => None
    end.

(** ** The answer route *)

Record User := mkUser { user_id : string; unlockedTables : Z }.

(** The two tables the route reads and writes, in row order. *)
Record DB := mkDB {
  problemProgress : list ProblemProgress;
  user : list User
}.

Record AnswerRequest := mkRequest {
  req_problemA : Z;
  req_problemB : Z;
  userAnswer : Z;
  responseSecs : number
}.

(** The [stats] object of the response; [unlockedTablesShown] is the list
    the route joins into a string. *)
Record StatsView := mkStatsView {
  mastered : nat;
  unlocked : nat;
  total : Z;
  streak : Z;
  unlockedTablesShown : list Z;
  nextTable : option Z
}.

(** The body of a response; [ThrownBody] stands for the answer to a
    request whose handler ended in an exception, which has status 500. *)
Inductive Body :=
  | ErrorBody (error : string)
  | AnswerBody (correct : bool) (nextProblem : option Problem) (view : StatsView)
  | ThrownBody.

Record Response := mkResponse { status : Z; body : Body }.

Definition same_key (uid : string) (pa pb : Z) (p : ProblemProgress) : bool :=
  String.eqb (userId p) uid && (problemA p =? pa) && (problemB p =? pb).

Definition progress_findUnique (db : DB) (uid : string) (pa pb : Z)
    : option ProblemProgress :=
  find (same_key uid pa pb) (problemProgress db).

Definition progress_update (db : DB) (row_id : Z) (data : Stats) : DB :=
  mkDB (map (fun p => if id p =? row_id
                      then mkProgress (id p) (userId p) (problemA p) (problemB p) data
                      else p)
            (problemProgress db))
       (user db).

Definition progress_findMany (db : DB) (uid : string) : list ProblemProgress :=
  List.filter (fun p => String.eqb (userId p) uid) (problemProgress db).

Definition user_findUnique (db : DB) (uid : string) : option User :=
  find (fun u => String.eqb (user_id u) uid) (user db).

Definition user_update (db : DB) (uid : string) (n : Z) : DB :=
  mkDB (problemProgress db)
       (map (fun u => if String.eqb (user_id u) uid then mkUser (user_id u) n else u)
            (user db)).

(** [POST] of [api/answer]: [session] is the id of the signed-in user, if
    any; [now_update] is the clock read by [calculateNewStats] and
    [now_select] the one read by [selectNextProblem].  The two updates can
    throw, which ends the handler: [problemProgress.update] rejects a
    [nextReview] that is an invalid date and then writes nothing, and
    [user.update] throws when the user has no record, after the row of the
    fact was written. *)
Definition POST (session : option string) (request : AnswerRequest)
    (now_update now_select : number) (db : DB) : DB * Response :=
  match session with
  | None => (db, mkResponse 401 (ErrorBody "Unauthorized"))
  | Some uid =>
      let pa := req_problemA request in
      let pb := req_problemB request in
      let correctAnswer := pa * pb in
      let correct := userAnswer request =? correctAnswer in
      match progress_findUnique db uid pa pb with
      | None => (db, mkResponse 404 (ErrorBody "Problem not found"))
      | Some current =>
          let newStats :=
            calculateNewStats current correct (responseSecs request) now_update in
          if isNaN (nextReview newStats) then (db, mkResponse 500 ThrownBody)
          else
          let db := progress_update db (id current) newStats in
          let user := user_findUnique db uid in
          let tables :=
            match user with
            | Some u => unlockedTables u
            | None => 1
            end in
          let allProgress := progress_findMany db uid in
          let respond (db : DB) (tables : Z) : DB * Response :=
            let lastProblem := mkProblem pa pb in
            let nextProblem :=
              selectNextProblem allProgress tables (Some lastProblem) now_select in
            let unlockedProblems :=
              List.filter (fun p => isProblemUnlocked (problemA p) (problemB p) tables)
                          allProgress in
            let masteredCount :=
              length (List.filter (fun p : ProblemProgress => isMastered p)
                                  unlockedProblems) in
            let view :=
              mkStatsView masteredCount (length unlockedProblems)
                (fold_left
                   (fun sum (p : ProblemProgress) => sum + timesCorrect p + timesWrong p)
                   allProgress 0)
                0
                (slice0 TABLE_ORDER tables)
                (if tables <? Z.of_nat (length TABLE_ORDER)
                 then (if 0 <=? tables then nth_error TABLE_ORDER (Z.to_nat tables)
                       else None)
                 else None) in
            (db, mkResponse 200 (AnswerBody correct nextProblem view)) in
          if shouldUnlockNextTable allProgress tables
          then match user with
               | Some _ => respond (user_update db uid (tables + 1)) (tables + 1)
               | None => (db, mkResponse 500 ThrownBody)
               end
          else respond db tables
      end
  end.

(** ** Reference definitions of the specification *)

(** The latency bonus as section 4.4 words it. *)
Definition latency_bonus (response_seconds : number) : number :=
  if num_lt response_seconds (ofZ 3) then decimal 15 100
  else if num_le (ofZ 3) response_seconds && num_le response_seconds (ofZ 8)
       then decimal 1 10
  else decimal 5 100.

(** The update rule as section 4.4 words it. *)
Definition apply_answer (st : Stats) (correct : bool) (response_seconds : number)
    (now : number) : Stats :=
  let interval_days :=
    if correct
    then (if num_lt (intervalDays st) (ofZ 1) then ofZ 1
          else num_mul (intervalDays st) (easeFactor st))
    else ofZ 0 in
  mkStats
    (if correct
     then Math_min (decimal 30 10) (num_add (easeFactor st) (latency_bonus response_seconds))
     else Math_max (decimal 13 10) (num_sub (easeFactor st) (decimal 2 10)))
    interval_days
    (new_Date (num_add now (num_mul (num_mul interval_days (ofZ 86400)) (ofZ 1000))))
    (if correct then timesCorrect st + 1 else timesCorrect st)
    (if correct then timesWrong st else timesWrong st + 1)
    (if correct then consecutiveCorrect st + 1 else 0).

(** The state of a fact nobody answered yet; [now] is its creation time. *)
Definition initial_state (now : Date) : Stats :=
  mkStats (decimal 25 10) (ofZ 0) now 0 0 0.

(** One answer: the correct flag, the response time and the clock. *)
Record Answer := mkAnswer {
  ans_correct : bool;
  ans_seconds : number;
  ans_now : number
}.

Definition answer_step (st : Stats) (x : Answer) : Stats :=
  calculateNewStats st (ans_correct x) (ans_seconds x) (ans_now x).

(** The state after a sequence of answers, oldest first. *)
Definition after_answers (st : Stats) (answers : list Answer) : Stats :=
  fold_left answer_step answers st.

(** The unlocked rows of a progress list and the fraction of them that is
    mastered (section 4.5). *)
Definition unlocked_rows (progressList : list ProblemProgress) (unlockedTables : Z)
    : list ProblemProgress :=
  List.filter (fun p => isProblemUnlocked (problemA p) (problemB p) unlockedTables)
              progressList.

Definition masteredFraction (U : list ProblemProgress) : Q :=
  inject_Z (Z.of_nat (length (List.filter (fun p : ProblemProgress => isMastered p) U)))
  / inject_Z (Z.of_nat (length U)).

(** The first [unlocked_count] entries of the table order (section 4.2). *)
Definition first_tables (unlocked_count : Z) : list Z :=
  firstn (Z.to_nat unlocked_count) TABLE_ORDER.


(** The comparator [selectNextProblem] sorts with. *)
Definition by_ease (x y : ProblemProgress) : number :=
  num_sub (easeFactor x) (easeFactor y).

(** Ascending order of ease factors, and the rows of a given ease factor. *)
Definition ease_le (p q : ProblemProgress) : Prop :=
  num_le (easeFactor p) (easeFactor q) = true.

Definition has_ease (k : number) (p : ProblemProgress) : bool :=
  num_strict_eq (easeFactor p) k.

(** The candidate list [selectNextProblem] sorts: the due candidates, or
    all unlocked ones when none is due. *)
Definition chosen_candidates (progressList : list ProblemProgress)
    (unlockedTables : Z) (lastProblem : option Problem) (now : Date)
    : list ProblemProgress :=
  match due_candidates progressList unlockedTables lastProblem now with
  | [] => practice_candidates progressList unlockedTables lastProblem
  | c => c
  end.

Definition problem_of (p : ProblemProgress) : Problem :=
  mkProblem (problemA p) (problemB p).


(** The candidate sets of section 4.3 in its own words: a fact of the
    progress list is in C2 when it is unlocked and is not the last
    problem, and in C1 when moreover it is due, that is when its next
    review is at or before now. *)
Definition in_C2 (progressList : list ProblemProgress) (unlocked_count : Z)
    (last_problem : option Problem) (p : ProblemProgress) : Prop :=
  In p progressList
  /\ isProblemUnlocked (problemA p) (problemB p) unlocked_count = true
  /\ last_problem <> Some (problem_of p).

Definition in_C1 (progressList : list ProblemProgress) (unlocked_count : Z)
    (last_problem : option Problem) (now : Date) (p : ProblemProgress) : Prop :=
  in_C2 progressList unlocked_count last_problem p
  /\ num_le (nextReview p) now = true.

(** Sample data: rows of user ["u"] in their initial state, and a
    database holding the facts 10 x 1 and 1 x 1 with two tables open. *)
Definition sample_row (row_id pa pb : Z) : ProblemProgress :=
  mkProgress row_id "u" pa pb (initial_state (ofZ 0)).

Definition sample_db : DB :=
  mkDB [sample_row 1 10 1; sample_row 2 1 1] [mkUser "u" 2].

(** ** Problem keys, the reset route and the next-problem route *)

(** [problemKey]: the template string [`${a}x${b}`]; an integer below
    10^21 prints as its decimal digits, with a minus sign when negative. *)
Definition problemKey (a b : Z) : string := pretty a +:+ "x" +:+ pretty b.

Inductive ResetBody :=
  | ResetError (error : string)
  | ResetSuccess (success : bool)
  | ResetThrown.

Record ResetResponse := mkResetResponse { reset_status : Z; reset_body : ResetBody }.

Definition progress_deleteMany (db : DB) (uid : string) : DB :=
  mkDB (List.filter (fun p => negb (String.eqb (userId p) uid)) (problemProgress db))
       (user db).

(** [POST] of [api/reset]. Updating a user record that does not exist
    throws: the request then fails with status 500 after the rows were
    deleted. *)
Definition POST_reset (session : option string) (db : DB) : DB * ResetResponse :=
  match session with
  | None => (db, mkResetResponse 401 (ResetError "Unauthorized"))
  | Some uid =>
      let db := progress_deleteMany db uid in
      match user_findUnique db uid with
      | None => (db, mkResetResponse 500 ResetThrown)
      | Some _ => (user_update db uid 1, mkResetResponse 200 (ResetSuccess true))
      end
  end.

Inductive NextBody :=
  | NextError (error : string)
  | NextProblem (problem : option Problem) (view : StatsView).

Record NextResponse := mkNextResponse { next_status : Z; next_body : NextBody }.

(** Modelled from the spec: the column defaults of the [problemProgress]
    table, whose schema is not among the sources; section 3 gives ease
    factor 2.5, interval 0, review time "now" and counters 0, which is
    [initial_state]. [new_id] is the id the database assigns to the row of
    a problem; created rows follow the existing ones. *)
Definition progress_createMany (new_id : Problem -> Z) (db : DB) (uid : string)
    (now : Date) (problems : list Problem) : DB :=
  mkDB (problemProgress db
        ++ map (fun p => mkProgress (new_id p) uid (a p) (b p) (initial_state now)) problems)
       (user db).

Definition existingKeys (progress : list ProblemProgress) : gset string :=
  list_to_set (map (fun p => problemKey (problemA p) (problemB p)) progress).

Definition missingProblems (progress : list ProblemProgress) : list Problem :=
  List.filter (fun p => negb (bool_decide (problemKey (a p) (b p) ∈ existingKeys progress)))
              generateAllProblems.

(** [GET] of [api/next-problem]: [now_create] is the clock of the database
    when it creates rows, [now_select] the one [selectNextProblem] reads. *)
Definition GET (new_id : Problem -> Z) (session : option string)
    (now_create now_select : number) (db : DB) : DB * NextResponse :=
  match session with
  | None => (db, mkNextResponse 401 (NextError "Unauthorized"))
  | Some uid =>
      let tables :=
        match user_findUnique db uid with
        | Some u => unlockedTables u
        | None => 1
        end in
      let progress := progress_findMany db uid in
      let missing := missingProblems progress in
      let '(db, progress) :=
        if (0 <? length missing)%nat
        then (let db := progress_createMany new_id db uid now_create missing in
              (db, progress_findMany db uid))
        else (db, progress) in
      let nextProblem := selectNextProblem progress tables None now_select in
      let unlockedProblems :=
        List.filter (fun p => isProblemUnlocked (problemA p) (problemB p) tables)
                    progress in
      let masteredCount :=
        length (List.filter (fun p : ProblemProgress => isMastered p) unlockedProblems) in
      let view :=
        mkStatsView masteredCount (length unlockedProblems)
          (fold_left (fun sum (p : ProblemProgress) => sum + timesCorrect p + timesWrong p)
                     progress 0)
          0
          (slice0 TABLE_ORDER tables)
          (if tables <? Z.of_nat (length TABLE_ORDER)
           then (if 0 <=? tables then nth_error TABLE_ORDER (Z.to_nat tables) else None)
           else None) in
      (db, mkNextResponse 200 (NextProblem nextProblem view))
  end.

(** The [stats] object that the answer route and the next-problem route
    build from the rows of the user and the count of open tables. *)
Definition stats_view (progress : list ProblemProgress) (tables : Z) : StatsView :=
  let unlockedProblems :=
    List.filter (fun p => isProblemUnlocked (problemA p) (problemB p) tables) progress in
  mkStatsView
    (length (List.filter (fun p : ProblemProgress => isMastered p) unlockedProblems))
    (length unlockedProblems)
    (fold_left (fun sum (p : ProblemProgress) => sum + timesCorrect p + timesWrong p)
               progress 0)
    0
    (slice0 TABLE_ORDER tables)
    (if tables <? Z.of_nat (length TABLE_ORDER)
     then (if 0 <=? tables then nth_error TABLE_ORDER (Z.to_nat tables) else None)
     else None).

(** The count of open tables the routes read for a user. *)
Definition tables_of (db : DB) (uid : string) : Z :=
  match user_findUnique db uid with
  | Some u => unlockedTables u
  | None => 1
  end.

(** A row with its performance fields replaced, as [progress_update]
    leaves it. *)
Definition with_stats (p : ProblemProgress) (data : Stats) : ProblemProgress :=
  mkProgress (id p) (userId p) (problemA p) (problemB p) data.

(** ** Values of binary64 numbers *)

(** Two to the power [e + 1074]: the weight of exponent [e] in units of
    the smallest positive number. *)
Definition pow2s (e : Z) : Z := 2 ^ (e + 1074).

(** The value of a finite number, in units of 2^-1074. *)
Definition SFval (x : number) : Z :=
  match x with
  | S754_finite s m e => cond_Zopp s (Z.pos m * pow2s e)
  | _ => 0
  end.

(** A well-formed binary64 value that is finite. *)
Definition finite_ok (x : number) : Prop :=
  valid_binary prec emax x = true /\ isFinite x = true.

(** A well-formed binary64 value that is not NaN. *)
Definition num_ok (x : number) : Prop :=
  valid_binary prec emax x = true /\ isNaN x = false.

(** An order-preserving image of the numbers that are not NaN. *)
Definition SFord (x : number) : Z :=
  match x with
  | S754_infinity false => 2 ^ 2200
  | S754_infinity true => - 2 ^ 2200
  | _ => SFval x
  end.

Definition inexact (r : shr_record) : bool := shr_r r || shr_s r.

(** The result of rounding, before the overflow test. *)
Definition rounded (q2 : positive) (e2 : Z) : number :=
  if e2 <=? 971 then S754_finite false q2 e2 else S754_infinity false.

(** What the rounding of an exact positive value [X] establishes: [q] is
    the truncated mantissa at exponent [e1], and [q2], [e2] the mantissa
    and exponent of the result before the overflow test. *)
Definition round_facts (X q : Z) (q2 : positive) (e1 e2 : Z) : Prop :=
  -1074 <= e1
  /\ q * pow2s e1 <= X < (q + 1) * pow2s e1
  /\ (Z.pos q2 * pow2s e2 = q * pow2s e1
      \/ (Z.pos q2 * pow2s e2 = (q + 1) * pow2s e1 /\ q * pow2s e1 < X))
  /\ (-1074 < e1 -> 2 ^ 52 <= q)
  /\ e1 <= e2
  /\ Z.pos q2 < 2 ^ 53
  /\ (-1074 < e2 -> 2 ^ 52 <= Z.pos q2).

(** What a correctly rounded operation guarantees: a valid number that is
    not NaN and lies between any two numbers that bound the exact value. *)
Definition rounds_to (X : Z) (r : number) : Prop :=
  valid_binary prec emax r = true
  /\ isNaN r = false
  /\ (forall lb, finite_ok lb -> SFval lb <= X -> SFleb lb r = true)
  /\ (forall ub, finite_ok ub -> X <= SFval ub -> SFleb r ub = true).

(** Numbers that are at least zero. *)
Definition nonneg (x : number) : Prop := SFleb (S754_zero false) x = true.

(** The ease factor of a reachable state: well-formed, within [1.3, 3.0]. *)
Definition ease_ok (e : number) : Prop :=
  finite_ok e
  /\ num_le (decimal 13 10) e = true
  /\ num_le e (decimal 30 10) = true.

(** The interval of a reachable state: zero, or a number or plus infinity
    that is at least 1. *)
Definition interval_ok (i : number) : Prop :=
  i = ofZ 0 \/ (num_ok i /\ num_le (ofZ 1) i = true).

(** * Lemmas on binary64 arithmetic *)
Lemma digits2_size m : digits2_pos m = Pos.size m.
Proof. induction m; simpl; congruence. Qed.

Lemma digits_bounds m :
  2 ^ (Z.pos (digits2_pos m) - 1) <= Z.pos m < 2 ^ Z.pos (digits2_pos m).
Proof.
  rewrite digits2_size.
  pose proof (Pos.size_gt m) as Hgt. pose proof (Pos.size_le m) as Hle.
  split.
  - apply Pos2Z.pos_le_pos in Hle. rewrite Pos2Z.inj_pow in Hle.
    replace (Z.pos (Pos.size m)) with (Z.succ (Z.pos (Pos.size m) - 1)) in Hle by lia.
    rewrite Z.pow_succ_r in Hle by lia. lia.
  - apply Pos2Z.pos_lt_pos in Hgt. rewrite Pos2Z.inj_pow in Hgt. exact Hgt.
Qed.


Lemma pow2s_pos e : -1074 <= e -> 0 < pow2s e.
Proof. intros. unfold pow2s. apply Z.pow_pos_nonneg; lia. Qed.

Lemma pow2s_add e k : -1074 <= e -> 0 <= k -> pow2s (e + k) = pow2s e * 2 ^ k.
Proof.
  intros. unfold pow2s.
  replace (e + k + 1074) with ((e + 1074) + k) by lia.
  apply Z.pow_add_r; lia.
Qed.

Lemma pow2s_lt e1 e2 : -1074 <= e1 -> e1 < e2 -> 2 * pow2s e1 <= pow2s e2.
Proof.
  intros H1 H2.
  replace e2 with (e1 + (e2 - e1)) by lia.
  rewrite pow2s_add by lia.
  pose proof (pow2s_pos e1 H1).
  assert (2 ^ 1 <= 2 ^ (e2 - e1)) by (apply Z.pow_le_mono_r; lia).
  change (2 ^ 1) with 2 in *. nia.
Qed.

Lemma digits_unique m d :
  2 ^ (d - 1) <= Z.pos m < 2 ^ d -> Z.pos (digits2_pos m) = d.
Proof.
  intros [Hl Hu]. pose proof (digits_bounds m) as [Dl Du].
  set (D := Z.pos (digits2_pos m)) in *.
  assert (0 < D) by (subst D; lia).
  destruct (Z.lt_trichotomy D d) as [Hlt | [Heq | Hgt]]; [ | exact Heq | ].
  - assert (2 ^ D <= 2 ^ (d - 1)) by (apply Z.pow_le_mono_r; lia). lia.
  - assert (0 < d).
    { destruct (Z_lt_le_dec 0 d); [lia|].
      destruct (Z.eq_dec d 0) as [->|]; [simpl in Hu; lia|].
      rewrite (Z.pow_neg_r 2 d) in Hu by lia. lia. }
    assert (2 ^ d <= 2 ^ (D - 1)) by (apply Z.pow_le_mono_r; lia). lia.
Qed.

Lemma bounded_facts m e :
  bounded prec emax m e = true ->
  -1074 <= e <= 971 /\ Z.pos m < 2 ^ 53 /\ (-1074 < e -> 2 ^ 52 <= Z.pos m).
Proof.
  unfold bounded, canonical_mantissa, fexp, emin, prec, emax.
  intros H. apply andb_prop in H as [Hc Hb].
  apply Z.eqb_eq in Hc. apply Z.leb_le in Hb.
  pose proof (digits_bounds m) as [Dl Du].
  set (D := Z.pos (digits2_pos m)) in *.
  assert (D <= 53) by lia.
  repeat split; try lia.
  - assert (2 ^ D <= 2 ^ 53) by (apply Z.pow_le_mono_r; lia). lia.
  - intros He. assert (D = 53) as HD by lia. rewrite HD in Dl. exact Dl.
Qed.

Lemma bounded_intro m e :
  -1074 <= e <= 971 -> Z.pos m < 2 ^ 53 -> (-1074 < e -> 2 ^ 52 <= Z.pos m) ->
  bounded prec emax m e = true.
Proof.
  intros He Hu Hl.
  unfold bounded, canonical_mantissa, fexp, emin, prec, emax.
  apply andb_true_intro. split; [apply Z.eqb_eq | apply Z.leb_le; lia].
  pose proof (digits_bounds m) as [Dl Du].
  set (D := Z.pos (digits2_pos m)) in *.
  assert (D <= 53).
  { destruct (Z_lt_le_dec 53 D); [|lia].
    assert (2 ^ 53 <= 2 ^ (D - 1)) by (apply Z.pow_le_mono_r; lia). lia. }
  destruct (Z.eq_dec e (-1074)) as [->|Hne]; [lia|].
  assert (D = 53); [|lia].
  subst D. apply digits_unique. split; [apply Hl; lia | exact Hu].
Qed.

(** On valid finite numbers the comparison of the language is the
    comparison of the values. *)
Lemma SFcompare_val x y :
  finite_ok x -> finite_ok y -> SFcompare x y = Some (SFval x ?= SFval y).
Proof.
  intros [Vx Fx] [Vy Fy].
  destruct x as [sx| | |sx mx ex]; try discriminate;
  destruct y as [sy| | |sy my ey]; try discriminate;
  cbn [valid_binary isFinite SFval SFcompare] in *.
  - reflexivity.
  - apply bounded_facts in Vy as (He & _). pose proof (pow2s_pos ey ltac:(lia)).
    destruct sy; cbn [cond_Zopp]; f_equal; symmetry;
      [apply Z.compare_gt_iff | apply Z.compare_lt_iff]; nia.
  - apply bounded_facts in Vx as (He & _). pose proof (pow2s_pos ex ltac:(lia)).
    destruct sx; cbn [cond_Zopp]; f_equal; symmetry;
      [apply Z.compare_lt_iff | apply Z.compare_gt_iff]; nia.
  - apply bounded_facts in Vx as (Hex & Hux & Hlx).
    apply bounded_facts in Vy as (Hey & Huy & Hly).
    pose proof (pow2s_pos ex ltac:(lia)) as Px.
    pose proof (pow2s_pos ey ltac:(lia)) as Py.
    change (2 ^ 53) with (2 * 2 ^ 52) in *.
    assert (0 < 2 ^ 52) as P52 by (apply Z.pow_pos_nonneg; lia).
    f_equal.
    destruct sx, sy; cbn [cond_Zopp].
    + (* both negative *)
      destruct (Z.compare_spec ex ey) as [He | He | He].
      * subst ey. change (Pos.compare_cont Eq mx my) with (Pos.compare mx my).
        destruct (Pos.compare_spec mx my) as [Hm | Hm | Hm]; cbn [CompOpp]; symmetry;
          [ subst my; apply Z.compare_refl
          | apply Z.compare_gt_iff; apply Pos2Z.pos_lt_pos in Hm; nia
          | apply Z.compare_lt_iff; apply Pos2Z.pos_lt_pos in Hm; nia ].
      * symmetry. apply Z.compare_gt_iff.
        pose proof (pow2s_lt ex ey ltac:(lia) He). specialize (Hly ltac:(lia)). nia.
      * symmetry. apply Z.compare_lt_iff.
        pose proof (pow2s_lt ey ex ltac:(lia) He). specialize (Hlx ltac:(lia)). nia.
    + symmetry. apply Z.compare_lt_iff. nia.
    + symmetry. apply Z.compare_gt_iff. nia.
    + destruct (Z.compare_spec ex ey) as [He | He | He].
      * subst ey. change (Pos.compare_cont Eq mx my) with (Pos.compare mx my).
        destruct (Pos.compare_spec mx my) as [Hm | Hm | Hm]; symmetry;
          [ subst my; apply Z.compare_refl
          | apply Z.compare_lt_iff; apply Pos2Z.pos_lt_pos in Hm; nia
          | apply Z.compare_gt_iff; apply Pos2Z.pos_lt_pos in Hm; nia ].
      * symmetry. apply Z.compare_lt_iff.
        pose proof (pow2s_lt ex ey ltac:(lia) He). specialize (Hly ltac:(lia)). nia.
      * symmetry. apply Z.compare_gt_iff.
        pose proof (pow2s_lt ey ex ltac:(lia) He). specialize (Hlx ltac:(lia)). nia.
Qed.

Lemma iter_pos_nat {A : Type} (f : A -> A) p x :
  SpecFloat.iter_pos f p x = Nat.iter (Pos.to_nat p) f x.
Proof.
  revert x. induction p as [p IH | p IH | ]; intros x; cbn [SpecFloat.iter_pos].
  - rewrite !IH, Pos2Nat.inj_xI.
    replace (S (2 * Pos.to_nat p))%nat with (Pos.to_nat p + S (Pos.to_nat p))%nat by lia.
    rewrite Nat.iter_add, Nat.iter_succ_r. reflexivity.
  - rewrite !IH, Pos2Nat.inj_xO.
    replace (2 * Pos.to_nat p)%nat with (Pos.to_nat p + Pos.to_nat p)%nat by lia.
    rewrite Nat.iter_add. reflexivity.
  - reflexivity.
Qed.

Lemma shr_1_spec r :
  0 <= shr_m r ->
  shr_m r = 2 * shr_m (shr_1 r) + Z.b2z (shr_r (shr_1 r))
  /\ 0 <= shr_m (shr_1 r)
  /\ shr_s (shr_1 r) = inexact r.
Proof.
  destruct r as [m r s]. cbn [shr_m]. intros Hm.
  destruct m as [ | [p | p | ] | p ]; try lia; cbn; repeat split; lia.
Qed.

Lemma shr_nat_spec n r :
  0 <= shr_m r ->
  let r' := Nat.iter n shr_1 r in
  exists rem,
    shr_m r = shr_m r' * 2 ^ Z.of_nat n + rem
    /\ 0 <= rem < 2 ^ Z.of_nat n
    /\ 0 <= shr_m r'
    /\ (inexact r = false -> rem = 0 -> inexact r' = false).
Proof.
  intros Hm. induction n as [ | n IH ].
  - exists 0. cbn. repeat split; try lia. auto.
  - cbn zeta in *. destruct IH as (rem & Heq & Hrem & Hpos & Hex).
    rewrite Nat.iter_succ. set (r1 := Nat.iter n shr_1 r) in *.
    destruct (shr_1_spec r1 Hpos) as (H2 & Hpos' & Hs).
    rewrite Nat2Z.inj_succ, Z.pow_succ_r by lia.
    assert (0 < 2 ^ Z.of_nat n) as Hp by (apply Z.pow_pos_nonneg; lia).
    exists (Z.b2z (shr_r (shr_1 r1)) * 2 ^ Z.of_nat n + rem).
    split; [rewrite Heq, H2; ring|].
    split; [destruct (shr_r (shr_1 r1)); cbn [Z.b2z]; lia|].
    split; [exact Hpos'|].
    intros Hin Hz. unfold inexact. rewrite Hs.
    destruct (shr_r (shr_1 r1)) eqn:Hr; cbn [Z.b2z] in *; [lia|].
    cbn. apply Hex; [exact Hin | lia].
Qed.

Lemma shr_spec r e n :
  0 <= n -> 0 <= shr_m r ->
  exists r' rem,
    shr r e n = (r', e + n)
    /\ shr_m r = shr_m r' * 2 ^ n + rem
    /\ 0 <= rem < 2 ^ n
    /\ 0 <= shr_m r'
    /\ (inexact r = false -> rem = 0 -> inexact r' = false).
Proof.
  intros Hn Hm. destruct n as [ | p | p ]; try lia.
  - exists r, 0. cbn [shr]. rewrite Z.add_0_r. repeat split; try lia. auto.
  - cbn [shr]. rewrite iter_pos_nat.
    destruct (shr_nat_spec (Pos.to_nat p) r Hm) as (rem & H).
    rewrite positive_nat_Z in H.
    exists (Nat.iter (Pos.to_nat p) shr_1 r), rem. split; [reflexivity | exact H].
Qed.

Lemma round_nearest_even_spec q r :
  let q' := round_nearest_even q (loc_of_shr_record r) in
  q <= q' <= q + 1 /\ (inexact r = false -> q' = q).
Proof.
  destruct r as [m [|] [|]]; cbn; try destruct (Z.even q); split; try lia;
    intros; try discriminate; reflexivity.
Qed.

Lemma digits_le p k : 0 <= k -> Z.pos p < 2 ^ k -> Z.pos (digits2_pos p) <= k.
Proof.
  intros Hk Hp. pose proof (digits_bounds p) as [Dl _].
  destruct (Z_lt_le_dec k (Z.pos (digits2_pos p))); [|lia].
  assert (2 ^ k <= 2 ^ (Z.pos (digits2_pos p) - 1)) by (apply Z.pow_le_mono_r; lia).
  lia.
Qed.

Lemma fexp_eq d e : fexp prec emax (d + e) = Z.max (d + e - 53) (-1074).
Proof. reflexivity. Qed.

(** The second shift of [binary_round_aux]: a mantissa that rounding
    carried to 2^53 is brought back to 53 digits. *)
Lemma renorm_spec q e1 :
  1 <= q <= 2 ^ 53 -> -1074 <= e1 -> (-1074 < e1 -> 2 ^ 52 <= q) ->
  exists r2 e2 q2,
    shr_fexp prec emax q e1 loc_Exact = (r2, e2)
    /\ shr_m r2 = Z.pos q2
    /\ Z.pos q2 * pow2s e2 = q * pow2s e1
    /\ e1 <= e2
    /\ Z.pos q2 < 2 ^ 53
    /\ (-1074 < e2 -> 2 ^ 52 <= Z.pos q2).
Proof.
  intros Hq He Hn. destruct q as [ | p | p ]; try lia.
  unfold shr_fexp. cbn [Zdigits2 shr_record_of_loc]. rewrite fexp_eq.
  destruct (Z.eq_dec (Z.pos p) (2 ^ 53)) as [Heq | Hne].
  - assert (Z.pos (digits2_pos p) = 54) as HD.
    { apply digits_unique. rewrite Heq. cbn. lia. }
    rewrite HD. replace (Z.max (54 + e1 - 53) (-1074) - e1) with 1 by lia.
    injection Heq as ->. cbn [shr SpecFloat.iter_pos shr_1].
    eexists _, _, _. split; [reflexivity|]. cbn [shr_m].
    split; [reflexivity|]. split.
    { rewrite pow2s_add by lia. change (2 ^ 1) with 2. lia. }
    split; [lia|]. split; [cbn; lia|]. intros _. cbn. lia.
  - assert (Z.pos p < 2 ^ 53) as Hlt by lia.
    assert (Z.max (Z.pos (digits2_pos p) + e1 - 53) (-1074) - e1 = 0) as Hz.
    { pose proof (digits_le p 53 ltac:(lia) Hlt).
      destruct (Z.eq_dec e1 (-1074)); [lia|].
      assert (Z.pos (digits2_pos p) = 53); [|lia].
      apply digits_unique. split; [apply Hn; lia | exact Hlt]. }
    rewrite Hz. cbn [shr].
    eexists _, _, p. split; [reflexivity|]. cbn [shr_m].
    repeat split; try lia; auto.
Qed.


Lemma round_aux_spec (M : positive) (e : Z) :
  -1074 <= e ->
  let e1 := fexp prec emax (Z.pos (digits2_pos M) + e) in
  e <= e1 ->
  exists q q2 e2,
    binary_round_aux prec emax false (Z.pos M) e loc_Exact = rounded q2 e2
    /\ q * pow2s e1 <= Z.pos M * pow2s e < (q + 1) * pow2s e1
    /\ (Z.pos q2 * pow2s e2 = q * pow2s e1
        \/ (Z.pos q2 * pow2s e2 = (q + 1) * pow2s e1
            /\ q * pow2s e1 < Z.pos M * pow2s e))
    /\ (-1074 < e1 -> 2 ^ 52 <= q)
    /\ e1 <= e2
    /\ Z.pos q2 < 2 ^ 53
    /\ (-1074 < e2 -> 2 ^ 52 <= Z.pos q2).
Proof.
  intros He e1 Hle.
  pose proof (digits_bounds M) as [Dl Du].
  unfold binary_round_aux.
  unfold shr_fexp at 1. cbn [Zdigits2 shr_record_of_loc]. fold e1.
  destruct (shr_spec (Build_shr_record (Z.pos M) false false) e (e1 - e))
    as (r1 & rem & Hshr & Hval & Hrem & Hpos & Hex); [lia | cbn; lia | ].
  rewrite Hshr. cbn [shr_m] in Hval.
  replace (e + (e1 - e)) with e1 by lia.
  set (q := shr_m r1) in *.
  pose proof (round_nearest_even_spec q r1) as [Hq' Hexact].
  set (q' := round_nearest_even q (loc_of_shr_record r1)) in *.
  cbn zeta in Hq', Hexact.
  assert (0 < 2 ^ (e1 - e)) as Hpw by (apply Z.pow_pos_nonneg; lia).
  assert (pow2s e1 = pow2s e * 2 ^ (e1 - e)) as Hpe.
  { rewrite <- pow2s_add by lia. f_equal. lia. }
  pose proof (pow2s_pos e He) as Ppe.
  (* bounds on the truncated mantissa *)
  assert (q < 2 ^ 53 /\ (-1074 < e1 -> 2 ^ 52 <= q) /\ 1 <= q) as (Hqu & Hql & Hq1).
  { subst e1. rewrite fexp_eq in *. set (D := Z.pos (digits2_pos M)) in *.
    destruct (Z_le_gt_dec (D + e - 53) (-1074)) as [Hs | Hs].
    - rewrite Z.max_r in * by lia.
      assert (e = -1074) as -> by lia. 
      change (2 ^ (-1074 - -1074)) with 1 in *.
      assert (q = Z.pos M) as -> by lia.
      assert (D <= 53) by lia.
      assert (2 ^ D <= 2 ^ 53) by (apply Z.pow_le_mono_r; lia).
      repeat split; lia.
    - rewrite Z.max_l in * by lia.
      replace (D + e - 53 - e) with (D - 53) in * by lia.
      assert (2 ^ D = 2 ^ 53 * 2 ^ (D - 53)) as HD.
      { rewrite <- Z.pow_add_r by lia. f_equal. lia. }
      assert (2 ^ (D - 1) = 2 ^ 52 * 2 ^ (D - 53)) as HD1.
      { rewrite <- Z.pow_add_r by lia. f_equal. lia. }
      assert (0 < 2 ^ 52) by (cbn; lia).
      assert (2 ^ 52 <= q) by nia.
      repeat split; try nia. }
  destruct (renorm_spec q' e1) as (r2 & e2 & q2 & Hsh2 & Hm2 & Hv2 & Hle2 & Hu2 & Hl2).
  { lia. } { subst e1. rewrite fexp_eq. lia. } { intros. specialize (Hql ltac:(lia)). lia. }
  rewrite Hsh2, Hm2.
  exists q, q2, e2. split; [reflexivity|].
  split; [rewrite Hpe; nia|].
  split.
  { destruct (Z.eq_dec q' q) as [-> | Hne]; [left; exact Hv2|].
    right. assert (q' = q + 1) as Hq1' by lia. rewrite Hq1' in Hv2.
    split; [exact Hv2|].
    assert (rem <> 0).
    { intros ->. apply Hne, Hexact, Hex; reflexivity. }
    rewrite Hpe. nia. }
  repeat split; assumption.
Qed.

Lemma pos_iter_xO m d : Z.pos (Pos.iter xO m d) = Z.pos m * 2 ^ Z.pos d.
Proof.
  induction d as [ | d IH ] using Pos.peano_ind.
  - cbn. lia.
  - rewrite Pos.iter_succ, Pos2Z.inj_xO, IH, Pos2Z.inj_succ, Z.pow_succ_r by lia. ring.
Qed.

Lemma digits_shift m m' k :
  0 <= k -> Z.pos m' = Z.pos m * 2 ^ k ->
  Z.pos (digits2_pos m') = Z.pos (digits2_pos m) + k.
Proof.
  intros Hk Hm. apply digits_unique. rewrite Hm.
  pose proof (digits_bounds m) as [Dl Du].
  assert (0 < 2 ^ k) by (apply Z.pow_pos_nonneg; lia).
  replace (Z.pos (digits2_pos m) + k - 1) with (Z.pos (digits2_pos m) - 1 + k) by lia.
  rewrite !Z.pow_add_r by lia. nia.
Qed.

Lemma shl_align_spec m e e' :
  -1074 <= e -> -1074 <= e' ->
  exists m1 e1,
    shl_align m e e' = (m1, e1)
    /\ e1 = Z.min e e'
    /\ Z.pos m1 * pow2s e1 = Z.pos m * pow2s e
    /\ Z.pos (digits2_pos m1) + e1 = Z.pos (digits2_pos m) + e.
Proof.
  intros He He'. unfold shl_align.
  destruct (e' - e) as [ | d | d ] eqn:Hd.
  - exists m, e. repeat split; lia.
  - exists m, e. repeat split; lia.
  - exists (Pos.iter xO m d), e'.
    pose proof (pos_iter_xO m d) as Hm.
    split; [reflexivity|]. split; [lia|]. split.
    + rewrite Hm. replace e with (e' + Z.pos d) by lia.
      rewrite pow2s_add by lia. ring.
    + rewrite (digits_shift m _ (Z.pos d)) by (try lia; exact Hm). lia.
Qed.


(** Rounding an exact positive value [M * 2^e] to the nearest number. *)
Lemma binary_round_spec (M : positive) (e : Z) :
  -1074 <= e ->
  exists q q2 e1 e2,
    binary_round prec emax false M e = rounded q2 e2
    /\ round_facts (Z.pos M * pow2s e) q q2 e1 e2.
Proof.
  intros He. unfold binary_round.
  set (f := fexp prec emax (Z.pos (digits2_pos M) + e)).
  assert (-1074 <= f) as Hf by (subst f; rewrite fexp_eq; lia).
  destruct (shl_align_spec M e f He Hf) as (m1 & e1 & Hsh & He1 & Hv & Hd).
  rewrite Hsh.
  destruct (round_aux_spec m1 e1) as (q & q2 & e2 & Hr & H).
  { lia. } { rewrite Hd. fold f. lia. }
  rewrite Hd in H. fold f in H. rewrite Hv in H.
  exists q, q2, f, e2. split; [exact Hr|]. split; [exact Hf | exact H].
Qed.

Lemma rounded_fin X q q2 e1 e2 :
  round_facts X q q2 e1 e2 -> e2 <= 971 -> finite_ok (S754_finite false q2 e2).
Proof.
    intros (He1 & Hbr & Hv & Hq & He12 & Hu2 & Hl2) ?. split; [|reflexivity]. cbn [valid_binary].
    apply bounded_intro; [lia | exact Hu2 | exact Hl2].
Qed.

Lemma rounded_lower X q q2 e1 e2 lb :
  round_facts X q q2 e1 e2 ->
  finite_ok lb -> SFval lb <= X -> SFval lb <= Z.pos q2 * pow2s e2.
Proof.
    intros (He1 & Hbr & Hv & Hq & He12 & Hu2 & Hl2) [Vl Fl] Hle.
    pose proof (pow2s_pos e1 He1) as P1.
    assert (q * pow2s e1 <= Z.pos q2 * pow2s e2) as Hqr by (destruct Hv as [-> | [-> _]]; lia).
    assert (0 <= q) as Hq0.
    { destruct (Z_lt_le_dec q 0); [|lia].
      assert (Z.pos q2 * pow2s e2 <= 0) by (destruct Hv as [-> | [-> _]]; nia).
      pose proof (pow2s_pos e2 ltac:(lia)). nia. }
    destruct lb as [s| | |s m e]; try discriminate; cbn [SFval] in *; [nia|].
    cbn [valid_binary] in Vl. apply bounded_facts in Vl as (Hel & Hul & Hll).
    pose proof (pow2s_pos e ltac:(lia)) as Pe.
    destruct s; cbn [cond_Zopp] in *; [nia|].
    change (2 ^ 53) with (2 * 4503599627370496) in *.
    change (2 ^ 52) with 4503599627370496 in *.
    destruct (Z_lt_le_dec e e1) as [Hlt | Hge].
    - pose proof (pow2s_lt e e1 ltac:(lia) Hlt). specialize (Hq ltac:(lia)). nia.
    - assert (pow2s e = pow2s e1 * 2 ^ (e - e1)) as Hpe.
      { rewrite <- pow2s_add by lia. f_equal. lia. }
      assert (0 < 2 ^ (e - e1)) by (apply Z.pow_pos_nonneg; lia).
      rewrite Hpe in *.
      assert (Z.pos m * 2 ^ (e - e1) < q + 1).
      { apply (Z.mul_lt_mono_pos_r (pow2s e1)); [exact P1 | nia]. }
      nia.
Qed.

Lemma rounded_upper X q q2 e1 e2 ub :
  round_facts X q q2 e1 e2 ->
  finite_ok ub -> 0 < X -> X <= SFval ub ->
  Z.pos q2 * pow2s e2 <= SFval ub /\ e2 <= 971.
Proof.
    intros (He1 & Hbr & Hv & Hq & He12 & Hu2 & Hl2) [Vu Fu] HX Hle.
    pose proof (pow2s_pos e1 He1) as P1.
    pose proof (pow2s_pos e2 ltac:(lia)) as P2.
    destruct ub as [s| | |s m e]; try discriminate; cbn [SFval] in *; [lia|].
    cbn [valid_binary] in Vu. apply bounded_facts in Vu as (Hel & Hul & Hll).
    pose proof (pow2s_pos e ltac:(lia)) as Pe.
    destruct s; cbn [cond_Zopp] in *; [nia|].
    change (2 ^ 53) with (2 * 4503599627370496) in *.
    change (2 ^ 52) with 4503599627370496 in *.
    assert (Z.pos q2 * pow2s e2 <= Z.pos m * pow2s e) as Hres.
    { destruct Hv as [Heq | [Heq Hlt]]; [lia|]. rewrite Heq.
      destruct (Z_lt_le_dec e e1) as [Hlt' | Hge].
      - pose proof (pow2s_lt e e1 ltac:(lia) Hlt'). specialize (Hq ltac:(lia)). nia.
      - assert (pow2s e = pow2s e1 * 2 ^ (e - e1)) as Hpe.
        { rewrite <- pow2s_add by lia. f_equal. lia. }
        assert (0 < 2 ^ (e - e1)) by (apply Z.pow_pos_nonneg; lia).
        rewrite Hpe in *.
        assert (q < Z.pos m * 2 ^ (e - e1)).
        { apply (Z.mul_lt_mono_pos_r (pow2s e1)); [exact P1 | nia]. }
        nia. }
    split; [exact Hres|].
    destruct (Z_le_gt_dec e2 971) as [ | Hov]; [assumption|].
    pose proof (pow2s_lt e e2 ltac:(lia) ltac:(lia)). specialize (Hl2 ltac:(lia)). nia.
Qed.

Lemma binary_round_aux_sign s m e l :
  binary_round_aux prec emax s m e l =
  if s then SFopp (binary_round_aux prec emax false m e l)
  else binary_round_aux prec emax false m e l.
Proof.
  destruct s; [|reflexivity]. unfold binary_round_aux.
  destruct (shr_fexp prec emax m e l) as [r1 e1].
  destruct (shr_fexp prec emax _ e1 loc_Exact) as [r2 e2].
  destruct (shr_m r2); [reflexivity | | reflexivity].
  destruct (e2 <=? emax - prec); reflexivity.
Qed.

Lemma binary_round_sign M e :
  binary_round prec emax true M e = SFopp (binary_round prec emax false M e).
Proof.
  unfold binary_round. destruct (shl_align M e _) as [mz ez].
  apply (binary_round_aux_sign true).
Qed.

Lemma fin_opp x : finite_ok x -> finite_ok (SFopp x).
Proof. intros [V F]. destruct x; try discriminate; split; assumption. Qed.

Lemma SFval_opp x : SFval (SFopp x) = - SFval x.
Proof. destruct x as [ | | | [|] m e]; cbn; lia. Qed.

Lemma SFleb_val x y : finite_ok x -> finite_ok y -> SFleb x y = (SFval x <=? SFval y).
Proof.
  intros Hx Hy. unfold SFleb, Z.leb. rewrite (SFcompare_val x y Hx Hy).
  destruct (SFval x ?= SFval y); reflexivity.
Qed.

Lemma SFltb_val x y : finite_ok x -> finite_ok y -> SFltb x y = (SFval x <? SFval y).
Proof.
  intros Hx Hy. unfold SFltb, Z.ltb. rewrite (SFcompare_val x y Hx Hy).
  destruct (SFval x ?= SFval y); reflexivity.
Qed.


Lemma rounds_to_fin X r : finite_ok r -> SFval r = X -> rounds_to X r.
Proof.
  intros Hr HX. split; [apply Hr|]. split; [destruct Hr as [_ F]; destruct r; auto; discriminate|].
  split; intros b Hb Hle; rewrite SFleb_val by assumption; apply Z.leb_le; lia.
Qed.

Lemma binary_normalize_spec M e :
  -1074 <= e -> rounds_to (M * pow2s e) (binary_normalize prec emax M e false).
Proof.
  intros He. destruct M as [ | M | M ]; cbn [binary_normalize].
  - apply rounds_to_fin; [split; reflexivity | reflexivity].
  - destruct (binary_round_spec M e He)
      as (q & q2 & e1 & e2 & Hr & HF).
    rewrite Hr. unfold rounded.
    assert (0 < Z.pos M * pow2s e) as HX by (pose proof (pow2s_pos e He); nia).
    split; [|split; [|split]].
    + destruct (e2 <=? 971) eqn:E; [|reflexivity].
      apply Z.leb_le in E. apply (rounded_fin _ _ _ _ _ HF); lia.
    + destruct (e2 <=? 971); reflexivity.
    + intros lb Hlb Hle.
      pose proof (rounded_lower _ _ _ _ _ lb HF Hlb Hle) as Hlow.
      destruct (e2 <=? 971) eqn:E.
      * apply Z.leb_le in E.
        rewrite SFleb_val; [apply Z.leb_le; exact Hlow | exact Hlb | ].
        apply (rounded_fin _ _ _ _ _ HF); lia.
      * destruct Hlb as [_ F]. destruct lb; try discriminate; reflexivity.
    + intros ub Hub Hle.
      destruct (rounded_upper _ _ _ _ _ ub HF Hub HX Hle)
        as [Hup E].
      assert ((e2 <=? 971) = true) as -> by (apply Z.leb_le; exact E).
      rewrite SFleb_val; [apply Z.leb_le; exact Hup | | exact Hub].
      apply (rounded_fin _ _ _ _ _ HF); lia.
  - rewrite binary_round_sign.
    destruct (binary_round_spec M e He)
      as (q & q2 & e1 & e2 & Hr & HF).
    rewrite Hr. unfold rounded.
    assert (0 < Z.pos M * pow2s e) as HX by (pose proof (pow2s_pos e He); nia).
    assert (Z.neg M * pow2s e = - (Z.pos M * pow2s e)) as HN by lia.
    rewrite HN.
    split; [|split; [|split]].
    + destruct (e2 <=? 971) eqn:E; [|reflexivity].
      apply Z.leb_le in E. apply (fin_opp (S754_finite false q2 e2)).
      apply (rounded_fin _ _ _ _ _ HF); lia.
    + destruct (e2 <=? 971); reflexivity.
    + intros lb Hlb Hle.
      destruct (rounded_upper _ _ _ _ _ (SFopp lb) HF (fin_opp _ Hlb) HX) as [Hup E].
      { rewrite SFval_opp. lia. }
      assert ((e2 <=? 971) = true) as -> by (apply Z.leb_le; exact E).
      rewrite SFval_opp in Hup.
      rewrite SFleb_val; [apply Z.leb_le; rewrite SFval_opp; cbn [SFval cond_Zopp]; lia | exact Hlb | ].
      apply fin_opp. apply (rounded_fin _ _ _ _ _ HF); lia.
    + intros ub Hub Hle.
      pose proof (rounded_lower _ _ _ _ _ (SFopp ub) HF (fin_opp _ Hub)) as Hlow.
      rewrite SFval_opp in Hlow. specialize (Hlow ltac:(lia)).
      destruct (e2 <=? 971) eqn:E.
      * apply Z.leb_le in E.
        rewrite SFleb_val; [apply Z.leb_le; rewrite SFval_opp; cbn [SFval cond_Zopp]; lia | | exact Hub].
        apply fin_opp. apply (rounded_fin _ _ _ _ _ HF); lia.
      * destruct Hub as [_ F]. destruct ub; try discriminate; reflexivity.
Qed.

Lemma shl_align_fst_val m e e' :
  -1074 <= e -> -1074 <= e' -> e' <= e ->
  Z.pos (fst (shl_align m e e')) * pow2s e' = Z.pos m * pow2s e.
Proof.
  intros He He' Hle.
  destruct (shl_align_spec m e e' He He') as (m1 & e1 & Hsh & He1 & Hv & _).
  rewrite Hsh. cbn [fst]. rewrite <- Hv. f_equal. f_equal. lia.
Qed.

Lemma cond_Zopp_mul s x y : cond_Zopp s x * y = cond_Zopp s (x * y).
Proof. destruct s; cbn; lia. Qed.

Lemma SFadd_spec x y :
  finite_ok x -> finite_ok y -> rounds_to (SFval x + SFval y) (SFadd prec emax x y).
Proof.
  intros Hx Hy. pose proof Hx as [Vx Fx]. pose proof Hy as [Vy Fy].
  destruct x as [sx| | |sx mx ex]; try discriminate;
  destruct y as [sy| | |sy my ey]; try discriminate; cbn [SFadd].
  - destruct sx, sy; apply rounds_to_fin; try reflexivity; split; reflexivity.
  - apply rounds_to_fin; [exact Hy | cbn [SFval]; lia].
  - apply rounds_to_fin; [exact Hx | cbn [SFval]; lia].
  - cbn [valid_binary] in *.
    apply bounded_facts in Vx as (Hex & _). apply bounded_facts in Vy as (Hey & _).
    set (ez := Z.min ex ey).
    replace (SFval (S754_finite sx mx ex) + SFval (S754_finite sy my ey))
      with ((cond_Zopp sx (Z.pos (fst (shl_align mx ex ez)))
             + cond_Zopp sy (Z.pos (fst (shl_align my ey ez)))) * pow2s ez).
    { apply binary_normalize_spec. lia. }
    rewrite Z.mul_add_distr_r, !cond_Zopp_mul.
    rewrite !shl_align_fst_val by lia. reflexivity.
Qed.

Lemma SFsub_spec x y :
  finite_ok x -> finite_ok y -> rounds_to (SFval x - SFval y) (SFsub prec emax x y).
Proof.
  intros Hx Hy. pose proof Hx as [Vx Fx]. pose proof Hy as [Vy Fy].
  destruct x as [sx| | |sx mx ex]; try discriminate;
  destruct y as [sy| | |sy my ey]; try discriminate; cbn [SFsub].
  - destruct sx, sy; apply rounds_to_fin; try reflexivity; split; reflexivity.
  - apply (rounds_to_fin _ (SFopp (S754_finite sy my ey)));
      [apply fin_opp; exact Hy | rewrite SFval_opp; cbn [SFval]; lia].
  - apply rounds_to_fin; [exact Hx | cbn [SFval]; lia].
  - cbn [valid_binary] in *.
    apply bounded_facts in Vx as (Hex & _). apply bounded_facts in Vy as (Hey & _).
    set (ez := Z.min ex ey).
    replace (SFval (S754_finite sx mx ex) - SFval (S754_finite sy my ey))
      with ((cond_Zopp sx (Z.pos (fst (shl_align mx ex ez)))
             - cond_Zopp sy (Z.pos (fst (shl_align my ey ez)))) * pow2s ez).
    { apply binary_normalize_spec. lia. }
    rewrite Z.mul_sub_distr_r, !cond_Zopp_mul.
    rewrite !shl_align_fst_val by lia. reflexivity.
Qed.

Lemma finite_ok_num_ok x : finite_ok x -> num_ok x.
Proof. intros [V F]. split; [exact V|]. destruct x; auto; discriminate. Qed.

Lemma rounds_to_num_ok X r : rounds_to X r -> num_ok r.
Proof. intros (V & N & _). split; assumption. Qed.

Lemma SFval_bound x : finite_ok x -> - 2 ^ 2200 < SFval x < 2 ^ 2200.
Proof.
  intros [V F]. destruct x as [s| | |s m e]; try discriminate; cbn [SFval].
  - assert (0 < 2 ^ 2200) by (apply Z.pow_pos_nonneg; lia). lia.
  - cbn [valid_binary] in V. apply bounded_facts in V as (He & Hu & _).
    assert (pow2s e <= 2 ^ 2045) as Hp.
    { unfold pow2s. apply Z.pow_le_mono_r; lia. }
    pose proof (pow2s_pos e ltac:(lia)).
    assert (2 ^ 2200 = 2 ^ 53 * 2 ^ 2045 * 2 ^ 102) as -> by (rewrite <- !Z.pow_add_r by lia; reflexivity).
    assert (0 < 2 ^ 2045) by (apply Z.pow_pos_nonneg; lia).
    assert (0 < 2 ^ 102) by (apply Z.pow_pos_nonneg; lia).
    assert (0 < 2 ^ 53) by (apply Z.pow_pos_nonneg; lia).
    assert (Z.pos m * pow2s e < 2 ^ 53 * 2 ^ 2045) by nia.
    assert (2 ^ 53 * 2 ^ 2045 <= 2 ^ 53 * 2 ^ 2045 * 2 ^ 102) by nia.
    destruct s; cbn [cond_Zopp]; lia.
Qed.

Lemma num_ok_cases x :
  num_ok x -> finite_ok x \/ x = S754_infinity false \/ x = S754_infinity true.
Proof.
  intros [V N]. destruct x as [s|[|]| |s m e]; try discriminate; auto;
    left; split; auto.
Qed.

(** On valid numbers other than NaN the comparison is a total order. *)
Lemma SFcompare_ord x y :
  num_ok x -> num_ok y -> SFcompare x y = Some (SFord x ?= SFord y).
Proof.
  intros Hx Hy.
  assert (0 < 2 ^ 2200) as Hh by (apply Z.pow_pos_nonneg; lia).
  assert (forall c a b, c = (a ?= b) -> Some c = Some (a ?= b)) as HS
    by (intros; subst; reflexivity).
  destruct (num_ok_cases x Hx) as [Fx | [-> | ->]];
  destruct (num_ok_cases y Hy) as [Fy | [-> | ->]];
  try (pose proof (SFval_bound x Fx)); try (pose proof (SFval_bound y Fy)).
  - rewrite (SFcompare_val x y Fx Fy).
    destruct Fx as [_ Fx], Fy as [_ Fy].
    destruct x; try discriminate; destruct y; try discriminate; reflexivity.
  - destruct Fx as [_ Fx].
    destruct x; try discriminate; cbn [SFcompare SFord] in *; apply HS; symmetry;
      apply Z.compare_lt_iff; lia.
  - destruct Fx as [_ Fx].
    destruct x; try discriminate; cbn [SFcompare SFord] in *; apply HS; symmetry;
      apply Z.compare_gt_iff; lia.
  - destruct Fy as [_ Fy].
    destruct y; try discriminate; cbn [SFcompare SFord] in *; apply HS; symmetry;
      apply Z.compare_gt_iff; lia.
  - cbn [SFcompare SFord]. rewrite Z.compare_refl. reflexivity.
  - cbn [SFcompare SFord]. apply HS. symmetry. apply Z.compare_gt_iff. lia.
  - destruct Fy as [_ Fy].
    destruct y; try discriminate; cbn [SFcompare SFord] in *; apply HS; symmetry;
      apply Z.compare_lt_iff; lia.
  - cbn [SFcompare SFord]. apply HS. symmetry. apply Z.compare_lt_iff. lia.
  - cbn [SFcompare SFord]. rewrite Z.compare_refl. reflexivity.
Qed.

Lemma SFltb_ord x y : num_ok x -> num_ok y -> SFltb x y = (SFord x <? SFord y).
Proof.
  intros Hx Hy. unfold SFltb, Z.ltb. rewrite (SFcompare_ord x y Hx Hy).
  destruct (SFord x ?= SFord y); reflexivity.
Qed.

Lemma SFleb_ord x y : num_ok x -> num_ok y -> SFleb x y = (SFord x <=? SFord y).
Proof.
  intros Hx Hy. unfold SFleb, Z.leb. rewrite (SFcompare_ord x y Hx Hy).
  destruct (SFord x ?= SFord y); reflexivity.
Qed.

(** A num_ok number between two finite ones is finite. *)
Lemma fin_between lb ub r :
  num_ok r -> finite_ok lb -> finite_ok ub -> SFleb lb r = true -> SFleb r ub = true -> finite_ok r.
Proof.
  intros Hr [_ Fl] [_ Fu] Hl Hu.
  destruct (num_ok_cases r Hr) as [F | [-> | ->]]; [exact F | | ].
  - destruct ub; discriminate.
  - destruct lb; discriminate.
Qed.

Lemma SFcompare_antisym x y :
  SFcompare y x = option_map CompOpp (SFcompare x y).
Proof.
  destruct x as [sx|sx| |sx mx ex], y as [sy|sy| |sy my ey];
    try reflexivity; cbn [SFcompare option_map].
  - destruct sy; reflexivity.
  - destruct sy; reflexivity.
  - destruct sx; reflexivity.
  - destruct sx, sy; reflexivity.
  - destruct sx; reflexivity.
  - destruct sx; reflexivity.
  - destruct sy; reflexivity.
  - assert (Pos.compare_cont Eq my mx = CompOpp (Pos.compare_cont Eq mx my)) as Hc
      by (symmetry; apply (Pos.compare_cont_antisym mx my Eq)).
    apply f_equal. rewrite (Z.compare_antisym ex ey), Hc.
    destruct sx, sy; try reflexivity;
      destruct (ex ?= ey); cbn [CompOpp]; try reflexivity;
      destruct (Pos.compare_cont Eq mx my); reflexivity.
Qed.

(** The sign of a difference decides the comparison, as the comparator of
    the sort assumes. *)
Lemma SFsub_neg_iff x y :
  num_ok x -> num_ok y ->
  SFltb (SFsub prec emax x y) (S754_zero false) = SFltb x y.
Proof.
  intros Hx Hy.
  destruct (num_ok_cases x Hx) as [Fx | [-> | ->]];
  destruct (num_ok_cases y Hy) as [Fy | [-> | ->]];
  try (destruct Fx as [_ Fx]; destruct x; try discriminate; reflexivity);
  try (destruct Fy as [_ Fy]; destruct y; try discriminate; reflexivity);
  try reflexivity.
  rewrite (SFltb_val x y Fx Fy).
  destruct (SFsub_spec x y Fx Fy) as (V & N & Hlb & Hub).
  assert (num_ok (SFsub prec emax x y)) as Hr by (split; assumption).
  set (r := SFsub prec emax x y) in *.
  destruct (Z.ltb_spec (SFval x) (SFval y)) as [Hlt | Hge].
  - specialize (Hub (S754_finite true 1 (-1074))).
    assert (SFleb r (S754_finite true 1 (-1074)) = true) as Hle.
    { apply Hub; [split; reflexivity | change (SFval (S754_finite true 1 (-1074))) with (-1); lia]. }
    destruct (num_ok_cases r Hr) as [[_ F] | [-> | ->]]; try discriminate; try reflexivity.
    destruct r as [s| | |[|] m e]; try discriminate; reflexivity.
  - specialize (Hlb (S754_zero false)).
    assert (SFleb (S754_zero false) r = true) as Hle.
    { apply Hlb; [split; reflexivity | change (SFval (S754_zero false)) with 0; lia]. }
    destruct (num_ok_cases r Hr) as [[_ F] | [-> | ->]]; try discriminate; try reflexivity.
    destruct r as [s| | |[|] m e]; try discriminate; reflexivity.
Qed.


Lemma shr_nonneg r e n : 0 <= shr_m r -> 0 <= shr_m (fst (shr r e n)).
Proof.
  intros H. destruct n as [ | p | p ]; cbn [shr fst]; try exact H.
  rewrite iter_pos_nat.
  destruct (shr_nat_spec (Pos.to_nat p) r H) as (rem & _ & _ & Hp & _). exact Hp.
Qed.

Lemma binary_round_aux_nonneg M e :
  nonneg (binary_round_aux prec emax false (Z.pos M) e loc_Exact).
Proof.
  unfold nonneg, binary_round_aux, shr_fexp.
  cbn [shr_record_of_loc].
  pose proof (shr_nonneg (Build_shr_record (Z.pos M) false false) e
                (fexp prec emax (Zdigits2 (Z.pos M) + e) - e)) as H1.
  destruct (shr _ e _) as [r1 e1]. cbn [fst shr_m] in H1. specialize (H1 ltac:(lia)).
  pose proof (round_nearest_even_spec (shr_m r1) r1) as [Hq _].
  set (q' := round_nearest_even (shr_m r1) (loc_of_shr_record r1)) in *.
  pose proof (shr_nonneg (Build_shr_record q' false false) e1
                (fexp prec emax (Zdigits2 q' + e1) - e1)) as H2.
  destruct (shr _ e1 _) as [r2 e2]. cbn [fst shr_m] in H2. specialize (H2 ltac:(lia)).
  destruct (shr_m r2); [reflexivity | | lia].
  destruct (e2 <=? emax - prec); reflexivity.
Qed.

Lemma SFmul_nonneg x my ey :
  nonneg x -> nonneg (SFmul prec emax x (S754_finite false my ey)).
Proof.
  unfold nonneg. intros H.
  destruct x as [s|[|]| |[|] m e]; try discriminate; cbn [SFmul xorb].
  - destruct s; reflexivity.
  - reflexivity.
  - apply binary_round_aux_nonneg.
Qed.

(** * Unlock determination *)

Lemma slice0_nonneg {A : Type} (arr : list A) (e : Z) :
  0 <= e -> slice0 arr e = firstn (Z.to_nat e) arr.
Proof.
  intros He. unfold slice0.
  destruct (Z.ltb_spec e 0) as [Hneg | _]; [lia|].
  destruct (Z.le_gt_cases e (Z.of_nat (length arr))) as [Hle | Hgt].
  - rewrite Z.min_l by lia. reflexivity.
  - rewrite Z.min_r by lia. rewrite Nat2Z.id.
    rewrite !firstn_all2 by lia. reflexivity.
Qed.

Lemma Set_has_spec (unlockedTables x : Z) :
  Set_has (getUnlockedTableSet unlockedTables) x = true
  <-> In x (slice0 TABLE_ORDER unlockedTables).
Proof.
  unfold Set_has, getUnlockedTableSet.
  rewrite bool_decide_eq_true, elem_of_list_to_set, list_elem_of_In.
  reflexivity.
Qed.

Lemma isProblemUnlocked_In (x y unlockedTables : Z) :
  isProblemUnlocked x y unlockedTables = true
  <-> In x (slice0 TABLE_ORDER unlockedTables) /\ In y (slice0 TABLE_ORDER unlockedTables).
Proof.
  unfold isProblemUnlocked. cbn zeta.
  rewrite andb_true_iff, !Set_has_spec. reflexivity.
Qed.

Lemma In_firstn_mono {A : Type} (x : A) (l : list A) (k k' : nat) :
  (k <= k')%nat -> In x (firstn k l) -> In x (firstn k' l).
Proof.
  revert k k'. induction l as [ | y l IH ]; intros k k' Hk.
  - rewrite !firstn_nil. auto.
  - destruct k as [ | k ]; [intros []|].
    destruct k' as [ | k' ]; [lia|].
    cbn [firstn In]. intros [-> | Hin]; [left; reflexivity|].
    right. apply (IH k k'); [lia | exact Hin].
Qed.

(** C6: for a count that is not negative, a problem is unlocked exactly
    when both factors are among the first [unlocked_count] entries of the
    table order; with two tables open, (1,10) and (10,1) are unlocked and
    (1,2) is not. *)
Theorem isProblemUnlocked_first_tables (x y unlocked_count : Z) :
  0 <= unlocked_count ->
  (isProblemUnlocked x y unlocked_count = true
   <-> In x (first_tables unlocked_count) /\ In y (first_tables unlocked_count))
  /\ TABLE_ORDER = [1; 10; 5; 11; 2; 3; 9; 4; 6; 7; 8; 12]
  /\ isProblemUnlocked 1 10 2 = true
  /\ isProblemUnlocked 10 1 2 = true
  /\ isProblemUnlocked 1 2 2 = false.
Proof.
  intros Hn. split.
  - rewrite isProblemUnlocked_In, slice0_nonneg by exact Hn. reflexivity.
  - repeat split; vm_compute; reflexivity.
Qed.

Lemma isProblemUnlocked_first_tables_witness :
  0 <= 2 /\ (isProblemUnlocked 10 1 2 = true <-> In 10 (first_tables 2) /\ In 1 (first_tables 2)).
Proof.
  split; [lia|].
  apply (isProblemUnlocked_first_tables 10 1 2). lia.
Defined.

(** C9: opening more tables never locks a problem: for counts
    [0 <= k <= k'], a problem unlocked at [k] is unlocked at [k']. *)
Theorem isProblemUnlocked_monotone (x y k k' : Z) :
  0 <= k -> k <= k' ->
  isProblemUnlocked x y k = true -> isProblemUnlocked x y k' = true.
Proof.
  intros Hk Hkk'. rewrite !isProblemUnlocked_In, !slice0_nonneg by lia.
  intros [Hx Hy]. split; eapply In_firstn_mono; try eassumption; lia.
Qed.

Lemma isProblemUnlocked_monotone_witness :
  0 <= 2 /\ 2 <= 5 /\ isProblemUnlocked 10 1 2 = true /\ isProblemUnlocked 10 1 5 = true.
Proof.
  assert (isProblemUnlocked 10 1 2 = true) as H by (vm_compute; reflexivity).
  split; [lia|]. split; [lia|]. split; [exact H|].
  apply (isProblemUnlocked_monotone 10 1 2 5); [lia | lia | exact H].
Defined.

(** Outside the domain of counts: a negative argument makes [slice] count
    from the end of the table order, so [-1] opens eleven tables. *)
Lemma isProblemUnlocked_negative_argument :
  isProblemUnlocked 8 8 (-1) = true /\ isProblemUnlocked 8 8 0 = false.
Proof. split; vm_compute; reflexivity. Qed.

(** * Mastery *)

(** C7: a state is mastered exactly when it has at least three consecutive
    correct answers and an ease factor of at least 2.0, and the state a
    wrong answer produces is never mastered. *)
Theorem isMastered_spec (st : Stats) :
  (isMastered st = true
   <-> 3 <= consecutiveCorrect st /\ num_ge (easeFactor st) (decimal 20 10) = true)
  /\ (forall responseSecs now,
        isMastered (calculateNewStats st false responseSecs now) = false).
Proof.
  split.
  - unfold isMastered. rewrite andb_true_iff, Z.geb_le. reflexivity.
  - intros responseSecs now. reflexivity.
Qed.

(** * The literals of the source

    The binary64 values of the decimal literals in [spaced-rep.ts]:
    0.15 = 0x1.3333333333333p-3, 0.1 = 0x1.999999999999ap-4,
    0.05 = 0x1.999999999999ap-5, 0.2 = 0x1.999999999999ap-3,
    1.3 = 0x1.4cccccccccccdp+0, and 3.0 and 2.0, which are exact. *)
Lemma decimal_literals :
  decimal 15 100 = S754_finite false 5404319552844595 (-55)
  /\ decimal 1 10 = S754_finite false 7205759403792794 (-56)
  /\ decimal 5 100 = S754_finite false 7205759403792794 (-57)
  /\ decimal 2 10 = S754_finite false 7205759403792794 (-55)
  /\ decimal 13 10 = S754_finite false 5854679515581645 (-52)
  /\ decimal 30 10 = ofZ 3
  /\ decimal 20 10 = ofZ 2.
Proof. repeat split; vm_compute; reflexivity. Qed.

(** * The update rule *)

Lemma ofZ_0_eq : ofZ 0 = S754_zero false.
Proof. reflexivity. Qed.

Lemma ofZ_1_eq : ofZ 1 = S754_finite false 4503599627370496 (-52).
Proof. vm_compute. reflexivity. Qed.

Lemma ofZ_3_eq : ofZ 3 = S754_finite false 6755399441055744 (-51).
Proof. vm_compute. reflexivity. Qed.

Lemma ofZ_8_eq : ofZ 8 = S754_finite false 4503599627370496 (-49).
Proof. vm_compute. reflexivity. Qed.

Lemma strict_eq_zero_lt_one (i : number) :
  num_strict_eq i (ofZ 0) = true -> num_lt i (ofZ 1) = true.
Proof.
  rewrite ofZ_0_eq, ofZ_1_eq.
  unfold num_strict_eq, num_lt, SFeqb, SFltb.
  destruct i as [s|[|]| |[|] m e]; cbn [SFcompare]; intros H;
    try discriminate; reflexivity.
Qed.

Lemma SFcompare_None_l (x : number) (s : bool) (m : positive) (e : Z) :
  SFcompare x (S754_finite s m e) = None -> x = S754_nan.
Proof.
  destruct x as [sx|sx| |sx mx ex]; cbn [SFcompare]; try discriminate; reflexivity.
Qed.

Lemma easeBonus_latency_bonus (r : number) : easeBonus r = latency_bonus r.
Proof.
  unfold easeBonus, latency_bonus, num_lt, num_le.
  destruct (SFltb r (ofZ 3)) eqn:Hlt; [reflexivity|].
  destruct (SFleb r (ofZ 8)) eqn:Hle; [|rewrite andb_false_r; reflexivity].
  assert (SFleb (ofZ 3) r = true) as ->; [|reflexivity].
  unfold SFleb, SFltb in *. rewrite (SFcompare_antisym r (ofZ 3)).
  destruct (SFcompare r (ofZ 3)) as [[ | | ]|] eqn:E; try reflexivity; try discriminate.
  rewrite ofZ_3_eq in E. apply SFcompare_None_l in E. subst r. discriminate.
Qed.

(** C3: [calculateNewStats] is the update rule of section 4.4, and the two
    worked examples of section 8 hold: from ease 2.5 and interval 5 a
    correct answer in 10 s gives interval 12.5 and ease 2.55, and from
    ease 1.4 a wrong answer gives ease 1.3, interval 0 and no consecutive
    correct answer. *)
Theorem calculateNewStats_apply_answer :
  (forall st correct responseSecs now,
     calculateNewStats st correct responseSecs now
     = apply_answer st correct responseSecs now)
  /\ (forall nr tc tw cc now,
        let s := calculateNewStats (mkStats (decimal 25 10) (ofZ 5) nr tc tw cc)
                                   true (ofZ 10) now in
        intervalDays s = decimal 125 10 /\ easeFactor s = decimal 255 100)
  /\ (forall i nr tc tw cc secs now,
        let s := calculateNewStats (mkStats (decimal 14 10) i nr tc tw cc)
                                   false secs now in
        easeFactor s = decimal 13 10 /\ intervalDays s = ofZ 0
        /\ consecutiveCorrect s = 0).
Proof.
  split; [|split].
  - intros st correct responseSecs now.
    unfold calculateNewStats, apply_answer.
    destruct correct; cbn iota beta zeta; [|reflexivity].
    rewrite easeBonus_latency_bonus.
    destruct (num_strict_eq (intervalDays st) (ofZ 0)) eqn:Hz.
    + rewrite (strict_eq_zero_lt_one _ Hz). reflexivity.
    + reflexivity.
  - intros nr tc tw cc now. cbn zeta. unfold calculateNewStats.
    cbn [easeFactor intervalDays]. split; vm_compute; reflexivity.
  - intros i nr tc tw cc secs now. cbn zeta. unfold calculateNewStats.
    cbn [easeFactor intervalDays consecutiveCorrect].
    split; [vm_compute; reflexivity|]. split; reflexivity.
Qed.

Lemma negative_lt_three (r : number) :
  num_lt r (ofZ 0) = true -> num_lt r (ofZ 3) = true.
Proof.
  rewrite ofZ_0_eq, ofZ_3_eq.
  unfold num_lt, SFltb.
  destruct r as [s|[|]| |[|] m e]; cbn [SFcompare]; intros H;
    try discriminate; reflexivity.
Qed.

(** C10 (amended): [calculateNewStats] returns a state for every input;
    on a correct answer the new ease factor is the old one plus the
    latency bonus, capped at 3.0, and the bonus comes from the same two
    comparisons whatever the response time is: +0.15 for every negative
    one (minus infinity included), +0.05 for NaN and for plus infinity. *)
Theorem easeBonus_outside_domain (st : Stats) (responseSecs now : number) :
  (exists s, calculateNewStats st true responseSecs now = s
             /\ easeFactor s
                = Math_min (decimal 30 10)
                           (num_add (easeFactor st) (easeBonus responseSecs)))
  /\ (num_lt responseSecs (ofZ 0) = true -> easeBonus responseSecs = decimal 15 100)
  /\ (responseSecs = NaN \/ responseSecs = Infinity ->
      easeBonus responseSecs = decimal 5 100).
Proof.
  split; [|split].
  - eexists. split; reflexivity.
  - intros Hneg. unfold easeBonus. rewrite (negative_lt_three _ Hneg). reflexivity.
  - intros [-> | ->]; reflexivity.
Qed.

Lemma easeBonus_outside_domain_witness :
  easeBonus (ofZ (-1)) = decimal 15 100 /\ easeBonus NaN = decimal 5 100.
Proof.
  split.
  - apply (easeBonus_outside_domain (initial_state (ofZ 0)) (ofZ (-1)) (ofZ 0)).
    vm_compute. reflexivity.
  - apply (easeBonus_outside_domain (initial_state (ofZ 0)) NaN (ofZ 0)).
    left. reflexivity.
Defined.

(** C10 as stated fails at minus infinity: it is infinite, yet as a
    negative number it takes the fast-answer bonus, so a correct answer
    moves ease 2.5 to 2.65 and not to 2.55. *)
Lemma easeBonus_minus_infinity :
  isFinite NegInfinity = false
  /\ num_lt NegInfinity (ofZ 0) = true
  /\ easeBonus NegInfinity = decimal 15 100
  /\ easeBonus NegInfinity <> decimal 5 100
  /\ easeFactor (calculateNewStats (initial_state (ofZ 0)) true NegInfinity (ofZ 0))
     = decimal 265 100.
Proof.
  repeat split; try (vm_compute; reflexivity).
  vm_compute. discriminate.
Qed.

(** * The unlock policy *)

Lemma Qle_three_quarters (L m : Z) :
  0 < L ->
  (inject_Z (L * 3) / inject_Z 4 <= inject_Z m)%Q
  <-> (3 # 4 <= inject_Z m / inject_Z L)%Q.
Proof.
  intros HL. destruct L as [ | p | p ]; try lia.
  unfold Qle, Qdiv, Qmult, Qinv, inject_Z. cbn [Qnum Qden].
  rewrite !Pos2Z.inj_mul. lia.
Qed.

(** C5: the next table is never unlocked when all twelve are open or when
    no row is unlocked; otherwise it is unlocked exactly when at least
    three quarters of the unlocked rows are mastered. *)
Theorem shouldUnlockNextTable_spec (progressList : list ProblemProgress)
    (unlocked_count : Z) :
  let U := unlocked_rows progressList unlocked_count in
  (12 <= unlocked_count -> shouldUnlockNextTable progressList unlocked_count = false)
  /\ (U = [] -> shouldUnlockNextTable progressList unlocked_count = false)
  /\ (unlocked_count < 12 -> U <> [] ->
      (shouldUnlockNextTable progressList unlocked_count = true
       <-> (3 # 4 <= masteredFraction U)%Q)).
Proof.
  cbn zeta. unfold shouldUnlockNextTable. fold (unlocked_rows progressList unlocked_count).
  change (Z.of_nat (length TABLE_ORDER)) with 12.
  set (U := unlocked_rows progressList unlocked_count).
  split; [|split].
  - intros H. destruct (Z.geb_spec unlocked_count 12); [reflexivity | lia].
  - intros ->. destruct (unlocked_count >=? 12); reflexivity.
  - intros Hn HU. destruct (Z.geb_spec unlocked_count 12); [lia|].
    destruct U as [ | u U' ] eqn:EU; [congruence|]. rewrite <- EU.
    assert (Nat.eqb (length U) 0 = false) as ->.
    { rewrite EU. reflexivity. }
    rewrite Qle_bool_iff. unfold masteredFraction.
    apply Qle_three_quarters. rewrite EU. cbn [length]. lia.
Qed.

(** * Invariants of reachable states *)

Lemma SFltb_SFleb (x y : number) : SFltb x y = true -> SFleb x y = true.
Proof.
  unfold SFltb, SFleb. destruct (SFcompare x y) as [[ | | ]|]; auto.
Qed.

Lemma SFltb_false_SFleb (x y : number) :
  num_ok x -> num_ok y -> SFltb x y = false -> SFleb y x = true.
Proof.
  intros Hx Hy. rewrite (SFltb_ord x y Hx Hy), (SFleb_ord y x Hy Hx).
  intros H. apply Z.ltb_ge in H. apply Z.leb_le. exact H.
Qed.

Lemma Math_min_finite (x y : number) :
  (exists s m e, x = S754_finite s m e) -> isNaN y = false ->
  Math_min x y = if num_lt y x then y else x.
Proof.
  intros (s & m & e & ->) Hy. unfold Math_min. rewrite Hy.
  cbn [isNaN orb]. unfold min_step at 2, Infinity, num_lt, SFltb.
  cbn [SFcompare].
  unfold min_step. destruct y as [[|]| | |]; reflexivity.
Qed.

Lemma Math_max_finite (x y : number) :
  (exists s m e, x = S754_finite s m e) -> isNaN y = false ->
  Math_max x y = if num_lt x y then y else x.
Proof.
  intros (s & m & e & ->) Hy. unfold Math_max. rewrite Hy.
  cbn [isNaN orb]. unfold max_step at 2, NegInfinity, num_lt, SFltb.
  cbn [SFcompare].
  unfold max_step. destruct y as [[|]| | |]; reflexivity.
Qed.

Lemma decimal_30_finite : exists s m e, decimal 30 10 = S754_finite s m e.
Proof. eexists _, _, _. vm_compute. reflexivity. Qed.

Lemma decimal_13_finite : exists s m e, decimal 13 10 = S754_finite s m e.
Proof. eexists _, _, _. vm_compute. reflexivity. Qed.

Lemma finite_ok_decimal_13 : finite_ok (decimal 13 10).
Proof. split; vm_compute; reflexivity. Qed.

Lemma finite_ok_decimal_30 : finite_ok (decimal 30 10).
Proof. split; vm_compute; reflexivity. Qed.

Lemma finite_ok_decimal_2 : finite_ok (decimal 2 10).
Proof. split; vm_compute; reflexivity. Qed.

Lemma finite_ok_ofZ_4 : finite_ok (ofZ 4).
Proof. split; vm_compute; reflexivity. Qed.

Lemma finite_ok_ofZ_1 : finite_ok (ofZ 1).
Proof. split; vm_compute; reflexivity. Qed.

Lemma ease_ok_decimal_30 : ease_ok (decimal 30 10).
Proof.
  split; [exact finite_ok_decimal_30|]. split; vm_compute; reflexivity.
Qed.

Lemma ease_ok_decimal_13 : ease_ok (decimal 13 10).
Proof.
  split; [exact finite_ok_decimal_13|]. split; vm_compute; reflexivity.
Qed.

Lemma ease_ok_decimal_25 : ease_ok (decimal 25 10).
Proof.
  split; [split; vm_compute; reflexivity|]. split; vm_compute; reflexivity.
Qed.

(** The three bonuses are finite, positive and at most one. *)
Lemma easeBonus_facts (r : number) :
  finite_ok (easeBonus r)
  /\ 0 <= SFval (easeBonus r)
  /\ SFval (decimal 30 10) + SFval (easeBonus r) <= SFval (ofZ 4).
Proof.
  unfold easeBonus.
  destruct (num_lt r (ofZ 3)); [|destruct (num_le r (ofZ 8))];
    (split; [split; vm_compute; reflexivity|]);
    (split; apply Z.leb_le; vm_compute; reflexivity).
Qed.

Lemma ease_ok_val (e : number) :
  ease_ok e ->
  finite_ok e /\ SFval (decimal 13 10) <= SFval e <= SFval (decimal 30 10).
Proof.
  intros (Fe & Hlo & Hhi). unfold num_le in *.
  rewrite SFleb_val in Hlo by (try exact Fe; exact finite_ok_decimal_13).
  rewrite SFleb_val in Hhi by (try exact Fe; exact finite_ok_decimal_30).
  apply Z.leb_le in Hlo, Hhi. auto.
Qed.

Lemma ease_ok_correct (e r : number) :
  ease_ok e ->
  ease_ok (Math_min (decimal 30 10) (num_add e (easeBonus r))).
Proof.
  intros He. apply ease_ok_val in He as (Fe & Hlo & Hhi).
  destruct (easeBonus_facts r) as (Fb & Hb0 & Hb4).
  destruct (SFadd_spec e (easeBonus r) Fe Fb) as (V & N & Hlb & Hub).
  fold (num_add e (easeBonus r)) in *.
  set (r' := num_add e (easeBonus r)) in *.
  assert (SFleb (decimal 13 10) r' = true) as L13
    by (apply Hlb; [exact finite_ok_decimal_13 | lia]).
  assert (SFleb r' (ofZ 4) = true) as U4
    by (apply Hub; [exact finite_ok_ofZ_4 | lia]).
  assert (finite_ok r') as Fr.
  { apply (fin_between (decimal 13 10) (ofZ 4)); auto using finite_ok_decimal_13, finite_ok_ofZ_4.
    split; assumption. }
  rewrite (Math_min_finite _ _ decimal_30_finite N).
  destruct (num_lt r' (decimal 30 10)) eqn:Hlt.
  - split; [exact Fr|]. split; [exact L13|]. apply SFltb_SFleb. exact Hlt.
  - exact ease_ok_decimal_30.
Qed.

Lemma decimal_2_facts :
  SFval (ofZ 1) <= SFval (decimal 13 10) - SFval (decimal 2 10)
  /\ 0 <= SFval (decimal 2 10).
Proof. split; apply Z.leb_le; vm_compute; reflexivity. Qed.

Lemma ease_ok_wrong (e : number) :
  ease_ok e ->
  ease_ok (Math_max (decimal 13 10) (num_sub e (decimal 2 10))).
Proof.
  intros He. apply ease_ok_val in He as (Fe & Hlo & Hhi).
  destruct decimal_2_facts as [H1 H2].
  destruct (SFsub_spec e (decimal 2 10) Fe finite_ok_decimal_2) as (V & N & Hlb & Hub).
  fold (num_sub e (decimal 2 10)) in *.
  set (r' := num_sub e (decimal 2 10)) in *.
  assert (SFleb (ofZ 1) r' = true) as L1
    by (apply Hlb; [exact finite_ok_ofZ_1 | lia]).
  assert (SFleb r' (decimal 30 10) = true) as U3
    by (apply Hub; [exact finite_ok_decimal_30 | lia]).
  assert (finite_ok r') as Fr.
  { apply (fin_between (ofZ 1) (decimal 30 10)); auto using finite_ok_decimal_30, finite_ok_ofZ_1.
    split; assumption. }
  rewrite (Math_max_finite _ _ decimal_13_finite N).
  destruct (num_lt (decimal 13 10) r') eqn:Hlt.
  - split; [exact Fr|]. split; [apply SFltb_SFleb; exact Hlt | exact U3].
  - exact ease_ok_decimal_13.
Qed.

Lemma ease_ok_positive (e : number) :
  ease_ok e -> exists m x, e = S754_finite false m x.
Proof.
  intros ([_ F] & Hlo & _).
  destruct e as [s| | |[|] m x]; try discriminate.
  eauto.
Qed.

Lemma nonneg_interval_correct (i e : number) :
  nonneg i -> ease_ok e ->
  nonneg (if num_strict_eq i (ofZ 0) then ofZ 1
          else if num_lt i (ofZ 1) then ofZ 1
          else num_mul i e).
Proof.
  intros Hi He.
  assert (nonneg (ofZ 1)) as H1 by (vm_compute; reflexivity).
  destruct (num_strict_eq i (ofZ 0)); [exact H1|].
  destruct (num_lt i (ofZ 1)); [exact H1|].
  destruct (ease_ok_positive e He) as (m & x & ->).
  apply SFmul_nonneg. exact Hi.
Qed.

Lemma answer_step_inv (st : Stats) (x : Answer) :
  ease_ok (easeFactor st) -> nonneg (intervalDays st) ->
  ease_ok (easeFactor (answer_step st x))
  /\ nonneg (intervalDays (answer_step st x)).
Proof.
  intros He Hi. unfold answer_step, calculateNewStats.
  destruct (ans_correct x); cbn iota beta zeta; cbn [easeFactor intervalDays].
  - split; [apply ease_ok_correct; exact He | apply nonneg_interval_correct; assumption].
  - split; [apply ease_ok_wrong; exact He | reflexivity].
Qed.

Lemma after_answers_inv (answers : list Answer) (st : Stats) :
  ease_ok (easeFactor st) -> nonneg (intervalDays st) ->
  ease_ok (easeFactor (after_answers st answers))
  /\ nonneg (intervalDays (after_answers st answers)).
Proof.
  revert st. induction answers as [ | x answers IH ]; intros st He Hi.
  - split; assumption.
  - cbn [after_answers fold_left].
    destruct (answer_step_inv st x He Hi) as [He' Hi'].
    apply (IH (answer_step st x) He' Hi').
Qed.

(** C4: every state reached from the initial one by a sequence of answers
    has its ease factor within [1.3, 3.0] and an interval that is not
    negative, and has no consecutive correct answer when the last answer
    was wrong. *)
Theorem reachable_invariant (now0 : Date) (answers : list Answer) :
  let s := after_answers (initial_state now0) answers in
  num_le (decimal 13 10) (easeFactor s) = true
  /\ num_le (easeFactor s) (decimal 30 10) = true
  /\ num_le (ofZ 0) (intervalDays s) = true
  /\ (forall earlier x,
        answers = earlier ++ [x] -> ans_correct x = false ->
        consecutiveCorrect s = 0).
Proof.
  cbn zeta.
  destruct (after_answers_inv answers (initial_state now0)) as [(_ & Hlo & Hhi) Hi].
  { exact ease_ok_decimal_25. }
  { reflexivity. }
  split; [exact Hlo|]. split; [exact Hhi|]. split; [exact Hi|].
  intros earlier x -> Hx. unfold after_answers.
  rewrite fold_left_app. cbn [fold_left]. unfold answer_step at 1.
  rewrite Hx. reflexivity.
Qed.

Lemma reachable_invariant_witness :
  consecutiveCorrect
    (after_answers (initial_state (ofZ 0))
       [mkAnswer true (ofZ 2) (ofZ 0); mkAnswer false (ofZ 2) (ofZ 0)]) = 0.
Proof.
  apply (reachable_invariant (ofZ 0)
           [mkAnswer true (ofZ 2) (ofZ 0); mkAnswer false (ofZ 2) (ofZ 0)])
    with (earlier := [mkAnswer true (ofZ 2) (ofZ 0)]) (x := mkAnswer false (ofZ 2) (ofZ 0));
    reflexivity.
Defined.

(** * Selection *)

Section Sorting.
Context {A : Type} (comparefn : A -> A -> number).

Lemma insert_sorted_hd (x : A) (l : list A) :
  hd_error (insert_sorted comparefn x l)
  = match hd_error l with
    | None => Some x
    | Some y => if num_lt (comparefn y x) (ofZ 0) then Some y else Some x
    end.
Proof.
  destruct l as [ | y l ]; cbn [insert_sorted hd_error]; [reflexivity|].
  destruct (num_lt (comparefn y x) (ofZ 0)); reflexivity.
Qed.

Lemma Array_sort_hd_cons (x : A) (l : list A) :
  hd_error (Array_sort comparefn (x :: l))
  = match hd_error (Array_sort comparefn l) with
    | None => Some x
    | Some y => if num_lt (comparefn y x) (ofZ 0) then Some y else Some x
    end.
Proof. unfold Array_sort. cbn [fold_right]. apply insert_sorted_hd. Qed.

Lemma Array_sort_hd_In (l : list A) (s : A) :
  hd_error (Array_sort comparefn l) = Some s -> In s l.
Proof.
  revert s. induction l as [ | x l IH ]; intros s; [discriminate|].
  rewrite Array_sort_hd_cons.
  destruct (hd_error (Array_sort comparefn l)) as [y|].
  - destruct (num_lt (comparefn y x) (ofZ 0)); intros [= <-].
    + right. apply IH. reflexivity.
    + left. reflexivity.
  - intros [= <-]. left. reflexivity.
Qed.

Lemma Array_sort_hd_None (l : list A) :
  hd_error (Array_sort comparefn l) = None -> l = [].
Proof.
  destruct l as [ | x l ]; [reflexivity|].
  rewrite Array_sort_hd_cons.
  destruct (hd_error (Array_sort comparefn l)) as [y|]; [|discriminate].
  destruct (num_lt (comparefn y x) (ofZ 0)); discriminate.
Qed.

End Sorting.

Lemma by_ease_lt (x y : ProblemProgress) :
  num_ok (easeFactor x) -> num_ok (easeFactor y) ->
  num_lt (by_ease x y) (ofZ 0) = num_lt (easeFactor x) (easeFactor y).
Proof. intros Hx Hy. apply SFsub_neg_iff; assumption. Qed.



Lemma selectNextProblem_hd (progressList : list ProblemProgress)
    (unlockedTables : Z) (lastProblem : option Problem) (now : Date) :
  selectNextProblem progressList unlockedTables lastProblem now
  = option_map problem_of
      (hd_error (Array_sort by_ease
                   (chosen_candidates progressList unlockedTables lastProblem now))).
Proof.
  unfold selectNextProblem, chosen_candidates.
  fold by_ease.
  destruct (due_candidates progressList unlockedTables lastProblem now) as [ | d ds ].
  - cbn [length Nat.eqb].
    destruct (practice_candidates progressList unlockedTables lastProblem) as [ | p ps ];
      [reflexivity|].
    cbn [length Nat.eqb].
    destruct (Array_sort by_ease (p :: ps)); reflexivity.
  - cbn [length Nat.eqb].
    destruct (Array_sort by_ease (d :: ds)); reflexivity.
Qed.


(** [Array_sort] is the stable sort by ease factor: its result is a
    permutation of the input, in ascending order, in which rows of equal
    ease factor keep their relative order. Every stable sort returns this
    list. *)
Lemma insert_sorted_Permutation {A : Type} (comparefn : A -> A -> number)
    (x : A) (l : list A) :
  Permutation (insert_sorted comparefn x l) (x :: l).
Proof.
  induction l as [ | y l IH ]; cbn [insert_sorted]; [reflexivity|].
  destruct (num_lt (comparefn y x) (ofZ 0)); [|reflexivity].
  rewrite IH. apply perm_swap.
Qed.

Lemma Array_sort_Permutation {A : Type} (comparefn : A -> A -> number) (l : list A) :
  Permutation (Array_sort comparefn l) l.
Proof.
  induction l as [ | x l IH ]; [reflexivity|].
  unfold Array_sort in *. cbn [fold_right].
  rewrite insert_sorted_Permutation. apply perm_skip. exact IH.
Qed.

Lemma insert_sorted_Forall (P : ProblemProgress -> Prop)
    (x : ProblemProgress) (l : list ProblemProgress) :
  P x -> Forall P l -> Forall P (insert_sorted by_ease x l).
Proof.
  intros Hx Hl. rewrite insert_sorted_Permutation. constructor; assumption.
Qed.

Lemma insert_sorted_sorted (x : ProblemProgress) (l : list ProblemProgress) :
  num_ok (easeFactor x) ->
  Forall (fun p : ProblemProgress => num_ok (easeFactor p)) l ->
  StronglySorted ease_le l ->
  StronglySorted ease_le
                 (insert_sorted by_ease x l).
Proof.
  intros Hx Hok Hs. induction Hs as [ | y l Hs IH Hy ]; cbn [insert_sorted].
  - constructor; constructor.
  - apply Forall_cons_iff in Hok as [Hyok Hlok].
    rewrite (by_ease_lt y x Hyok Hx).
    destruct (num_lt (easeFactor y) (easeFactor x)) eqn:Hlt.
    + constructor; [apply IH; exact Hlok|].
      apply insert_sorted_Forall; [apply SFltb_SFleb; exact Hlt | exact Hy].
    + pose proof (SFltb_false_SFleb _ _ Hyok Hx Hlt) as Hxy.
      constructor; [constructor; assumption|].
      constructor; [exact Hxy|].
      rewrite List.Forall_forall in *. intros c Hc.
      specialize (Hy c Hc). specialize (Hlok c Hc). unfold ease_le, num_le in *.
      rewrite (SFleb_ord _ _ Hx Hyok) in Hxy. rewrite (SFleb_ord _ _ Hyok Hlok) in Hy.
      rewrite (SFleb_ord _ _ Hx Hlok). apply Z.leb_le.
      apply Z.leb_le in Hxy, Hy. lia.
Qed.

Lemma Array_sort_sorted (l : list ProblemProgress) :
  Forall (fun p : ProblemProgress => num_ok (easeFactor p)) l ->
  StronglySorted ease_le
                 (Array_sort by_ease l).
Proof.
  induction l as [ | x l IH ]; intros Hok; [constructor|].
  apply Forall_cons_iff in Hok as [Hx Hl].
  unfold Array_sort in *. cbn [fold_right].
  apply insert_sorted_sorted; [exact Hx | | apply IH; exact Hl].
  pose proof (Array_sort_Permutation by_ease l) as Hp. unfold Array_sort in Hp.
  rewrite Hp. exact Hl.
Qed.

Lemma insert_sorted_stable (k : number)
    (x : ProblemProgress) (l : list ProblemProgress) :
  num_ok k -> num_ok (easeFactor x) ->
  Forall (fun p : ProblemProgress => num_ok (easeFactor p)) l ->
  List.filter (has_ease k)
              (insert_sorted by_ease x l)
  = List.filter (has_ease k) (x :: l).
Proof.
  intros Hk Hx Hok. induction Hok as [ | y l Hy Hl IH ]; cbn [insert_sorted]; [reflexivity|].
  rewrite (by_ease_lt y x Hy Hx).
  destruct (num_lt (easeFactor y) (easeFactor x)) eqn:Hlt; [|reflexivity].
  cbn [List.filter] in *. rewrite IH.
  destruct (has_ease k y) eqn:Ey; [|reflexivity].
  destruct (has_ease k x) eqn:Ex; [|reflexivity].
  exfalso. unfold has_ease, num_strict_eq, num_lt, SFeqb, SFltb in *.
  rewrite (SFcompare_ord _ _ Hy Hx) in Hlt.
  rewrite (SFcompare_ord _ _ Hy Hk) in Ey.
  rewrite (SFcompare_ord _ _ Hx Hk) in Ex.
  destruct (SFord (easeFactor y) ?= SFord k) eqn:Cy; try discriminate.
  destruct (SFord (easeFactor x) ?= SFord k) eqn:Cx; try discriminate.
  destruct (SFord (easeFactor y) ?= SFord (easeFactor x)) eqn:Cyx; try discriminate.
  apply Z.compare_eq in Cy, Cx. rewrite Z.compare_lt_iff in Cyx. lia.
Qed.

Lemma Array_sort_stable (k : number) (l : list ProblemProgress) :
  num_ok k ->
  Forall (fun p : ProblemProgress => num_ok (easeFactor p)) l ->
  List.filter (has_ease k)
              (Array_sort by_ease l)
  = List.filter (has_ease k) l.
Proof.
  intros Hk Hok. induction Hok as [ | x l Hx Hl IH ]; [reflexivity|].
  unfold Array_sort in *. cbn [fold_right].
  rewrite insert_sorted_stable; try assumption.
  - cbn [List.filter]. rewrite IH. reflexivity.
  - pose proof (Array_sort_Permutation by_ease l) as Hp. unfold Array_sort in Hp.
    rewrite Hp. exact Hl.
Qed.


Lemma filter_nil_iff {A : Type} (f : A -> bool) (l : list A) :
  List.filter f l = [] <-> forall x, In x l -> f x = false.
Proof.
  induction l as [ | y l IH ]; cbn [List.filter].
  - split; [intros _ x [] | reflexivity].
  - destruct (f y) eqn:E; split.
    + discriminate.
    + intros H. specialize (H y (or_introl eq_refl)). congruence.
    + intros H x [<- | Hx]; [exact E | apply IH; assumption].
    + intros H. apply IH. intros x Hx. apply H. right. exact Hx.
Qed.

(** The selection in terms of the two filtered arrays of the function. *)
Lemma selectNextProblem_from_candidates (progressList : list ProblemProgress)
    (unlockedTables : Z) (lastProblem : option Problem) (now : Date) :
  let C1 := due_candidates progressList unlockedTables lastProblem now in
  let C2 := practice_candidates progressList unlockedTables lastProblem in
  (C1 <> [] ->
   exists p, In p C1
     /\ selectNextProblem progressList unlockedTables lastProblem now
        = Some (problem_of p))
  /\ (C1 = [] -> C2 <> [] ->
      exists p, In p C2
        /\ selectNextProblem progressList unlockedTables lastProblem now
           = Some (problem_of p))
  /\ (C1 = [] -> C2 = [] ->
      selectNextProblem progressList unlockedTables lastProblem now = None)
  /\ (forall lp,
        lastProblem = Some lp ->
        (forall p, In p progressList ->
                   isProblemUnlocked (problemA p) (problemB p) unlockedTables = true ->
                   problem_of p = lp) ->
        selectNextProblem progressList unlockedTables lastProblem now = None).
Proof.
  cbn zeta.
  assert (forall l, l <> [] ->
            exists p, In p l /\ option_map problem_of (hd_error (Array_sort by_ease l))
                                = Some (problem_of p)) as Hpick.
  { intros l Hl. destruct (hd_error (Array_sort by_ease l)) as [p|] eqn:E.
    - exists p. split; [apply (Array_sort_hd_In _ _ _ E) | reflexivity].
    - apply Array_sort_hd_None in E. contradiction. }
  assert (due_candidates progressList unlockedTables lastProblem now = [] ->
          practice_candidates progressList unlockedTables lastProblem = [] ->
          selectNextProblem progressList unlockedTables lastProblem now = None) as Hnone.
  { intros H1 H2. rewrite selectNextProblem_hd. unfold chosen_candidates.
    rewrite H1, H2. reflexivity. }
  split; [|split; [|split]].
  - intros H1. rewrite selectNextProblem_hd. unfold chosen_candidates.
    destruct (due_candidates progressList unlockedTables lastProblem now) as [ | d ds ];
      [contradiction|].
    apply Hpick. discriminate.
  - intros H1 H2. rewrite selectNextProblem_hd. unfold chosen_candidates.
    rewrite H1. apply Hpick. exact H2.
  - exact Hnone.
  - intros lp -> Hall.
    assert (forall p, In p progressList ->
              isProblemUnlocked (problemA p) (problemB p) unlockedTables
              && negb (is_last (Some lp) p) = false) as Hlast.
    { intros p Hp.
      destruct (isProblemUnlocked (problemA p) (problemB p) unlockedTables) eqn:Hu;
        [|reflexivity].
      specialize (Hall p Hp Hu). subst lp. unfold is_last, problem_of. cbn [a b].
      rewrite !Z.eqb_refl. reflexivity. }
    apply Hnone.
    + unfold due_candidates. apply filter_nil_iff. intros p Hp.
      specialize (Hlast p Hp).
      destruct (isProblemUnlocked (problemA p) (problemB p) unlockedTables);
        [|reflexivity].
      cbn [andb] in *. rewrite Hlast. apply andb_false_r.
    + unfold practice_candidates. apply filter_nil_iff. exact Hlast.
Qed.



(** * The answer route *)

(** The outcome of a request of a signed-in user for a fact that has a
    row: an exception when the new date is invalid, an exception after the
    row was written when a table unlocks and the user has no record, and
    the response otherwise. *)
Lemma POST_found (uid : string) (request : AnswerRequest)
    (now_update now_select : number) (db : DB) (current : ProblemProgress) :
  progress_findUnique db uid (req_problemA request) (req_problemB request)
  = Some current ->
  let correct := userAnswer request =? req_problemA request * req_problemB request in
  let newStats := calculateNewStats current correct (responseSecs request) now_update in
  let db1 := progress_update db (id current) newStats in
  let rows := progress_findMany db1 uid in
  let unlock := shouldUnlockNextTable rows (tables_of db1 uid) in
  let tables := if unlock then tables_of db1 uid + 1 else tables_of db1 uid in
  POST (Some uid) request now_update now_select db
  = if isNaN (nextReview newStats) then (db, mkResponse 500 ThrownBody)
    else if unlock && negb (bool_decide (is_Some (user_findUnique db uid)))
    then (db1, mkResponse 500 ThrownBody)
    else (if unlock then user_update db1 uid (tables_of db1 uid + 1) else db1,
          mkResponse 200
            (AnswerBody correct
               (selectNextProblem rows tables
                  (Some (mkProblem (req_problemA request) (req_problemB request)))
                  now_select)
               (stats_view rows tables))).
Proof.
  intros Hfind. cbn zeta. unfold POST. rewrite Hfind. unfold tables_of.
  destruct (isNaN _); [reflexivity|].
  change (user_findUnique (progress_update db (id current) _) uid)
    with (user_findUnique db uid).
  destruct (user_findUnique db uid) as [u|];
    destruct (shouldUnlockNextTable _ _); reflexivity.
Qed.

Lemma POST_ok (uid : string) (request : AnswerRequest)
    (now_update now_select : number) (db : DB) (current : ProblemProgress) (u : User) :
  progress_findUnique db uid (req_problemA request) (req_problemB request)
  = Some current ->
  user_findUnique db uid = Some u ->
  let correct := userAnswer request =? req_problemA request * req_problemB request in
  let newStats := calculateNewStats current correct (responseSecs request) now_update in
  let db1 := progress_update db (id current) newStats in
  let rows := progress_findMany db1 uid in
  let unlock := shouldUnlockNextTable rows (tables_of db1 uid) in
  let tables := if unlock then tables_of db1 uid + 1 else tables_of db1 uid in
  isNaN (nextReview newStats) = false ->
  POST (Some uid) request now_update now_select db
  = (if unlock then user_update db1 uid (tables_of db1 uid + 1) else db1,
     mkResponse 200
       (AnswerBody correct
          (selectNextProblem rows tables
             (Some (mkProblem (req_problemA request) (req_problemB request))) now_select)
          (stats_view rows tables))).
Proof.
  intros Hfind Hu. cbn zeta. intros Hdate.
  rewrite (POST_found _ _ _ _ _ _ Hfind). cbn zeta. rewrite Hdate, Hu.
  rewrite bool_decide_eq_true_2 by (exists u; reflexivity).
  rewrite andb_false_r. reflexivity.
Qed.

(** The date [calculateNewStats] schedules does not depend on the
    response time. *)
Lemma nextReview_any_latency (st : Stats) (correct : bool) (r r' now : number) :
  nextReview (calculateNewStats st correct r now)
  = nextReview (calculateNewStats st correct r' now).
Proof. unfold calculateNewStats. destruct correct; reflexivity. Qed.

(** C1 (amended): the update rule and the route validate nothing about
    the response time.  On a correct answer every negative response time
    takes the bonus of a fast answer and NaN and plus infinity take the
    bonus of a slow one.  For a signed-in user who has a record and a fact
    that has a row, the status of the answer does not depend on the
    response time: when the new date is a valid one the row is replaced by
    the state [calculateNewStats] computes and the status is 200, and when
    it is not the update throws, nothing is written and the status is
    500. *)
Theorem POST_stores_new_stats (uid : string) (request : AnswerRequest)
    (now_update now_select : number) (db : DB) (current : ProblemProgress) (u : User) :
  progress_findUnique db uid (req_problemA request) (req_problemB request)
  = Some current ->
  user_findUnique db uid = Some u ->
  let correct := userAnswer request =? req_problemA request * req_problemB request in
  let newStats := calculateNewStats current correct (responseSecs request) now_update in
  let result := POST (Some uid) request now_update now_select db in
  (correct = true -> num_lt (responseSecs request) (ofZ 0) = true ->
   easeFactor newStats
   = Math_min (decimal 30 10) (num_add (easeFactor current) (decimal 15 100)))
  /\ (correct = true -> responseSecs request = NaN \/ responseSecs request = Infinity ->
      easeFactor newStats
      = Math_min (decimal 30 10) (num_add (easeFactor current) (decimal 5 100)))
  /\ (isNaN (nextReview newStats) = false ->
      status (snd result) = 200
      /\ problemProgress (fst result)
         = problemProgress (progress_update db (id current) newStats))
  /\ (isNaN (nextReview newStats) = true ->
      status (snd result) = 500 /\ fst result = db)
  /\ (forall responseSecs',
        status (snd (POST (Some uid)
                       (mkRequest (req_problemA request) (req_problemB request)
                                  (userAnswer request) responseSecs')
                       now_update now_select db))
        = status (snd result)).
Proof.
  intros Hfind Hu. cbn zeta.
  assert (forall r,
            status (snd (POST (Some uid)
                           (mkRequest (req_problemA request) (req_problemB request)
                                      (userAnswer request) r)
                           now_update now_select db))
            = if isNaN (nextReview
                          (calculateNewStats current
                             (userAnswer request =? req_problemA request * req_problemB request)
                             r now_update))
              then 500 else 200) as Hstatus.
  { intros r. rewrite (POST_found uid (mkRequest _ _ _ r) _ _ db current Hfind).
    cbn zeta. cbn [req_problemA req_problemB userAnswer responseSecs]. rewrite Hu.
    rewrite bool_decide_eq_true_2 by (exists u; reflexivity). rewrite andb_false_r.
    destruct (isNaN _); reflexivity. }
  split; [|split; [|split; [|split]]].
  - intros -> Hneg. unfold calculateNewStats. cbn iota beta zeta; cbn [easeFactor].
    unfold easeBonus. rewrite (negative_lt_three _ Hneg). reflexivity.
  - intros -> Hr. unfold calculateNewStats. cbn iota beta zeta; cbn [easeFactor].
    destruct Hr as [-> | ->]; reflexivity.
  - intros Hdate. rewrite (POST_ok _ _ _ _ _ _ _ Hfind Hu Hdate). cbn [snd fst status].
    split; [reflexivity|]. destruct (shouldUnlockNextTable _ _); reflexivity.
  - intros Hdate. rewrite (POST_found _ _ _ _ _ _ Hfind). cbn zeta. rewrite Hdate.
    split; reflexivity.
  - intros r. rewrite Hstatus.
    rewrite (nextReview_any_latency current _ r (responseSecs request)).
    specialize (Hstatus (responseSecs request)).
    destruct request as [pa pb ua rs]. cbn [req_problemA req_problemB userAnswer responseSecs] in *.
    symmetry. exact Hstatus.
Qed.

Lemma POST_stores_new_stats_witness :
  num_lt (ofZ (-1)) (ofZ 0) = true
  /\ status (snd (POST (Some "u"%string) (mkRequest 1 1 1 (ofZ (-1)))
                       (ofZ 1000) (ofZ 2000) sample_db)) = 200.
Proof.
  split; [vm_compute; reflexivity|].
  destruct (POST_stores_new_stats "u" (mkRequest 1 1 1 (ofZ (-1))) (ofZ 1000) (ofZ 2000)
              sample_db (sample_row 2 1 1) (mkUser "u" 2))
    as (_ & _ & Hstored & _).
  - vm_compute. reflexivity.
  - reflexivity.
  - apply Hstored. vm_compute. reflexivity.
Defined.

(** C1 as stated fails: a response time of -1 s is not rejected; the
    route answers 200 and stores a new state for 1 x 1, whose ease factor
    took the fast-answer bonus. The same happens for NaN. *)
Lemma POST_negative_latency_not_rejected :
  num_lt (ofZ (-1)) (ofZ 0) = true
  /\ status (snd (POST (Some "u"%string) (mkRequest 1 1 1 (ofZ (-1)))
                       (ofZ 1000) (ofZ 2000) sample_db)) = 200
  /\ map (fun p : ProblemProgress => (problemA p, problemB p, easeFactor p, timesCorrect p))
         (problemProgress (fst (POST (Some "u"%string) (mkRequest 1 1 1 (ofZ (-1)))
                                     (ofZ 1000) (ofZ 2000) sample_db)))
     = [(10, 1, decimal 25 10, 0); (1, 1, decimal 265 100, 1)]
  /\ isFinite NaN = false
  /\ status (snd (POST (Some "u"%string) (mkRequest 1 1 1 NaN)
                       (ofZ 1000) (ofZ 2000) sample_db)) = 200.
Proof.
  repeat split; vm_compute; reflexivity.
Qed.


(** * The problem universe *)

Lemma generateAllProblems_In (p : Problem) :
  In p generateAllProblems <-> 1 <= a p <= 12 /\ 1 <= b p <= 12.
Proof.
  unfold generateAllProblems. rewrite in_flat_map. split.
  - intros (x & Hx & Hp). apply in_map_iff in Hx as (i & <- & Hi).
    apply in_map_iff in Hp as (y & <- & Hy).
    apply in_map_iff in Hy as (j & <- & Hj).
    apply in_seq in Hi, Hj. cbn [a b]. lia.
  - intros [Ha Hb]. exists (a p). split.
    + apply in_map_iff. exists (Z.to_nat (a p)). split; [lia|]. apply in_seq. lia.
    + apply in_map_iff. exists (b p). split; [destruct p; reflexivity|].
      apply in_map_iff. exists (Z.to_nat (b p)). split; [lia|]. apply in_seq. lia.
Qed.

Lemma generateAllProblems_nth (i : nat) :
  (i < 144)%nat ->
  nth_error generateAllProblems i
  = Some (mkProblem (Z.of_nat (i / 12) + 1) (Z.of_nat (i mod 12) + 1)).
Proof.
  intros Hi.
  assert (forallb (fun i => match nth_error generateAllProblems i with
                            | Some p => (a p =? Z.of_nat (i / 12) + 1)
                                        && (b p =? Z.of_nat (i mod 12) + 1)
                            | None => false
                            end) (seq 0 144) = true) as Hall
    by (vm_compute; reflexivity).
  rewrite forallb_forall in Hall. specialize (Hall i).
  destruct (nth_error generateAllProblems i) as [[x y]|].
  - cbn [a b] in Hall. rewrite andb_true_iff, !Z.eqb_eq in Hall.
    destruct Hall as [-> ->]; [apply in_seq; lia | reflexivity].
  - discriminate Hall. apply in_seq. lia.
Qed.

(** X1: [generateAllProblems] lists each pair of factors between 1 and 12
    exactly once, 144 problems in all, the first factor varying slowest:
    the problem at index [i] is [(i / 12 + 1, i mod 12 + 1)]. *)
Theorem generateAllProblems_universe :
  length generateAllProblems = 144%nat
  /\ List.NoDup generateAllProblems
  /\ (forall p, In p generateAllProblems <-> 1 <= a p <= 12 /\ 1 <= b p <= 12)
  /\ (forall i, (i < 144)%nat ->
        nth_error generateAllProblems i
        = Some (mkProblem (Z.of_nat (i / 12) + 1) (Z.of_nat (i mod 12) + 1))).
Proof.
  assert (length generateAllProblems = 144%nat) as Hlen by reflexivity.
  split; [exact Hlen|]. split; [|split; [exact generateAllProblems_In | exact generateAllProblems_nth]].
  apply List.NoDup_nth_error. intros i j Hi Hij. rewrite Hlen in Hi.
  assert (j < 144)%nat as Hj.
  { rewrite <- Hlen. apply nth_error_Some.
    rewrite <- Hij, generateAllProblems_nth by exact Hi. discriminate. }
  rewrite !generateAllProblems_nth in Hij by assumption.
  pose proof (f_equal (fun o => match o with Some p => a p | None => 0 end) Hij) as Hq.
  pose proof (f_equal (fun o => match o with Some p => b p | None => 0 end) Hij) as Hr.
  cbn beta iota in Hq, Hr. cbn [a b] in Hq, Hr.
  pose proof (Nat.div_mod_eq i 12). pose proof (Nat.div_mod_eq j 12). lia.
Qed.

(** * The unlocked set *)

Lemma TABLE_ORDER_range (x : Z) : In x TABLE_ORDER <-> 1 <= x <= 12.
Proof.
  unfold TABLE_ORDER. cbn [In]. lia.
Qed.

Lemma slice0_incl {A : Type} (arr : list A) (e : Z) (x : A) :
  In x (slice0 arr e) -> In x arr.
Proof.
  unfold slice0. cbn zeta. intros H.
  match type of H with In _ (firstn ?k _) => rewrite <- (firstn_skipn k arr) end.
  apply in_or_app. left. exact H.
Qed.

Lemma slice0_all {A : Type} (arr : list A) (e : Z) :
  Z.of_nat (length arr) <= e -> slice0 arr e = arr.
Proof.
  intros He. unfold slice0.
  destruct (Z.ltb_spec e 0); [lia|].
  rewrite Z.min_r by lia. rewrite Nat2Z.id. apply firstn_all.
Qed.

(** X2: a problem is unlocked only if both factors lie between 1 and 12,
    whatever the count; unlocking does not depend on the order of the two
    factors; nothing is unlocked at count 0 and every problem of the
    universe is at a count of 12 or more; and for a count [n] between 0
    and 12 exactly [n * n] of the 144 problems are unlocked. *)
Theorem isProblemUnlocked_universe (x y n : Z) :
  (isProblemUnlocked x y n = true -> In (mkProblem x y) generateAllProblems)
  /\ isProblemUnlocked x y n = isProblemUnlocked y x n
  /\ isProblemUnlocked x y 0 = false
  /\ (12 <= n ->
      (isProblemUnlocked x y n = true <-> In (mkProblem x y) generateAllProblems))
  /\ (0 <= n <= 12 ->
      Z.of_nat (length (List.filter (fun p => isProblemUnlocked (a p) (b p) n)
                                    generateAllProblems)) = n * n).
Proof.
  split; [|split; [|split; [|split]]].
  - rewrite isProblemUnlocked_In, generateAllProblems_In. cbn [a b].
    intros [Hx Hy]. apply slice0_incl, TABLE_ORDER_range in Hx, Hy. auto.
  - unfold isProblemUnlocked. apply andb_comm.
  - apply not_true_is_false. rewrite isProblemUnlocked_In. intros [[] _].
  - intros Hn. rewrite isProblemUnlocked_In, generateAllProblems_In. cbn [a b].
    rewrite slice0_all by (cbn; lia). rewrite !TABLE_ORDER_range. reflexivity.
  - intros Hn.
    assert (forallb
              (fun k => Z.of_nat (length (List.filter
                                            (fun p => isProblemUnlocked (a p) (b p) k)
                                            generateAllProblems)) =? k * k)
              (map Z.of_nat (seq 0 13)) = true) as Hall by (vm_compute; reflexivity).
    rewrite List.forallb_forall in Hall. apply Z.eqb_eq. apply Hall.
    replace n with (Z.of_nat (Z.to_nat n)) by lia.
    apply List.in_map. apply List.in_seq. lia.
Qed.

Lemma isProblemUnlocked_universe_witness :
  Z.of_nat (length (List.filter (fun p => isProblemUnlocked (a p) (b p) 2)
                                generateAllProblems)) = 2 * 2.
Proof.
  apply (isProblemUnlocked_universe 1 1 2). lia.
Defined.

(** * Counters *)

Lemma answer_step_counters (st : Stats) (x : Answer) :
  timesCorrect (answer_step st x)
  = timesCorrect st + (if ans_correct x then 1 else 0)
  /\ timesWrong (answer_step st x)
     = timesWrong st + (if ans_correct x then 0 else 1)
  /\ consecutiveCorrect (answer_step st x)
     = (if ans_correct x then consecutiveCorrect st + 1 else 0).
Proof.
  unfold answer_step, calculateNewStats.
  destruct (ans_correct x); cbn iota beta zeta;
    cbn [timesCorrect timesWrong consecutiveCorrect]; repeat split; lia.
Qed.

Lemma after_answers_app (st : Stats) (l1 l2 : list Answer) :
  after_answers st (l1 ++ l2) = after_answers (after_answers st l1) l2.
Proof. unfold after_answers. apply fold_left_app. Qed.

Lemma after_answers_totals (answers : list Answer) (st : Stats) :
  timesCorrect (after_answers st answers)
  = timesCorrect st + Z.of_nat (length (List.filter ans_correct answers))
  /\ timesWrong (after_answers st answers)
     = timesWrong st
       + Z.of_nat (length (List.filter (fun x => negb (ans_correct x)) answers)).
Proof.
  revert st. induction answers as [ | x answers IH ]; intros st.
  - cbn. lia.
  - cbn [after_answers fold_left List.filter].
    destruct (IH (answer_step st x)) as [Hc Hw]. unfold after_answers in *.
    rewrite Hc, Hw.
    destruct (answer_step_counters st x) as (-> & -> & _).
    destruct (ans_correct x); cbn [negb length]; lia.
Qed.

Lemma after_answers_run (run : list Answer) (st : Stats) :
  Forall (fun x => ans_correct x = true) run ->
  consecutiveCorrect (after_answers st run)
  = consecutiveCorrect st + Z.of_nat (length run).
Proof.
  intros Hrun. revert st. induction Hrun as [ | x run Hx _ IH ]; intros st.
  - cbn. lia.
  - cbn [after_answers fold_left length]. unfold after_answers in IH.
    rewrite IH. destruct (answer_step_counters st x) as (_ & _ & ->).
    rewrite Hx. lia.
Qed.

(** X3: from the initial state, [timesCorrect] counts the correct answers
    and [timesWrong] the wrong ones, so together they count all answers;
    [consecutiveCorrect] is the length of the run of correct answers at
    the end of the sequence, that is after the last wrong answer or from
    the start when no answer was wrong. *)
Theorem counters_count_answers (now0 : Date) (answers : list Answer) :
  let s := after_answers (initial_state now0) answers in
  timesCorrect s = Z.of_nat (length (List.filter ans_correct answers))
  /\ timesWrong s
     = Z.of_nat (length (List.filter (fun x => negb (ans_correct x)) answers))
  /\ timesCorrect s + timesWrong s = Z.of_nat (length answers)
  /\ (forall earlier run,
        answers = earlier ++ run ->
        Forall (fun x => ans_correct x = true) run ->
        (earlier = []
         \/ exists before w, earlier = before ++ [w] /\ ans_correct w = false) ->
        consecutiveCorrect s = Z.of_nat (length run)).
Proof.
  cbn zeta.
  destruct (after_answers_totals answers (initial_state now0)) as [Hc Hw].
  cbn [initial_state timesCorrect timesWrong] in Hc, Hw.
  split; [lia|]. split; [lia|]. split.
  - rewrite Hc, Hw.
    assert (forall l : list Answer,
              (length (List.filter ans_correct l)
               + length (List.filter (fun x => negb (ans_correct x)) l))%nat
              = length l) as Hsplit.
    { induction l as [ | x l IH ]; [reflexivity|].
      cbn [List.filter]. destruct (ans_correct x); cbn [negb length]; lia. }
    specialize (Hsplit answers). lia.
  - intros earlier run -> Hrun Hearlier.
    rewrite after_answers_app, (after_answers_run run _ Hrun).
    destruct Hearlier as [-> | (before & w & -> & Hw')].
    + cbn. lia.
    + rewrite after_answers_app.
      change (after_answers (after_answers (initial_state now0) before) [w])
        with (answer_step (after_answers (initial_state now0) before) w).
      destruct (answer_step_counters (after_answers (initial_state now0) before) w)
        as (_ & _ & ->).
      rewrite Hw'. lia.
Qed.

Lemma counters_count_answers_witness :
  consecutiveCorrect
    (after_answers (initial_state (ofZ 0))
       [mkAnswer true (ofZ 2) (ofZ 0); mkAnswer false (ofZ 2) (ofZ 0);
        mkAnswer true (ofZ 2) (ofZ 0); mkAnswer true (ofZ 9) (ofZ 0)])
  = Z.of_nat 2.
Proof.
  apply (counters_count_answers (ofZ 0)
           [mkAnswer true (ofZ 2) (ofZ 0); mkAnswer false (ofZ 2) (ofZ 0);
            mkAnswer true (ofZ 2) (ofZ 0); mkAnswer true (ofZ 9) (ofZ 0)])
    with (earlier := [mkAnswer true (ofZ 2) (ofZ 0); mkAnswer false (ofZ 2) (ofZ 0)])
         (run := [mkAnswer true (ofZ 2) (ofZ 0); mkAnswer true (ofZ 9) (ofZ 0)]).
  - reflexivity.
  - repeat constructor.
  - right. exists [mkAnswer true (ofZ 2) (ofZ 0)], (mkAnswer false (ofZ 2) (ofZ 0)).
    split; reflexivity.
Defined.

(** * What the selection returns *)

Lemma chosen_candidates_In (progressList : list ProblemProgress)
    (unlockedTables : Z) (lastProblem : option Problem) (now : Date) (p : ProblemProgress) :
  In p (chosen_candidates progressList unlockedTables lastProblem now) ->
  In p progressList
  /\ isProblemUnlocked (problemA p) (problemB p) unlockedTables = true
  /\ is_last lastProblem p = false.
Proof.
  unfold chosen_candidates.
  destruct (due_candidates progressList unlockedTables lastProblem now) as [ | d ds ] eqn:E.
  - unfold practice_candidates. intros H. apply filter_In in H as [Hin Hf].
    apply andb_true_iff in Hf as [Hu Hl]. apply negb_true_iff in Hl. auto.
  - rewrite <- E. unfold due_candidates. intros H. apply filter_In in H as [Hin Hf].
    apply andb_true_iff in Hf as [Hf Hl]. apply andb_true_iff in Hf as [Hu _].
    apply negb_true_iff in Hl. auto.
Qed.

Lemma chosen_candidates_nil (progressList : list ProblemProgress)
    (unlockedTables : Z) (lastProblem : option Problem) (now : Date) :
  chosen_candidates progressList unlockedTables lastProblem now = []
  <-> practice_candidates progressList unlockedTables lastProblem = [].
Proof.
  unfold chosen_candidates.
  destruct (due_candidates progressList unlockedTables lastProblem now) as [ | d ds ] eqn:E;
    [reflexivity|].
  split; [discriminate|]. intros Hp. exfalso.
  assert (In d (due_candidates progressList unlockedTables lastProblem now)) as Hd
    by (rewrite E; left; reflexivity).
  unfold due_candidates in Hd. apply filter_In in Hd as [Hin Hf].
  apply andb_true_iff in Hf as [Hf Hl]. apply andb_true_iff in Hf as [Hu _].
  unfold practice_candidates in Hp.
  rewrite filter_nil_iff in Hp. specialize (Hp d Hin). cbn beta in Hp.
  rewrite Hu, Hl in Hp. discriminate.
Qed.

Lemma option_eq_dec_problem (x y : option Problem) : {x = y} + {x <> y}.
Proof. repeat decide equality. Qed.

Lemma is_last_false_neq (lastProblem : option Problem) (p : ProblemProgress) :
  is_last lastProblem p = false <-> lastProblem <> Some (problem_of p).
Proof.
  unfold is_last, problem_of. destruct lastProblem as [[x y]|]; cbn [a b].
  - rewrite andb_false_iff, !Z.eqb_neq. split.
    + intros H [= -> ->]. destruct H; congruence.
    + intros H. destruct (Z.eq_dec (problemA p) x) as [E1 | ]; [|auto].
      destruct (Z.eq_dec (problemB p) y) as [E2 | ]; [|auto].
      exfalso. apply H. rewrite E1, E2. reflexivity.
  - split; [discriminate | reflexivity].
Qed.

Lemma selectNextProblem_Some (progressList : list ProblemProgress)
    (unlockedTables : Z) (lastProblem : option Problem) (now : Date) (p : Problem) :
  selectNextProblem progressList unlockedTables lastProblem now = Some p ->
  (exists row, In row progressList /\ problem_of row = p)
  /\ isProblemUnlocked (a p) (b p) unlockedTables = true
  /\ lastProblem <> Some p.
Proof.
  rewrite selectNextProblem_hd.
  set (cands := chosen_candidates progressList unlockedTables lastProblem now).
  intros Hp.
  destruct (hd_error (Array_sort by_ease cands)) as [row|] eqn:E; [|discriminate].
  injection Hp as <-. apply Array_sort_hd_In in E.
  apply chosen_candidates_In in E as (Hin & Hu & Hl).
  split; [exists row; auto|]. split; [exact Hu|].
  apply is_last_false_neq. exact Hl.
Qed.

Lemma selectNextProblem_None_iff (progressList : list ProblemProgress)
    (unlockedTables : Z) (lastProblem : option Problem) (now : Date) :
  selectNextProblem progressList unlockedTables lastProblem now = None
  <-> forall row, In row progressList ->
        isProblemUnlocked (problemA row) (problemB row) unlockedTables = true ->
        lastProblem = Some (problem_of row).
Proof.
  rewrite selectNextProblem_hd.
  set (cands := chosen_candidates progressList unlockedTables lastProblem now).
  split.
  - intros Hnone row Hin Hu.
    destruct (hd_error (Array_sort by_ease cands)) as [r|] eqn:E; [discriminate|].
    apply Array_sort_hd_None in E. subst cands.
    apply chosen_candidates_nil in E. unfold practice_candidates in E.
    rewrite filter_nil_iff in E. specialize (E row Hin). cbn beta in E.
    rewrite Hu in E. cbn [andb] in E. apply negb_false_iff in E.
    destruct (is_last_false_neq lastProblem row) as [_ H].
    destruct (option_eq_dec_problem lastProblem (Some (problem_of row))) as [Heq | Hne];
      [exact Heq|].
    rewrite (H Hne) in E. discriminate.
  - intros Hall.
    assert (cands = []) as ->; [|reflexivity].
    subst cands. apply chosen_candidates_nil. unfold practice_candidates.
    apply filter_nil_iff. intros row Hin.
    destruct (isProblemUnlocked (problemA row) (problemB row) unlockedTables) eqn:Hu;
      [|reflexivity].
    cbn [andb]. apply negb_false_iff.
    specialize (Hall row Hin Hu).
    destruct (is_last lastProblem row) eqn:El; [reflexivity|].
    apply is_last_false_neq in El. contradiction.
Qed.

Lemma practice_candidates_In (progressList : list ProblemProgress)
    (unlockedTables : Z) (lastProblem : option Problem) (p : ProblemProgress) :
  In p (practice_candidates progressList unlockedTables lastProblem)
  <-> in_C2 progressList unlockedTables lastProblem p.
Proof.
  unfold practice_candidates, in_C2.
  rewrite filter_In, andb_true_iff, negb_true_iff, is_last_false_neq. reflexivity.
Qed.

Lemma due_candidates_In (progressList : list ProblemProgress)
    (unlockedTables : Z) (lastProblem : option Problem) (now : Date)
    (p : ProblemProgress) :
  new_Date (nextReview p) = nextReview p ->
  In p (due_candidates progressList unlockedTables lastProblem now)
  <-> in_C1 progressList unlockedTables lastProblem now p.
Proof.
  intros Hdate. unfold due_candidates, in_C1, in_C2.
  rewrite filter_In, !andb_true_iff, negb_true_iff, is_last_false_neq, Hdate.
  tauto.
Qed.

(** C8: with every next review the time value of a date, the selected
    problem is a fact of the list that is unlocked, due and not the last
    problem when there is such a fact; otherwise it is a fact that is
    unlocked and not the last problem when there is one, whatever its due
    date; and when there is none either the result is null, in particular
    when every unlocked fact is the last problem. *)
Theorem selectNextProblem_fallback (progressList : list ProblemProgress)
    (unlockedTables : Z) (lastProblem : option Problem) (now : Date) :
  Forall (fun p : ProblemProgress => new_Date (nextReview p) = nextReview p)
         progressList ->
  let C1 := in_C1 progressList unlockedTables lastProblem now in
  let C2 := in_C2 progressList unlockedTables lastProblem in
  ((exists p, C1 p) ->
   exists p, C1 p
     /\ selectNextProblem progressList unlockedTables lastProblem now
        = Some (problem_of p))
  /\ ((forall p, ~ C1 p) -> (exists p, C2 p) ->
      exists p, C2 p
        /\ selectNextProblem progressList unlockedTables lastProblem now
           = Some (problem_of p))
  /\ ((forall p, ~ C1 p) -> (forall p, ~ C2 p) ->
      selectNextProblem progressList unlockedTables lastProblem now = None)
  /\ (forall lp,
        lastProblem = Some lp ->
        (forall p, In p progressList ->
                   isProblemUnlocked (problemA p) (problemB p) unlockedTables = true ->
                   problem_of p = lp) ->
        selectNextProblem progressList unlockedTables lastProblem now = None).
Proof.
  intros Hdates. cbn zeta. rewrite List.Forall_forall in Hdates.
  assert (forall p, In p (due_candidates progressList unlockedTables lastProblem now)
                    <-> in_C1 progressList unlockedTables lastProblem now p) as Hdue.
  { intros p. split.
    - intros Hp. apply due_candidates_In; [|exact Hp].
      apply Hdates. unfold due_candidates in Hp. apply filter_In in Hp. apply Hp.
    - intros Hp. apply due_candidates_In; [|exact Hp].
      apply Hdates. apply Hp. }
  assert ((forall p, ~ in_C1 progressList unlockedTables lastProblem now p) ->
          due_candidates progressList unlockedTables lastProblem now = []) as Hnodue.
  { intros Hno.
    destruct (due_candidates progressList unlockedTables lastProblem now) as [ | d ds ] eqn:E;
      [reflexivity|].
    exfalso. apply (Hno d). apply Hdue. left. reflexivity. }
  assert ((forall p, ~ in_C2 progressList unlockedTables lastProblem p) ->
          practice_candidates progressList unlockedTables lastProblem = []) as Hnopractice.
  { intros Hno.
    destruct (practice_candidates progressList unlockedTables lastProblem) as [ | d ds ] eqn:E;
      [reflexivity|].
    exfalso. apply (Hno d). apply practice_candidates_In. rewrite E. left. reflexivity. }
  destruct (selectNextProblem_from_candidates progressList unlockedTables lastProblem now)
    as (H1 & H2 & H3 & H4).
  split; [|split; [|split]].
  - intros (p & Hp). destruct H1 as (q & Hq & Hsel).
    + apply Hdue in Hp. intros E. rewrite E in Hp. destruct Hp.
    + exists q. split; [apply Hdue; exact Hq | exact Hsel].
  - intros Hno (p & Hp). destruct (H2 (Hnodue Hno)) as (q & Hq & Hsel).
    + apply practice_candidates_In in Hp. intros E. rewrite E in Hp. destruct Hp.
    + exists q. split; [apply practice_candidates_In; exact Hq | exact Hsel].
  - intros Hno1 Hno2. apply (H3 (Hnodue Hno1) (Hnopractice Hno2)).
  - exact H4.
Qed.

Lemma selectNextProblem_fallback_witness :
  exists p,
    in_C1 [sample_row 1 10 1; sample_row 2 1 1] 2 (Some (mkProblem 1 1)) (ofZ 0) p
    /\ selectNextProblem [sample_row 1 10 1; sample_row 2 1 1] 2
                         (Some (mkProblem 1 1)) (ofZ 0)
       = Some (problem_of p).
Proof.
  destruct (selectNextProblem_fallback [sample_row 1 10 1; sample_row 2 1 1] 2
              (Some (mkProblem 1 1)) (ofZ 0)) as (Hdue & _).
  - repeat constructor; vm_compute; reflexivity.
  - apply Hdue. exists (sample_row 1 10 1).
    split; [split; [left; reflexivity | split; [vm_compute; reflexivity | discriminate]]|].
    vm_compute. reflexivity.
Defined.

(** X4: the problem [selectNextProblem] returns belongs to a row of the
    progress list, is unlocked and is not the last problem; and it returns
    null exactly when every unlocked row of the list is the last problem
    (in particular when the list has no unlocked row). *)
Theorem selectNextProblem_sound_complete (progressList : list ProblemProgress)
    (unlockedTables : Z) (lastProblem : option Problem) (now : Date) :
  (forall p,
     selectNextProblem progressList unlockedTables lastProblem now = Some p ->
     (exists row, In row progressList /\ problem_of row = p)
     /\ isProblemUnlocked (a p) (b p) unlockedTables = true
     /\ lastProblem <> Some p)
  /\ (selectNextProblem progressList unlockedTables lastProblem now = None
      <-> forall row, In row progressList ->
            isProblemUnlocked (problemA row) (problemB row) unlockedTables = true ->
            lastProblem = Some (problem_of row)).
Proof.
  split; [intros p; apply selectNextProblem_Some | apply selectNextProblem_None_iff].
Qed.

(** * The sorted candidates *)

(** X5: for ease factors that are not NaN, sorting the candidates with
    the comparator of [selectNextProblem] gives a permutation of them in
    ascending order of ease factor (hardest first) in which candidates of
    equal ease factor keep their order. *)
Theorem Array_sort_by_ease (l : list ProblemProgress) :
  Forall (fun p : ProblemProgress => num_ok (easeFactor p)) l ->
  Permutation (Array_sort by_ease l) l
  /\ StronglySorted ease_le (Array_sort by_ease l)
  /\ (forall k, num_ok k ->
        List.filter (has_ease k) (Array_sort by_ease l) = List.filter (has_ease k) l).
Proof.
  intros Hok. split; [apply Array_sort_Permutation|].
  split; [apply Array_sort_sorted; exact Hok|].
  intros k Hk. apply Array_sort_stable; assumption.
Qed.

Lemma Array_sort_by_ease_witness :
  Permutation (Array_sort by_ease [sample_row 1 10 1; sample_row 2 1 1])
              [sample_row 1 10 1; sample_row 2 1 1].
Proof.
  apply (Array_sort_by_ease [sample_row 1 10 1; sample_row 2 1 1]).
  repeat constructor; vm_compute; reflexivity.
Defined.

(** * The answer route: what a request changes *)

Lemma find_none_iff {A : Type} (f : A -> bool) (l : list A) :
  find f l = None <-> forall x, In x l -> f x = false.
Proof.
  split; [apply find_none|].
  induction l as [ | y l IH ]; intros H; [reflexivity|].
  cbn [find]. rewrite (H y (or_introl eq_refl)). apply IH.
  intros x Hx. apply H. right. exact Hx.
Qed.

Lemma same_key_true (uid : string) (pa pb : Z) (p : ProblemProgress) :
  same_key uid pa pb p = true <-> userId p = uid /\ problemA p = pa /\ problemB p = pb.
Proof.
  unfold same_key. rewrite !andb_true_iff, String.eqb_eq, !Z.eqb_eq. tauto.
Qed.

(** X6: the answer route answers 401 exactly when nobody is signed in and
    404 exactly when the signed-in user has no row for the problem of the
    request, and leaves the database as it was in both cases.  When the
    row exists the request ends in an exception, with status 500, exactly
    when the new date is invalid, and then nothing was written, or when a
    table unlocks for a user who has no record, and then the row of the
    fact was written already; otherwise the status is 200. *)
Theorem POST_rejections (session : option string) (request : AnswerRequest)
    (now_update now_select : number) (db : DB) :
  let result := POST session request now_update now_select db in
  (status (snd result) = 401 <-> session = None)
  /\ (status (snd result) = 404 <->
      exists uid, session = Some uid
        /\ forall p, In p (problemProgress db) ->
             ~ (userId p = uid /\ problemA p = req_problemA request
                /\ problemB p = req_problemB request))
  /\ (status (snd result) = 401 \/ status (snd result) = 404
      \/ status (snd result) = 500 \/ status (snd result) = 200)
  /\ (status (snd result) = 401 \/ status (snd result) = 404 -> fst result = db)
  /\ (forall uid current,
        session = Some uid ->
        progress_findUnique db uid (req_problemA request) (req_problemB request)
        = Some current ->
        let newStats :=
          calculateNewStats current
            (userAnswer request =? req_problemA request * req_problemB request)
            (responseSecs request) now_update in
        let db1 := progress_update db (id current) newStats in
        (status (snd result) = 500 <->
         isNaN (nextReview newStats) = true
         \/ (user_findUnique db uid = None
             /\ shouldUnlockNextTable (progress_findMany db1 uid) 1 = true))
        /\ (isNaN (nextReview newStats) = true -> fst result = db)
        /\ (isNaN (nextReview newStats) = false -> status (snd result) = 500 ->
            fst result = db1)).
Proof.
  cbn zeta. destruct session as [uid|].
  - destruct (progress_findUnique db uid (req_problemA request) (req_problemB request))
      as [current|] eqn:Hfind.
    + assert (status (snd (POST (Some uid) request now_update now_select db)) = 500
              \/ status (snd (POST (Some uid) request now_update now_select db)) = 200)
        as Hst.
      { rewrite (POST_found _ _ _ _ _ _ Hfind). cbn zeta.
        destruct (isNaN _); [left; reflexivity|].
        destruct (_ && _); [left | right]; reflexivity. }
      split; [split; [destruct Hst as [-> | ->]; discriminate | discriminate]|].
      split.
      { split; [destruct Hst as [-> | ->]; discriminate|].
        intros (uid' & [= <-] & Hnone).
        unfold progress_findUnique in Hfind. apply find_some in Hfind as [Hin Hkey].
        apply same_key_true in Hkey. exfalso. apply (Hnone current Hin Hkey). }
      split; [tauto|].
      split; [intros [H | H]; destruct Hst as [E | E]; rewrite E in H; discriminate H|].
      intros uid' current' [= <-]. rewrite Hfind. intros [= <-].
      rewrite (POST_found _ _ _ _ _ _ Hfind). cbn zeta.
      set (newStats := calculateNewStats current _ _ _).
      set (db1 := progress_update db (id current) newStats).
      unfold tables_of.
      change (user_findUnique db1 uid) with (user_findUnique db uid).
      destruct (isNaN (nextReview newStats)) eqn:Hdate.
      * cbn [snd fst status]. split; [split; auto|]. split; [reflexivity | discriminate].
      * destruct (user_findUnique db uid) as [u|] eqn:Hu.
        -- rewrite bool_decide_eq_true_2 by (exists u; reflexivity).
           rewrite andb_false_r. cbn [snd fst status].
           split; [|split; discriminate].
           split; [discriminate|]. intros [H | [H _]]; discriminate H.
        -- rewrite bool_decide_eq_false_2 by (intros [u Hsome]; discriminate Hsome).
           cbn [negb]. rewrite andb_true_r.
           destruct (shouldUnlockNextTable (progress_findMany db1 uid) 1) eqn:Hs;
             cbn [snd fst status].
           ++ split; [split; auto|]. split; [discriminate | reflexivity].
           ++ split; [|split; discriminate].
              split; [discriminate|]. intros [H | [_ H]]; discriminate H.
    + unfold POST. rewrite Hfind. cbn [snd fst status].
      split; [split; discriminate|]. split.
      { split; [|reflexivity]. intros _. exists uid. split; [reflexivity|].
        intros p Hp Hkey. unfold progress_findUnique in Hfind.
        rewrite find_none_iff in Hfind. specialize (Hfind p Hp).
        apply same_key_true in Hkey. congruence. }
      split; [tauto|]. split; [reflexivity|].
      intros uid' current' [= <-]. rewrite Hfind. discriminate.
  - cbn [POST snd fst status]. split; [split; reflexivity|].
    split; [split; [discriminate | intros (uid & [=] & _)]|].
    split; [tauto|]. split; [reflexivity|].
    intros uid current [=].
Qed.

Lemma POST_ok_rows (uid : string) (request : AnswerRequest)
    (now_update now_select : number) (db : DB) (current : ProblemProgress) :
  progress_findUnique db uid (req_problemA request) (req_problemB request)
  = Some current ->
  let newStats :=
    calculateNewStats current
      (userAnswer request =? req_problemA request * req_problemB request)
      (responseSecs request) now_update in
  isNaN (nextReview newStats) = false ->
  problemProgress (fst (POST (Some uid) request now_update now_select db))
  = problemProgress (progress_update db (id current) newStats).
Proof.
  intros Hfind. cbn zeta. intros Hdate.
  rewrite (POST_found _ _ _ _ _ _ Hfind). cbn zeta. rewrite Hdate.
  destruct (_ && _); [reflexivity|].
  destruct (shouldUnlockNextTable _ _); reflexivity.
Qed.

(** A response with status 200 comes from a request that found its row
    and went through both updates. *)
Lemma POST_200 (uid : string) (request : AnswerRequest)
    (now_update now_select : number) (db : DB)
    (correct : bool) (nextProblem : option Problem) (view : StatsView) :
  snd (POST (Some uid) request now_update now_select db)
  = mkResponse 200 (AnswerBody correct nextProblem view) ->
  exists current,
    progress_findUnique db uid (req_problemA request) (req_problemB request)
    = Some current
    /\ let newStats :=
         calculateNewStats current
           (userAnswer request =? req_problemA request * req_problemB request)
           (responseSecs request) now_update in
       let db1 := progress_update db (id current) newStats in
       let rows := progress_findMany db1 uid in
       let unlock := shouldUnlockNextTable rows (tables_of db1 uid) in
       let tables := if unlock then tables_of db1 uid + 1 else tables_of db1 uid in
       isNaN (nextReview newStats) = false
       /\ POST (Some uid) request now_update now_select db
          = (if unlock then user_update db1 uid (tables_of db1 uid + 1) else db1,
             mkResponse 200
               (AnswerBody
                  (userAnswer request =? req_problemA request * req_problemB request)
                  (selectNextProblem rows tables
                     (Some (mkProblem (req_problemA request) (req_problemB request)))
                     now_select)
                  (stats_view rows tables))).
Proof.
  destruct (progress_findUnique db uid (req_problemA request) (req_problemB request))
    as [current|] eqn:Hfind.
  2: { unfold POST. rewrite Hfind. discriminate. }
  rewrite (POST_found _ _ _ _ _ _ Hfind). cbn zeta.
  destruct (isNaN _) eqn:Hdate; [discriminate|].
  destruct (_ && _); [discriminate|].
  intros _. exists current. split; [reflexivity|]. split; [exact Hdate | reflexivity].
Qed.

Lemma find_app_skip {A : Type} (f : A -> bool) (l1 l2 : list A) :
  (forall y, In y l1 -> f y = false) -> find f (l1 ++ l2) = find f l2.
Proof.
  induction l1 as [ | y l1 IH ]; intros H; [reflexivity|]. cbn [app find].
  rewrite (H y (or_introl eq_refl)). apply IH. intros z Hz. apply H. right. exact Hz.
Qed.

Lemma find_split {A : Type} (f : A -> bool) (l : list A) (x : A) :
  find f l = Some x ->
  exists before after,
    l = before ++ x :: after /\ f x = true /\ forall y, In y before -> f y = false.
Proof.
  induction l as [ | y l IH ]; [discriminate|]. cbn [find].
  destruct (f y) eqn:E.
  - intros [= ->]. exists [], l. split; [reflexivity|]. split; [exact E|]. intros z [].
  - intros H. destruct (IH H) as (before & after & -> & Hx & Hb).
    exists (y :: before), after. split; [reflexivity|]. split; [exact Hx|].
    intros z [<- | Hz]; [exact E | apply Hb; exact Hz].
Qed.

Lemma map_update_other (row_id : Z) (data : Stats) (l : list ProblemProgress) :
  (forall p, In p l -> id p <> row_id) ->
  map (fun p => if id p =? row_id then mkProgress (id p) (userId p) (problemA p) (problemB p) data
                else p) l = l.
Proof.
  intros H. induction l as [ | y l IH ]; [reflexivity|]. cbn [map].
  rewrite IH by (intros p Hp; apply H; right; exact Hp).
  destruct (Z.eqb_spec (id y) row_id) as [E | _]; [|reflexivity].
  exfalso. apply (H y); [left; reflexivity | exact E].
Qed.

(** X7: when row ids are unique and the new date is a valid one, a
    request that found its row replaces the performance fields of that row
    by the result of [calculateNewStats] and touches no other row: the rows
    keep their number, order, ids, owners and problems; and looking the
    problem up again finds the updated row.  This holds also when the
    later update of the user throws.  When the new date is invalid the
    database stays as it was. *)
Theorem POST_replaces_one_row (uid : string) (request : AnswerRequest)
    (now_update now_select : number) (db : DB) (current : ProblemProgress) :
  List.NoDup (map id (problemProgress db)) ->
  progress_findUnique db uid (req_problemA request) (req_problemB request)
  = Some current ->
  let newStats :=
    calculateNewStats current
      (userAnswer request =? req_problemA request * req_problemB request)
      (responseSecs request) now_update in
  let updated := with_stats current newStats in
  let db' := fst (POST (Some uid) request now_update now_select db) in
  (isNaN (nextReview newStats) = false ->
   (exists before after,
      problemProgress db = before ++ current :: after
      /\ problemProgress db' = before ++ updated :: after)
   /\ progress_findUnique db' uid (req_problemA request) (req_problemB request)
      = Some updated)
  /\ (isNaN (nextReview newStats) = true -> db' = db).
Proof.
  intros Hnd Hfind. cbn zeta. split.
  2: { intros Hdate. rewrite (POST_found _ _ _ _ _ _ Hfind). cbn zeta.
       rewrite Hdate. reflexivity. }
  intros Hdate. unfold progress_findUnique at 1.
  rewrite (POST_ok_rows _ _ _ _ _ _ Hfind Hdate).
  set (data := calculateNewStats current _ _ _).
  unfold progress_findUnique in Hfind.
  destruct (find_split _ _ _ Hfind) as (before & after & Hl & Hkey & Hbefore).
  cbn [progress_update problemProgress]. rewrite Hl in *.
  rewrite map_app in Hnd. cbn [map] in Hnd.
  apply NoDup_remove_2 in Hnd.
  rewrite map_app. cbn [map]. rewrite Z.eqb_refl.
  rewrite !map_update_other.
  - split; [exists before, after; split; reflexivity|].
    rewrite find_app_skip by exact Hbefore.
    cbn [find]. unfold with_stats, same_key in *. cbn [userId problemA problemB].
    rewrite Hkey. reflexivity.
  - intros p Hp E. apply Hnd. apply in_or_app. right. rewrite <- E. apply in_map. exact Hp.
  - intros p Hp E. apply Hnd. apply in_or_app. left. rewrite <- E. apply in_map. exact Hp.
Qed.

Lemma POST_replaces_one_row_witness :
  progress_findUnique
    (fst (POST (Some "u"%string) (mkRequest 1 1 1 (ofZ 2)) (ofZ 1000) (ofZ 2000) sample_db))
    "u" 1 1
  = Some (with_stats (sample_row 2 1 1)
            (calculateNewStats (sample_row 2 1 1) true (ofZ 2) (ofZ 1000))).
Proof.
  destruct (POST_replaces_one_row "u" (mkRequest 1 1 1 (ofZ 2)) (ofZ 1000) (ofZ 2000)
              sample_db (sample_row 2 1 1)) as [Hvalid _].
  - repeat constructor; cbn; intuition discriminate.
  - vm_compute. reflexivity.
  - apply Hvalid. vm_compute. reflexivity.
Defined.

Lemma find_map_user (uid : string) (n : Z) (v : string) (l : list User) :
  find (fun u => String.eqb (user_id u) v)
       (map (fun u => if String.eqb (user_id u) uid then mkUser (user_id u) n else u) l)
  = match find (fun u => String.eqb (user_id u) v) l with
    | Some u => Some (if String.eqb (user_id u) uid then mkUser (user_id u) n else u)
    | None => None
    end.
Proof.
  induction l as [ | u l IH ]; [reflexivity|]. cbn [map find].
  destruct (String.eqb (user_id u) uid) eqn:E; cbn [user_id];
    destruct (String.eqb (user_id u) v) eqn:F; rewrite ?E; auto.
Qed.

Lemma user_findUnique_update (db : DB) (uid v : string) (n : Z) :
  user_findUnique (user_update db uid n) v
  = match user_findUnique db v with
    | Some u => Some (if String.eqb (user_id u) uid then mkUser (user_id u) n else u)
    | None => None
    end.
Proof. unfold user_findUnique, user_update. cbn [user]. apply find_map_user. Qed.

Lemma user_findUnique_id (db : DB) (uid : string) (u : User) :
  user_findUnique db uid = Some u -> user_id u = uid.
Proof.
  unfold user_findUnique. intros H. apply find_some in H as [_ H].
  apply String.eqb_eq. exact H.
Qed.

Lemma shouldUnlockNextTable_lt (progressList : list ProblemProgress) (n : Z) :
  shouldUnlockNextTable progressList n = true -> n < 12.
Proof.
  unfold shouldUnlockNextTable. change (Z.of_nat (length TABLE_ORDER)) with 12.
  destruct (Z.geb_spec n 12); [discriminate | lia].
Qed.

(** X8: an answered request opens at most one table and never a
    thirteenth: the count of the signed-in user stays or grows by one, and
    it grows only from a count below 12; the counts of all other users
    stay as they were. *)
Theorem POST_opens_at_most_one_table (uid : string) (request : AnswerRequest)
    (now_update now_select : number) (db : DB) (u : User) :
  user_findUnique db uid = Some u ->
  let db' := fst (POST (Some uid) request now_update now_select db) in
  (exists n',
     user_findUnique db' uid = Some (mkUser uid n')
     /\ (n' = unlockedTables u \/ (n' = unlockedTables u + 1 /\ unlockedTables u < 12)))
  /\ (forall v, v <> uid -> user_findUnique db' v = user_findUnique db v).
Proof.
  intros Hu. cbn zeta. pose proof (user_findUnique_id _ _ _ Hu) as Hid.
  assert (u = mkUser uid (unlockedTables u)) as Heta by (destruct u; cbn in *; congruence).
  destruct (progress_findUnique db uid (req_problemA request) (req_problemB request))
    as [current|] eqn:Hfind.
  - rewrite (POST_found _ _ _ _ _ _ Hfind). cbn zeta.
    destruct (isNaN _).
    { cbn [fst]. split; [|reflexivity].
      exists (unlockedTables u). rewrite Hu. split; [congruence | left; reflexivity]. }
    rewrite Hu. rewrite bool_decide_eq_true_2 by (exists u; reflexivity).
    rewrite andb_false_r. cbn [fst].
    set (db1 := progress_update db (id current) _).
    assert (forall v, user_findUnique db1 v = user_findUnique db v) as Hsame by reflexivity.
    assert (tables_of db1 uid = unlockedTables u) as Ht
      by (unfold tables_of; rewrite Hsame, Hu; reflexivity).
    destruct (shouldUnlockNextTable (progress_findMany db1 uid) (tables_of db1 uid)) eqn:Hs.
    + apply shouldUnlockNextTable_lt in Hs. split.
      * exists (unlockedTables u + 1). rewrite user_findUnique_update, Hsame, Hu, Hid.
        rewrite String.eqb_refl, Ht. split; [reflexivity | right; lia].
      * intros v Hv. rewrite user_findUnique_update, Hsame.
        destruct (user_findUnique db v) as [w|] eqn:Hw; [|reflexivity].
        apply user_findUnique_id in Hw.
        destruct (String.eqb_spec (user_id w) uid); [congruence | reflexivity].
    + split; [|intros v _; apply Hsame].
      exists (unlockedTables u). rewrite Hsame, Hu. split; [congruence | left; reflexivity].
  - unfold POST. rewrite Hfind. cbn [fst]. split; [|reflexivity].
    exists (unlockedTables u). rewrite Hu. split; [congruence | left; reflexivity].
Qed.

Lemma POST_opens_at_most_one_table_witness :
  exists n',
    user_findUnique
      (fst (POST (Some "u"%string) (mkRequest 1 1 1 (ofZ 2)) (ofZ 1000) (ofZ 2000) sample_db))
      "u" = Some (mkUser "u" n')
    /\ (n' = 2 \/ (n' = 2 + 1 /\ 2 < 12)).
Proof.
  apply (POST_opens_at_most_one_table "u" (mkRequest 1 1 1 (ofZ 2)) (ofZ 1000) (ofZ 2000)
           sample_db (mkUser "u" 2)).
  reflexivity.
Defined.

Lemma progress_findMany_In (db : DB) (uid : string) (row : ProblemProgress) :
  In row (progress_findMany db uid) <-> In row (problemProgress db) /\ userId row = uid.
Proof.
  unfold progress_findMany. rewrite filter_In, String.eqb_eq. reflexivity.
Qed.

(** X9: the next problem of an answered request is never the problem just
    answered; it is the problem of a row of the signed-in user and both
    its factors are among the open tables listed in the response. When the
    response lists table 1 alone and the problem answered was 1 x 1, there
    is no next problem. *)
Theorem POST_next_problem (uid : string) (request : AnswerRequest)
    (now_update now_select : number) (db : DB)
    (correct : bool) (nextProblem : option Problem) (view : StatsView) :
  snd (POST (Some uid) request now_update now_select db)
  = mkResponse 200 (AnswerBody correct nextProblem view) ->
  (forall p, nextProblem = Some p ->
     p <> mkProblem (req_problemA request) (req_problemB request)
     /\ In (a p) (unlockedTablesShown view)
     /\ In (b p) (unlockedTablesShown view)
     /\ exists row,
          In row (problemProgress (fst (POST (Some uid) request now_update now_select db)))
          /\ userId row = uid /\ problem_of row = p)
  /\ (unlockedTablesShown view = [1] ->
      req_problemA request = 1 -> req_problemB request = 1 ->
      nextProblem = None).
Proof.
  intros H. destruct (POST_200 _ _ _ _ _ _ _ _ H) as (current & Hfind & Hdate & HP).
  revert H. rewrite (POST_ok_rows _ _ _ _ _ _ Hfind Hdate).
  rewrite HP. cbn [snd].
  set (db1 := progress_update db (id current) _).
  set (tables := if shouldUnlockNextTable _ _ then _ else _).
  intros [= <- <- <-]. cbn [stats_view unlockedTablesShown]. split.
  - intros p Hp. apply selectNextProblem_Some in Hp as ((row & Hin & Hrow) & Hu & Hl).
    apply isProblemUnlocked_In in Hu as [Ha Hb].
    split; [congruence|]. split; [exact Ha|]. split; [exact Hb|].
    apply progress_findMany_In in Hin as [Hin Huid]. exists row. auto.
  - intros Hshown HA HB. apply selectNextProblem_None_iff.
    intros row _ Hu. apply isProblemUnlocked_In in Hu as [Ha Hb].
    rewrite Hshown in Ha, Hb. cbn [In] in Ha, Hb.
    unfold problem_of. rewrite HA, HB.
    destruct Ha as [<- | []], Hb as [<- | []]. reflexivity.
Qed.

Lemma POST_next_problem_witness :
  snd (POST (Some "u"%string) (mkRequest 1 1 1 (ofZ 2)) (ofZ 1000) (ofZ 2000)
            (mkDB [sample_row 2 1 1] [mkUser "u" 1]))
  = mkResponse 200
      (AnswerBody true None
         (stats_view [with_stats (sample_row 2 1 1)
                        (calculateNewStats (sample_row 2 1 1) true (ofZ 2) (ofZ 1000))] 1))
  /\ (None : option Problem) = None.
Proof.
  assert (snd (POST (Some "u"%string) (mkRequest 1 1 1 (ofZ 2)) (ofZ 1000) (ofZ 2000)
                    (mkDB [sample_row 2 1 1] [mkUser "u" 1]))
          = mkResponse 200
              (AnswerBody true None
                 (stats_view [with_stats (sample_row 2 1 1)
                                (calculateNewStats (sample_row 2 1 1) true (ofZ 2) (ofZ 1000))] 1)))
    as H by (vm_compute; reflexivity).
  split; [exact H|].
  destruct (POST_next_problem _ _ _ _ _ _ _ _ H) as [_ Hnone].
  apply Hnone; vm_compute; reflexivity.
Defined.

Lemma nth_error_not_in_firstn {A : Type} (l : list A) (k : nat) (t : A) :
  List.NoDup l -> nth_error l k = Some t -> ~ In t (firstn k l).
Proof.
  intros Hnd. revert k. induction Hnd as [ | y l Hy Hnd IH ]; intros k.
  - destruct k; discriminate.
  - destruct k as [ | k ]; cbn [nth_error firstn]; [intros _ []|].
    intros Hk [-> | Hin].
    + apply Hy. apply (nth_error_In _ _ Hk).
    + apply (IH k Hk Hin).
Qed.

Lemma TABLE_ORDER_NoDup : List.NoDup TABLE_ORDER.
Proof.
  unfold TABLE_ORDER. repeat constructor; cbn [In]; lia.
Qed.

Lemma stats_view_facts (rows : list ProblemProgress) (tables : Z) :
  (mastered (stats_view rows tables) <= unlocked (stats_view rows tables) <= length rows)%nat
  /\ (forall t, nextTable (stats_view rows tables) = Some t ->
        In t TABLE_ORDER /\ ~ In t (unlockedTablesShown (stats_view rows tables)))
  /\ (12 <= tables ->
      nextTable (stats_view rows tables) = None
      /\ unlockedTablesShown (stats_view rows tables) = TABLE_ORDER).
Proof.
  unfold stats_view. cbn zeta. cbn [mastered unlocked nextTable unlockedTablesShown].
  change (Z.of_nat (length TABLE_ORDER)) with 12.
  split; [split; apply List.filter_length_le|]. split.
  - intros t. destruct (Z.ltb_spec tables 12); [|discriminate].
    destruct (Z.leb_spec 0 tables); [|discriminate].
    intros Ht. split; [apply (nth_error_In _ _ Ht)|].
    rewrite slice0_nonneg by lia.
    apply nth_error_not_in_firstn; [exact TABLE_ORDER_NoDup | exact Ht].
  - intros Ht. destruct (Z.ltb_spec tables 12); [lia|].
    split; [reflexivity|]. apply slice0_all. cbn. lia.
Qed.

(** X10: the stats of a 200 response of the answer route are consistent:
    the mastered count is at most the unlocked count, which is at most the
    number of rows of the user; the next table, when there is one, is a
    table that is not among the open tables shown; and with twelve or more
    tables open all twelve are shown and there is no next table. *)
Theorem POST_stats_consistent (uid : string) (request : AnswerRequest)
    (now_update now_select : number) (db : DB)
    (correct : bool) (nextProblem : option Problem) (view : StatsView) :
  snd (POST (Some uid) request now_update now_select db)
  = mkResponse 200 (AnswerBody correct nextProblem view) ->
  (mastered view <= unlocked view
   <= length (progress_findMany
                (fst (POST (Some uid) request now_update now_select db)) uid))%nat
  /\ (forall t, nextTable view = Some t ->
        In t TABLE_ORDER /\ ~ In t (unlockedTablesShown view))
  /\ (12 <= tables_of (fst (POST (Some uid) request now_update now_select db)) uid ->
      nextTable view = None /\ unlockedTablesShown view = TABLE_ORDER).
Proof.
  intros H. destruct (POST_200 _ _ _ _ _ _ _ _ H) as (current & Hfind & Hdate & HP).
  revert H. rewrite HP. cbn [snd fst].
  set (db1 := progress_update db (id current) _).
  intros [= <- <- <-].
  destruct (shouldUnlockNextTable (progress_findMany db1 uid) (tables_of db1 uid)) eqn:Hs.
  - destruct (stats_view_facts (progress_findMany db1 uid) (tables_of db1 uid + 1))
      as (H1 & H2 & H3).
    split; [exact H1|]. split; [exact H2|].
    intros H12. apply H3. apply shouldUnlockNextTable_lt in Hs.
    unfold tables_of in *. rewrite user_findUnique_update in H12.
    change (user_findUnique db1 uid) with (user_findUnique db uid) in *.
    destruct (user_findUnique db uid) as [w|] eqn:Hw; [|lia].
    apply user_findUnique_id in Hw. rewrite Hw, String.eqb_refl in H12.
    cbn [unlockedTables] in H12. lia.
  - destruct (stats_view_facts (progress_findMany db1 uid) (tables_of db1 uid))
      as (H1 & H2 & H3).
    split; [exact H1|]. split; [exact H2 | exact H3].
Qed.

Lemma POST_stats_consistent_witness :
  snd (POST (Some "u"%string) (mkRequest 1 1 3 (ofZ 2)) (ofZ 1000) (ofZ 2000) sample_db)
  = mkResponse 200
      (AnswerBody false (Some (mkProblem 10 1)) (mkStatsView 0 2 1 0 [1; 10] (Some 5)))
  /\ In 5 TABLE_ORDER /\ ~ In 5 [1; 10].
Proof.
  assert (snd (POST (Some "u"%string) (mkRequest 1 1 3 (ofZ 2)) (ofZ 1000) (ofZ 2000)
                    sample_db)
          = mkResponse 200
              (AnswerBody false (Some (mkProblem 10 1))
                 (mkStatsView 0 2 1 0 [1; 10] (Some 5))))
    as H by (vm_compute; reflexivity).
  split; [exact H|].
  destruct (POST_stats_consistent _ _ _ _ _ _ _ _ H) as (_ & Ht & _).
  apply (Ht 5). reflexivity.
Defined.

(** * The reset route *)

Lemma filter_filter_other (uid v : string) (l : list ProblemProgress) :
  v <> uid ->
  List.filter (fun p => String.eqb (userId p) v)
              (List.filter (fun p => negb (String.eqb (userId p) uid)) l)
  = List.filter (fun p => String.eqb (userId p) v) l.
Proof.
  intros Hv. induction l as [ | y l IH ]; [reflexivity|]. cbn [List.filter].
  destruct (String.eqb_spec (userId y) uid) as [E | E]; cbn [negb List.filter].
  - destruct (String.eqb_spec (userId y) v); [congruence | exact IH].
  - rewrite IH. reflexivity.
Qed.

Lemma filter_idem {A : Type} (f : A -> bool) (l : list A) :
  List.filter f (List.filter f l) = List.filter f l.
Proof.
  induction l as [ | y l IH ]; [reflexivity|]. cbn [List.filter].
  destruct (f y) eqn:E; [cbn [List.filter]; rewrite E, IH; reflexivity | exact IH].
Qed.

Lemma POST_reset_fst (uid : string) (db : DB) :
  fst (POST_reset (Some uid) db)
  = match user_findUnique db uid with
    | Some _ => user_update (progress_deleteMany db uid) uid 1
    | None => progress_deleteMany db uid
    end.
Proof.
  unfold POST_reset.
  change (user_findUnique (progress_deleteMany db uid) uid) with (user_findUnique db uid).
  destruct (user_findUnique db uid); reflexivity.
Qed.

Lemma progress_findMany_deleted (uid : string) (db : DB) :
  progress_findMany (progress_deleteMany db uid) uid = [].
Proof.
  unfold progress_findMany, progress_deleteMany. cbn [problemProgress].
  apply filter_nil_iff.
  intros p Hp. apply filter_In in Hp as [_ Hp]. apply negb_true_iff. exact Hp.
Qed.

(** X11: the reset route deletes exactly the rows of the signed-in user
    and sets that user's count of open tables to 1; rows and counts of
    other users stay as they were; resetting twice is the same as
    resetting once; without a session nothing changes and the answer is
    401; and when the user has no record the rows are deleted all the same
    but the request fails with status 500. *)
Theorem POST_reset_spec (uid : string) (db : DB) :
  let db' := fst (POST_reset (Some uid) db) in
  (forall p, In p (problemProgress db') <-> In p (problemProgress db) /\ userId p <> uid)
  /\ progress_findMany db' uid = []
  /\ (forall v, v <> uid ->
        progress_findMany db' v = progress_findMany db v
        /\ user_findUnique db' v = user_findUnique db v)
  /\ (forall u, user_findUnique db uid = Some u ->
        reset_status (snd (POST_reset (Some uid) db)) = 200
        /\ user_findUnique db' uid = Some (mkUser uid 1))
  /\ (user_findUnique db uid = None ->
      reset_status (snd (POST_reset (Some uid) db)) = 500)
  /\ fst (POST_reset (Some uid) db') = db'
  /\ POST_reset None db = (db, mkResetResponse 401 (ResetError "Unauthorized")).
Proof.
  cbn zeta. unfold POST_reset.
  change (user_findUnique (progress_deleteMany db uid) uid) with (user_findUnique db uid).
  assert (problemProgress
            (fst (match user_findUnique db uid with
                  | Some _ => (user_update (progress_deleteMany db uid) uid 1,
                               mkResetResponse 200 (ResetSuccess true))
                  | None => (progress_deleteMany db uid, mkResetResponse 500 ResetThrown)
                  end))
          = List.filter (fun p => negb (String.eqb (userId p) uid)) (problemProgress db))
    as Hrows by (destruct (user_findUnique db uid); reflexivity).
  split; [|split; [|split; [|split; [|split; [|split]]]]].
  - intros p. rewrite Hrows, filter_In, negb_true_iff, String.eqb_neq. reflexivity.
  - unfold progress_findMany. rewrite Hrows. apply filter_nil_iff.
    intros p Hp. apply filter_In in Hp as [_ Hp]. apply negb_true_iff. exact Hp.
  - intros v Hv. split.
    + unfold progress_findMany. rewrite Hrows. apply filter_filter_other. exact Hv.
    + destruct (user_findUnique db uid) as [u|] eqn:Hu; cbn [fst]; [|reflexivity].
      rewrite user_findUnique_update.
      change (user_findUnique (progress_deleteMany db uid) v) with (user_findUnique db v).
      destruct (user_findUnique db v) as [w|] eqn:Hw; [|reflexivity].
      apply user_findUnique_id in Hw.
      destruct (String.eqb_spec (user_id w) uid); [congruence | reflexivity].
  - intros u Hu. rewrite Hu. cbn [fst snd reset_status]. split; [reflexivity|].
    rewrite user_findUnique_update.
    change (user_findUnique (progress_deleteMany db uid) uid) with (user_findUnique db uid).
    rewrite Hu. rewrite (user_findUnique_id _ _ _ Hu), String.eqb_refl. reflexivity.
  - intros ->. reflexivity.
  - destruct (user_findUnique db uid) as [u|] eqn:Hu; cbn [fst].
    + change (user_findUnique
                (progress_deleteMany (user_update (progress_deleteMany db uid) uid 1) uid) uid)
        with (user_findUnique (user_update (progress_deleteMany db uid) uid 1) uid).
      rewrite user_findUnique_update.
      change (user_findUnique (progress_deleteMany db uid) uid) with (user_findUnique db uid).
      rewrite Hu. cbn [fst].
      unfold progress_deleteMany, user_update. cbn [problemProgress user].
      rewrite filter_idem. f_equal. rewrite map_map. apply map_ext. intros w.
      destruct (String.eqb (user_id w) uid) eqn:E; cbn [user_id]; rewrite E; reflexivity.
    + change (user_findUnique (progress_deleteMany (progress_deleteMany db uid) uid) uid)
        with (user_findUnique db uid).
      rewrite Hu. cbn [fst]. unfold progress_deleteMany. cbn [problemProgress user].
      rewrite filter_idem. reflexivity.
  - reflexivity.
Qed.

Lemma POST_reset_spec_witness :
  reset_status (snd (POST_reset (Some "u"%string) sample_db)) = 200
  /\ user_findUnique (fst (POST_reset (Some "u"%string) sample_db)) "u"
     = Some (mkUser "u" 1).
Proof.
  apply (POST_reset_spec "u" sample_db) with (u := mkUser "u" 2). reflexivity.
Defined.

(** * Problem keys *)

Lemma pretty_N_char_not_x (n : N) : pretty_N_char n <> "x"%char.
Proof. unfold pretty_N_char. repeat case_match; discriminate. Qed.

Lemma pretty_N_go_no_x (n : N) (s : string) :
  ~ In "x"%char (list_ascii_of_string s) ->
  ~ In "x"%char (list_ascii_of_string (pretty_N_go n s)).
Proof.
  revert s. induction (N.lt_wf_0 n) as [n _ IH]; intros s Hs.
  destruct (N.eq_dec n 0%N) as [-> | Hn].
  - rewrite pretty_N_go_0. exact Hs.
  - rewrite pretty_N_go_step by lia. apply IH.
    + apply N.div_lt; lia.
    + cbn [list_ascii_of_string In]. intros [Hc | Hin].
      * apply (pretty_N_char_not_x _ Hc).
      * apply Hs. exact Hin.
Qed.

Lemma pretty_N_no_x (n : N) : ~ In "x"%char (list_ascii_of_string (pretty n)).
Proof.
  unfold pretty, pretty_N. destruct (decide (n = 0%N)).
  - cbn. intros [H | []]. discriminate.
  - apply pretty_N_go_no_x. intros [].
Qed.

Lemma pretty_Z_no_x (z : Z) : ~ In "x"%char (list_ascii_of_string (pretty z)).
Proof.
  unfold pretty, pretty_Z. destruct z as [ | p | p ].
  - cbn. intros [H | []]. discriminate.
  - apply (pretty_N_no_x (N.pos p)).
  - cbn [String.append list_ascii_of_string In]. intros [H | H]; [discriminate|].
    apply (pretty_N_no_x (N.pos p) H).
Qed.

Lemma append_x_inj (s1 t1 s2 t2 : string) :
  ~ In "x"%char (list_ascii_of_string s1) ->
  ~ In "x"%char (list_ascii_of_string s2) ->
  s1 +:+ String "x" t1 = s2 +:+ String "x" t2 -> s1 = s2 /\ t1 = t2.
Proof.
  revert s2. induction s1 as [ | c s1 IH ]; intros [ | d s2 ] H1 H2;
    cbn [String.append list_ascii_of_string In] in *.
  - intros [= ->]. auto.
  - intros [= <- _]. exfalso. apply H2. left. reflexivity.
  - intros [= -> _]. exfalso. apply H1. left. reflexivity.
  - intros [= -> Hrest]. destruct (IH s2) as [-> ->]; auto.
Qed.

(** X12: [problemKey] tells problems apart: two pairs of integer factors
    have the same key only if they are the same pair, and the key of
    factors 3 and 12 is "3x12". *)
Theorem problemKey_inj (x y x' y' : Z) :
  (problemKey x y = problemKey x' y' -> x = x' /\ y = y')
  /\ problemKey 3 12 = "3x12"%string.
Proof.
  split; [|reflexivity].
  unfold problemKey. intros H.
  apply append_x_inj in H as [Hx Hy]; try apply pretty_Z_no_x.
  split; [apply (inj pretty); exact Hx | apply (inj pretty); exact Hy].
Qed.

Lemma problemKey_inj_witness : 3 = 3 /\ 12 = 12.
Proof.
  apply (problemKey_inj 3 12 3 12). reflexivity.
Defined.

(** * The next-problem route *)

Lemma existingKeys_spec (rows : list ProblemProgress) (x y : Z) :
  problemKey x y ∈ existingKeys rows
  <-> exists row, In row rows /\ problemA row = x /\ problemB row = y.
Proof.
  unfold existingKeys. rewrite elem_of_list_to_set, list_elem_of_In, in_map_iff.
  split.
  - intros (row & Hk & Hin). exists row. split; [exact Hin|].
    unfold problemKey in Hk.
    apply append_x_inj in Hk as [Hx Hy]; try apply pretty_Z_no_x.
    split; apply (inj pretty); assumption.
  - intros (row & Hin & <- & <-). exists row. split; [reflexivity | exact Hin].
Qed.


Lemma progress_findMany_created (new_id : Problem -> Z) (db : DB) (uid : string)
    (now : Date) (problems : list Problem) :
  progress_findMany (progress_createMany new_id db uid now problems) uid
  = progress_findMany db uid
    ++ map (fun p => mkProgress (new_id p) uid (a p) (b p) (initial_state now)) problems.
Proof.
  unfold progress_findMany, progress_createMany. cbn [problemProgress].
  rewrite List.filter_app. f_equal.
  induction problems as [ | p l IH ]; [reflexivity|].
  cbn [map List.filter userId]. rewrite String.eqb_refl, IH. reflexivity.
Qed.

Lemma GET_ok (new_id : Problem -> Z) (uid : string) (now_create now_select : number)
    (db : DB) :
  let created :=
    map (fun p => mkProgress (new_id p) uid (a p) (b p) (initial_state now_create))
        (missingProblems (progress_findMany db uid)) in
  let rows := progress_findMany db uid ++ created in
  exists db',
    GET new_id (Some uid) now_create now_select db
    = (db', mkNextResponse 200
              (NextProblem (selectNextProblem rows (tables_of db uid) None now_select)
                           (stats_view rows (tables_of db uid))))
    /\ problemProgress db' = problemProgress db ++ created
    /\ user db' = user db
    /\ progress_findMany db' uid = rows.
Proof.
  cbn zeta. unfold GET. fold (tables_of db uid).
  destruct (missingProblems (progress_findMany db uid)) as [ | m ms ] eqn:Hm.
  - cbn [length Nat.ltb Nat.leb map]. rewrite app_nil_r.
    eexists. split; [reflexivity|]. rewrite app_nil_r. auto.
  - change (0 <? length (m :: ms))%nat with true. cbn iota beta zeta.
    rewrite progress_findMany_created.
    eexists. split; [reflexivity|]. split; [reflexivity|]. split; [reflexivity|].
    apply progress_findMany_created.
Qed.

Lemma GET_rows_cover (new_id : Problem -> Z) (uid : string) (now : Date)
    (rows : list ProblemProgress) (p : Problem) :
  In p generateAllProblems ->
  exists row,
    In row (rows ++ map (fun q => mkProgress (new_id q) uid (a q) (b q) (initial_state now))
                        (missingProblems rows))
    /\ problem_of row = p.
Proof.
  intros Hp.
  destruct (bool_decide (problemKey (a p) (b p) ∈ existingKeys rows)) eqn:E.
  - apply bool_decide_eq_true in E. apply existingKeys_spec in E as (row & Hin & HA & HB).
    exists row. split; [apply in_or_app; left; exact Hin|].
    unfold problem_of. rewrite HA, HB. destruct p; reflexivity.
  - exists (mkProgress (new_id p) uid (a p) (b p) (initial_state now)).
    split; [|destruct p; reflexivity].
    apply in_or_app. right. apply in_map_iff. exists p. split; [reflexivity|].
    unfold missingProblems. apply filter_In. split; [exact Hp|]. rewrite E. reflexivity.
Qed.



Lemma isProblemUnlocked_one_one (n : Z) : 1 <= n -> isProblemUnlocked 1 1 n = true.
Proof.
  intros Hn. apply isProblemUnlocked_In. rewrite slice0_nonneg by lia.
  destruct (Z.to_nat n) as [ | k ] eqn:E; [lia|].
  unfold TABLE_ORDER. cbn [firstn In]. auto.
Qed.

(** X14: with at least one table open, the next-problem route always
    returns a problem, never null; the problem is unlocked, and with
    exactly one table open it is 1 x 1. *)
Theorem GET_offers_problem (new_id : Problem -> Z) (uid : string)
    (now_create now_select : number) (db : DB) :
  1 <= tables_of db uid ->
  exists p view,
    snd (GET new_id (Some uid) now_create now_select db)
    = mkNextResponse 200 (NextProblem (Some p) view)
    /\ isProblemUnlocked (a p) (b p) (tables_of db uid) = true
    /\ (tables_of db uid = 1 -> p = mkProblem 1 1).
Proof.
  intros Ht.
  destruct (GET_ok new_id uid now_create now_select db) as (db' & -> & _).
  cbn [snd].
  set (rows := progress_findMany db uid ++ _).
  destruct (selectNextProblem rows (tables_of db uid) None now_select) as [p|] eqn:Hsel.
  - exists p, (stats_view rows (tables_of db uid)). split; [reflexivity|].
    apply selectNextProblem_Some in Hsel as (_ & Hu & _). split; [exact Hu|].
    intros H1. rewrite H1 in Hu. apply isProblemUnlocked_In in Hu as [Ha Hb].
    cbn in Ha, Hb. destruct Ha as [Ha | []], Hb as [Hb | []].
    destruct p as [x y]. cbn [a b] in *. congruence.
  - exfalso. rewrite selectNextProblem_None_iff in Hsel.
    destruct (GET_rows_cover new_id uid now_create (progress_findMany db uid)
                (mkProblem 1 1)) as (row & Hin & Hrow).
    { apply generateAllProblems_In. cbn [a b]. lia. }
    specialize (Hsel row Hin).
    injection Hrow as HA HB. rewrite HA, HB in Hsel.
    specialize (Hsel (isProblemUnlocked_one_one _ Ht)). discriminate.
Qed.

Lemma GET_offers_problem_witness :
  exists p view,
    snd (GET (fun p => 12 * a p + b p) (Some "u"%string) (ofZ 5) (ofZ 6) sample_db)
    = mkNextResponse 200 (NextProblem (Some p) view)
    /\ isProblemUnlocked (a p) (b p) 2 = true.
Proof.
  destruct (GET_offers_problem (fun p => 12 * a p + b p) "u" (ofZ 5) (ofZ 6) sample_db)
    as (p & view & H1 & H2 & _).
  - vm_compute. discriminate.
  - exists p, view. split; [exact H1 | exact H2].
Defined.

Lemma filter_all {A : Type} (f : A -> bool) (l : list A) :
  (forall x, In x l -> f x = true) -> List.filter f l = l.
Proof.
  induction l as [ | y l IH ]; intros H; [reflexivity|]. cbn [List.filter].
  rewrite (H y (or_introl eq_refl)), IH; [reflexivity|].
  intros x Hx. apply H. right. exact Hx.
Qed.

Lemma missingProblems_nil : missingProblems [] = generateAllProblems.
Proof.
  unfold missingProblems. apply filter_all. intros p _. apply negb_true_iff.
  apply bool_decide_eq_false. rewrite existingKeys_spec. intros (row & [] & _).
Qed.

(** X15: after a reset, the next request for a problem gives the user the
    144 rows of the universe afresh, in the order of
    [generateAllProblems] and in the initial state, and offers 1 x 1 with
    table 1 alone open, nothing mastered and no answer counted. *)
Theorem reset_then_GET (new_id : Problem -> Z) (uid : string)
    (now_create now_select : number) (db : DB) (u : User) :
  user_findUnique db uid = Some u ->
  let db1 := fst (POST_reset (Some uid) db) in
  let result := GET new_id (Some uid) now_create now_select db1 in
  progress_findMany (fst result) uid
  = map (fun p => mkProgress (new_id p) uid (a p) (b p) (initial_state now_create))
        generateAllProblems
  /\ exists view,
       snd result = mkNextResponse 200 (NextProblem (Some (mkProblem 1 1)) view)
       /\ unlockedTablesShown view = [1]
       /\ mastered view = 0%nat /\ unlocked view = 1%nat /\ total view = 0.
Proof.
  intros Hu. cbn zeta. rewrite POST_reset_fst, Hu.
  set (db1 := user_update (progress_deleteMany db uid) uid 1).
  assert (progress_findMany db1 uid = []) as Hnone by apply progress_findMany_deleted.
  assert (tables_of db1 uid = 1) as Ht.
  { unfold tables_of, db1. rewrite user_findUnique_update.
    change (user_findUnique (progress_deleteMany db uid) uid) with (user_findUnique db uid).
    rewrite Hu, (user_findUnique_id _ _ _ Hu), String.eqb_refl. reflexivity. }
  destruct (GET_ok new_id uid now_create now_select db1) as (db' & -> & _ & _ & Hmany).
  cbn [fst snd]. rewrite Hmany, Hnone, Ht, missingProblems_nil. cbn [app].
  split; [reflexivity|].
  set (rows := map _ generateAllProblems).
  exists (stats_view rows 1). split; [|repeat split; vm_compute; reflexivity].
  do 2 f_equal.
  destruct (selectNextProblem rows 1 None now_select) as [p|] eqn:Hsel.
  - apply selectNextProblem_Some in Hsel as (_ & Hun & _).
    apply isProblemUnlocked_In in Hun as [Ha Hb].
    cbn in Ha, Hb. destruct Ha as [Ha | []], Hb as [Hb | []].
    destruct p as [x y]. cbn [a b] in *. congruence.
  - exfalso. rewrite selectNextProblem_None_iff in Hsel.
    specialize (Hsel (mkProgress (new_id (mkProblem 1 1)) uid 1 1 (initial_state now_create))).
    assert (None = Some (mkProblem 1 1)) as Habs; [|discriminate Habs].
    apply Hsel; [|reflexivity].
    subst rows. apply in_map_iff. exists (mkProblem 1 1). split; [reflexivity|].
    apply generateAllProblems_In. cbn [a b]. lia.
Qed.

Lemma reset_then_GET_witness :
  exists view,
    snd (GET (fun p => 12 * a p + b p) (Some "u"%string) (ofZ 5) (ofZ 6)
             (fst (POST_reset (Some "u"%string) sample_db)))
    = mkNextResponse 200 (NextProblem (Some (mkProblem 1 1)) view)
    /\ unlockedTablesShown view = [1].
Proof.
  destruct (reset_then_GET (fun p => 12 * a p + b p) "u" (ofZ 5) (ofZ 6)
              sample_db (mkUser "u" 2)) as (_ & view & H1 & H2 & _).
  - reflexivity.
  - exists view. split; [exact H1 | exact H2].
Defined.

(** * More on binary64 arithmetic: integers and products *)

Lemma pow2s_split (e : Z) : -1074 <= e -> e <= 0 -> pow2s 0 = pow2s e * 2 ^ (- e).
Proof.
  intros H1 H2. rewrite <- pow2s_add by lia. f_equal. lia.
Qed.

Lemma SFleb_antisym_val (x y : number) :
  finite_ok x -> finite_ok y -> SFleb x y = true -> SFleb y x = true ->
  SFval x = SFval y.
Proof.
  intros Hx Hy H1 H2.
  rewrite SFleb_val in H1, H2 by assumption. apply Z.leb_le in H1, H2. lia.
Qed.

(** Integers below 2^53 are numbers: [ofZ] is exact on them. *)
Lemma ofZ_exact (z : Z) :
  - 2 ^ 53 < z < 2 ^ 53 -> finite_ok (ofZ z) /\ SFval (ofZ z) = z * pow2s 0.
Proof.
  intros Hz. unfold ofZ.
  pose proof (binary_normalize_spec z 0 ltac:(lia)) as (V & N & Hlb & Hub).
  destruct (Z.eq_dec z 0) as [-> | Hne]; [split; [split|]; reflexivity|].
  (* the number with the value of |z|, normalised to 53 digits *)
  set (M := Z.to_pos (Z.abs z)).
  assert (Z.pos M = Z.abs z) as HM by (subst M; lia).
  pose proof (digits_bounds M) as [Dl Du].
  set (d := Z.pos (digits2_pos M)) in *.
  assert (d <= 53) as Hd.
  { subst d. apply digits_le; [lia|]. rewrite HM. lia. }
  assert (0 < 2 ^ (53 - d)) as Hp by (apply Z.pow_pos_nonneg; lia).
  set (m := Z.to_pos (Z.pos M * 2 ^ (53 - d))).
  assert (Z.pos m = Z.pos M * 2 ^ (53 - d)) as Hm by (subst m; lia).
  assert (2 ^ 53 = 2 ^ d * 2 ^ (53 - d)) as H53.
  { rewrite <- Z.pow_add_r by lia. f_equal. lia. }
  assert (2 ^ 52 = 2 ^ (d - 1) * 2 ^ (53 - d)) as H52.
  { rewrite <- Z.pow_add_r by lia. f_equal. lia. }
  set (f := S754_finite (z <? 0) m (d - 53)).
  assert (finite_ok f) as Ff.
  { split; [|reflexivity]. cbn [valid_binary f].
    apply bounded_intro; [lia | rewrite Hm, H53; nia | intros _; rewrite Hm, H52; nia]. }
  assert (SFval f = z * pow2s 0) as Vf.
  { subst f. cbn [SFval]. rewrite Hm, (pow2s_split (d - 53)) by lia.
    replace (- (d - 53)) with (53 - d) by lia.
    destruct (Z.ltb_spec z 0); cbn [cond_Zopp]; nia. }
  assert (SFleb f (binary_normalize prec emax z 0 false) = true) as H1
    by (apply Hlb; [exact Ff | lia]).
  assert (SFleb (binary_normalize prec emax z 0 false) f = true) as H2
    by (apply Hub; [exact Ff | lia]).
  assert (finite_ok (binary_normalize prec emax z 0 false)) as Fz
    by (apply (fin_between f f); auto; split; assumption).
  split; [exact Fz|]. rewrite <- Vf. apply SFleb_antisym_val; assumption.
Qed.

Lemma ofZ_mono (z k : Z) :
  - 2 ^ 53 < z < 2 ^ 53 -> z <= k -> SFleb (ofZ z) (ofZ k) = true.
Proof.
  intros Hz Hk. destruct (ofZ_exact z Hz) as [Fz Vz].
  pose proof (binary_normalize_spec k 0 ltac:(lia)) as (_ & _ & Hlb & _).
  apply Hlb; [exact Fz|]. rewrite Vz. pose proof (pow2s_pos 0 ltac:(lia)). nia.
Qed.

(** A number that is at least 1 is positive and normal. *)
Lemma at_least_one_normal (x : number) :
  finite_ok x -> pow2s 0 <= SFval x ->
  exists m e, x = S754_finite false m e /\ -52 <= e <= 971
              /\ 2 ^ 52 <= Z.pos m < 2 ^ 53.
Proof.
  intros [V F] H1. pose proof (pow2s_pos 0 ltac:(lia)) as P0.
  destruct x as [s| | |s m e]; try discriminate; cbn [SFval] in H1; [lia|].
  cbn [valid_binary] in V. apply bounded_facts in V as (He & Hu & Hl).
  pose proof (pow2s_pos e ltac:(lia)) as Pe.
  destruct s; cbn [cond_Zopp] in H1; [nia|].
  assert (-52 <= e) as He52.
  { destruct (Z_le_gt_dec (-52) e) as [ | Hlt]; [assumption|]. exfalso.
    rewrite (pow2s_split e) in H1 by lia.
    assert (2 ^ 53 <= 2 ^ (- e)) by (apply Z.pow_le_mono_r; lia). nia. }
  exists m, e. split; [reflexivity|]. split; [lia|]. split; [apply Hl; lia | exact Hu].
Qed.

(** The product of two numbers that are at least 1 is a number or plus
    infinity, and it is at least any number below the exact product. *)
Lemma SFmul_lower (x y : number) :
  finite_ok x -> finite_ok y -> pow2s 0 <= SFval x -> pow2s 0 <= SFval y ->
  num_ok (SFmul prec emax x y)
  /\ forall lb, finite_ok lb -> SFval lb * pow2s 0 <= SFval x * SFval y ->
                SFleb lb (SFmul prec emax x y) = true.
Proof.
  intros Fx Fy Hx Hy.
  destruct (at_least_one_normal x Fx Hx) as (mx & ex & -> & Hex & Hmx).
  destruct (at_least_one_normal y Fy Hy) as (my & ey & -> & Hey & Hmy).
  cbn [SFmul xorb SFval cond_Zopp] in *.
  assert (0 < 2 ^ 52) as P52 by (apply Z.pow_pos_nonneg; lia).
  assert (2 ^ 53 = 2 * 2 ^ 52) as E53 by (change 53 with (Z.succ 52); apply Z.pow_succ_r; lia).
  assert (2 ^ 104 = 2 ^ 52 * 2 ^ 52) as E104 by (rewrite <- Z.pow_add_r by lia; reflexivity).
  assert (2 ^ 106 = 2 ^ 53 * 2 ^ 53) as E106 by (rewrite <- Z.pow_add_r by lia; reflexivity).
  assert (2 ^ 104 <= Z.pos (mx * my) < 2 ^ 106) as HM by (rewrite Pos2Z.inj_mul; nia).
  assert (105 <= Z.pos (digits2_pos (mx * my))) as HD.
  { pose proof (digits_bounds (mx * my)) as [_ Du].
    destruct (Z_le_gt_dec 105 (Z.pos (digits2_pos (mx * my)))); [assumption|].
    assert (2 ^ Z.pos (digits2_pos (mx * my)) <= 2 ^ 104) by (apply Z.pow_le_mono_r; lia).
    lia. }
  destruct (round_aux_spec (mx * my) (ex + ey)) as (q & q2 & e2 & Hr & HF).
  { lia. } { rewrite fexp_eq. lia. }
  rewrite Hr.
  assert (round_facts (Z.pos (mx * my) * pow2s (ex + ey)) q q2
            (fexp prec emax (Z.pos (digits2_pos (mx * my)) + (ex + ey))) e2) as HF'.
  { split; [rewrite fexp_eq; lia | exact HF]. }
  assert (Z.pos (mx * my) * pow2s (ex + ey) * pow2s 0
          = Z.pos mx * pow2s ex * (Z.pos my * pow2s ey)) as HX.
  { rewrite Pos2Z.inj_mul. unfold pow2s.
    assert (2 ^ (ex + ey + 1074) * 2 ^ (0 + 1074) = 2 ^ (ex + 1074) * 2 ^ (ey + 1074)) as E.
    { rewrite <- !Z.pow_add_r by lia. f_equal. lia. }
    nia. }
  pose proof (pow2s_pos 0 ltac:(lia)) as P0.
  unfold rounded. split.
  - destruct (e2 <=? 971) eqn:E; [|split; reflexivity].
    apply finite_ok_num_ok. apply Z.leb_le in E. apply (rounded_fin _ _ _ _ _ HF' E).
  - intros lb Flb Hlb.
    assert (SFval lb <= Z.pos (mx * my) * pow2s (ex + ey)) as Hle by nia.
    pose proof (rounded_lower _ _ _ _ _ lb HF' Flb Hle) as Hlow.
    destruct (e2 <=? 971) eqn:E.
    + apply Z.leb_le in E. rewrite SFleb_val; [apply Z.leb_le; exact Hlow | exact Flb|].
      apply (rounded_fin _ _ _ _ _ HF' E).
    + destruct Flb as [_ F]. destruct lb; try discriminate; reflexivity.
Qed.

(** * How answers move the ease factor *)

Lemma ease_correct_ge (e r : number) :
  ease_ok e ->
  num_le e (Math_min (decimal 30 10) (num_add e (easeBonus r))) = true.
Proof.
  intros He. pose proof He as (_ & _ & Hhi3).
  apply ease_ok_val in He as (Fe & Hlo & Hhi).
  destruct (easeBonus_facts r) as (Fb & Hb0 & Hb4).
  destruct (SFadd_spec e (easeBonus r) Fe Fb) as (V & N & Hlb & Hub).
  fold (num_add e (easeBonus r)) in *.
  rewrite (Math_min_finite _ _ decimal_30_finite N).
  destruct (num_lt (num_add e (easeBonus r)) (decimal 30 10)); [|exact Hhi3].
  apply Hlb; [exact Fe | lia].
Qed.

Lemma ease_wrong_le (e : number) :
  ease_ok e ->
  num_le (Math_max (decimal 13 10) (num_sub e (decimal 2 10))) e = true.
Proof.
  intros He. pose proof He as (_ & Hlo13 & _).
  apply ease_ok_val in He as (Fe & Hlo & Hhi).
  destruct decimal_2_facts as [_ H2].
  destruct (SFsub_spec e (decimal 2 10) Fe finite_ok_decimal_2) as (V & N & Hlb & Hub).
  fold (num_sub e (decimal 2 10)) in *.
  rewrite (Math_max_finite _ _ decimal_13_finite N).
  destruct (num_lt (decimal 13 10) (num_sub e (decimal 2 10))); [|exact Hlo13].
  apply Hub; [exact Fe | lia].
Qed.

Lemma reachable_ease_ok (now0 : Date) (answers : list Answer) :
  ease_ok (easeFactor (after_answers (initial_state now0) answers)).
Proof.
  apply after_answers_inv; [exact ease_ok_decimal_25 | reflexivity].
Qed.

(** X16: in every reachable state a correct answer never lowers the ease
    factor and a wrong answer never raises it. *)
Theorem ease_moves_with_answers (now0 : Date) (answers : list Answer)
    (responseSecs now : number) :
  let s := after_answers (initial_state now0) answers in
  num_le (easeFactor s) (easeFactor (calculateNewStats s true responseSecs now)) = true
  /\ num_le (easeFactor (calculateNewStats s false responseSecs now)) (easeFactor s) = true.
Proof.
  cbn zeta. pose proof (reachable_ease_ok now0 answers) as He.
  split.
  - apply (ease_correct_ge _ responseSecs He).
  - apply (ease_wrong_le _ He).
Qed.

Lemma SFleb_trans_fin (x y z : number) :
  finite_ok x -> finite_ok y -> finite_ok z ->
  SFleb x y = true -> SFleb y z = true -> SFleb x z = true.
Proof.
  intros Hx Hy Hz H1 H2. rewrite SFleb_val in * by assumption.
  apply Z.leb_le in H1, H2. apply Z.leb_le. lia.
Qed.

Lemma finite_ok_decimal_20 : finite_ok (decimal 20 10).
Proof. split; vm_compute; reflexivity. Qed.

(** Along a run of correct answers the ease factor does not fall. *)
Lemma after_run_ease (run : list Answer) (st : Stats) :
  Forall (fun x => ans_correct x = true) run ->
  ease_ok (easeFactor st) -> nonneg (intervalDays st) ->
  num_le (easeFactor st) (easeFactor (after_answers st run)) = true.
Proof.
  intros Hrun. revert st. induction Hrun as [ | x run Hx _ IH ]; intros st He Hi.
  - cbn [after_answers fold_left]. destruct He as (Fe & _).
    unfold num_le. rewrite SFleb_val by assumption. apply Z.leb_le. lia.
  - cbn [after_answers fold_left].
    destruct (answer_step_inv st x He Hi) as [He' Hi'].
    specialize (IH (answer_step st x) He' Hi'). unfold after_answers in IH.
    destruct (after_answers_inv run (answer_step st x) He' Hi') as [He'' _].
    unfold after_answers in He''.
    apply (SFleb_trans_fin _ (easeFactor (answer_step st x)));
      [apply He | apply He' | apply He'' | | exact IH].
    unfold answer_step, calculateNewStats. rewrite Hx.
    cbn iota beta zeta; cbn [easeFactor].
    apply (ease_correct_ge _ _ He).
Qed.

(** A streak of [n] is a run of [n] correct answers at the end. *)
Lemma streak_is_suffix (answers : list Answer) (st : Stats) (n : nat) :
  consecutiveCorrect st = 0 ->
  Z.of_nat n <= consecutiveCorrect (after_answers st answers) ->
  exists earlier run,
    answers = earlier ++ run /\ length run = n
    /\ Forall (fun x => ans_correct x = true) run.
Proof.
  intros H0. revert n. induction answers as [ | x l IH ] using rev_ind; intros n Hn.
  - cbn [after_answers fold_left] in Hn. exists [], []. 
    assert (n = 0%nat) as -> by lia. repeat split. constructor.
  - destruct n as [ | n ].
    + exists (l ++ [x]), []. rewrite app_nil_r. repeat split. constructor.
    + unfold after_answers in Hn. rewrite fold_left_app in Hn.
      cbn [fold_left] in Hn.
      destruct (answer_step_counters (fold_left answer_step l st) x) as (_ & _ & Hc).
      rewrite Hc in Hn. destruct (ans_correct x) eqn:Hx; [|lia].
      destruct (IH n) as (earlier & run & -> & Hlen & Hrun).
      { unfold after_answers. lia. }
      exists earlier, (run ++ [x]). rewrite app_assoc. split; [reflexivity|].
      split; [rewrite length_app; cbn [length]; lia|].
      apply Forall_app. split; [exact Hrun|]. constructor; [exact Hx | constructor].
Qed.

(** X17: mastery along a history of answers.  A wrong answer always ends
    mastery; in a reachable state a correct answer keeps it; a mastered
    reachable state was reached by at least three correct answers in a row;
    and a fact answered correctly every time is mastered from the third
    answer on. *)
Theorem mastery_dynamics (now0 : Date) (answers : list Answer) :
  let s := after_answers (initial_state now0) answers in
  (forall (st : Stats) responseSecs now,
     isMastered (calculateNewStats st false responseSecs now) = false)
  /\ (isMastered s = true ->
      forall responseSecs now,
        isMastered (calculateNewStats s true responseSecs now) = true)
  /\ (isMastered s = true ->
      exists earlier x1 x2 x3,
        answers = earlier ++ [x1; x2; x3]
        /\ ans_correct x1 = true /\ ans_correct x2 = true /\ ans_correct x3 = true)
  /\ (Forall (fun x => ans_correct x = true) answers ->
      (3 <= length answers)%nat -> isMastered s = true).
Proof.
  cbn zeta. pose proof (reachable_ease_ok now0 answers) as He.
  split; [|split; [|split]].
  - intros st r now. reflexivity.
  - intros HM r now. unfold isMastered in *.
    apply andb_prop in HM as [Hc Hm]. apply andb_true_intro. split.
    + unfold calculateNewStats. cbn iota beta zeta; cbn [consecutiveCorrect].
      apply Z.geb_le in Hc. apply Z.geb_le. lia.
    + unfold num_ge in *.
      pose proof (ease_correct_ge _ r He) as Hup.
      pose proof (ease_ok_correct _ r He) as (Fe' & _).
      apply (SFleb_trans_fin _ _ _ finite_ok_decimal_20 (proj1 He) Fe' Hm Hup).
  - intros HM. unfold isMastered in HM. apply andb_prop in HM as [Hc _].
    apply Z.geb_le in Hc.
    destruct (streak_is_suffix answers (initial_state now0) 3 eq_refl)
      as (earlier & run & -> & Hlen & Hrun); [lia|].
    destruct run as [ | x1 [ | x2 [ | x3 [ | ]]]]; try discriminate Hlen.
    exists earlier, x1, x2, x3. split; [reflexivity|].
    inversion Hrun as [ | ? ? H1 Hr1 ]; subst.
    inversion Hr1 as [ | ? ? H2 Hr2 ]; subst.
    inversion Hr2 as [ | ? ? H3 _ ]; subst. auto.
  - intros Hrun Hlen. unfold isMastered. apply andb_true_intro. split.
    + rewrite (after_answers_run answers _ Hrun).
      cbn [initial_state consecutiveCorrect]. apply Z.geb_le. lia.
    + unfold num_ge.
      pose proof (after_run_ease answers (initial_state now0) Hrun
                    ease_ok_decimal_25 eq_refl) as Hup.
      cbn [initial_state easeFactor] in Hup.
      apply (SFleb_trans_fin _ (decimal 25 10) _ finite_ok_decimal_20
               (proj1 ease_ok_decimal_25) (proj1 He)); [|exact Hup].
      vm_compute. reflexivity.
Qed.

Lemma mastery_dynamics_witness :
  isMastered (after_answers (initial_state (ofZ 0))
                [mkAnswer true (ofZ 2) (ofZ 1000); mkAnswer true (ofZ 2) (ofZ 2000);
                 mkAnswer true (ofZ 2) (ofZ 3000)]) = true.
Proof.
  apply (mastery_dynamics (ofZ 0)
           [mkAnswer true (ofZ 2) (ofZ 1000); mkAnswer true (ofZ 2) (ofZ 2000);
            mkAnswer true (ofZ 2) (ofZ 3000)]).
  - repeat constructor.
  - cbn [length]. lia.
Defined.

(** * The interval and the next review *)

Lemma ofZ_1_val : finite_ok (ofZ 1) /\ SFval (ofZ 1) = pow2s 0.
Proof.
  destruct (ofZ_exact 1) as [F V]; [split; reflexivity|].
  split; [exact F | rewrite V; lia].
Qed.

(** Multiplying a number that is at least 1 by a finite factor that is at
    least 1: the product is a number, not below the first operand, and
    above every number that is below the exact product of a lower bound. *)
Lemma SFmul_ge (x c : number) :
  num_ok x -> SFleb (ofZ 1) x = true -> finite_ok c -> pow2s 0 <= SFval c ->
  num_ok (SFmul prec emax x c)
  /\ SFleb (ofZ 1) (SFmul prec emax x c) = true
  /\ SFleb x (SFmul prec emax x c) = true
  /\ (forall lbx lb, finite_ok lbx -> finite_ok lb -> SFleb lbx x = true ->
        SFval lb * pow2s 0 <= SFval lbx * SFval c ->
        SFleb lb (SFmul prec emax x c) = true).
Proof.
  intros Nx H1 Fc Hc. destruct ofZ_1_val as [F1 V1].
  pose proof (pow2s_pos 0 ltac:(lia)) as P0.
  destruct (num_ok_cases x Nx) as [Fx | [-> | ->]].
  - rewrite SFleb_val in H1 by assumption. apply Z.leb_le in H1. rewrite V1 in H1.
    destruct (SFmul_lower x c Fx Fc H1 Hc) as [N L].
    split; [exact N|]. split; [apply L; [exact F1 | rewrite V1; nia]|].
    split; [apply L; [exact Fx | nia]|].
    intros lbx lb Flbx Flb Hlbx Hlb. apply L; [exact Flb|].
    rewrite SFleb_val in Hlbx by assumption. apply Z.leb_le in Hlbx. nia.
  - destruct c as [s| | |[|] m e]; try (destruct Fc as [_ Fc]; discriminate Fc);
      cbn [SFval cond_Zopp] in Hc; try lia;
      [assert (0 <= pow2s e) by (unfold pow2s; apply Z.pow_nonneg; lia); nia|].
    cbn [SFmul xorb]. split; [split; reflexivity|]. split; [reflexivity|].
    split; [reflexivity|]. intros lbx lb _ [_ Flb] _ _.
    destruct lb; try discriminate Flb; reflexivity.
  - vm_compute in H1. discriminate H1.
Qed.

Lemma ease_at_least_one (e : number) :
  ease_ok e -> finite_ok e /\ pow2s 0 <= SFval e.
Proof.
  intros He. apply ease_ok_val in He as (Fe & Hlo & _).
  destruct decimal_2_facts as [H1 H2]. destruct ofZ_1_val as [_ V1].
  split; [exact Fe | lia].
Qed.

Lemma at_least_one_branches (i : number) :
  num_ok i -> num_le (ofZ 1) i = true ->
  num_strict_eq i (ofZ 0) = false /\ num_lt i (ofZ 1) = false.
Proof.
  intros Ni H1. destruct ofZ_1_val as [F1 V1].
  pose proof (pow2s_pos 0 ltac:(lia)) as P0.
  assert (num_ok (ofZ 1)) as N1 by (apply finite_ok_num_ok; exact F1).
  assert (num_ok (ofZ 0)) as N0 by (split; reflexivity).
  unfold num_le in H1. rewrite (SFleb_ord _ _ N1 Ni) in H1. apply Z.leb_le in H1.
  assert (SFord (ofZ 1) = pow2s 0) as O1 by (rewrite <- V1; reflexivity).
  split.
  - unfold num_strict_eq, SFeqb. rewrite (SFcompare_ord _ _ Ni N0).
    change (SFord (ofZ 0)) with 0.
    destruct (SFord i ?= 0) eqn:C; try reflexivity.
    apply Z.compare_eq in C. lia.
  - unfold num_lt. rewrite (SFltb_ord _ _ Ni N1). apply Z.ltb_ge. exact H1.
Qed.

Lemma interval_step_correct (i e : number) :
  interval_ok i -> ease_ok e ->
  let i' := if num_strict_eq i (ofZ 0) then ofZ 1
            else if num_lt i (ofZ 1) then ofZ 1
            else num_mul i e in
  num_ok i' /\ num_le (ofZ 1) i' = true /\ num_le i i' = true.
Proof.
  intros [-> | [Ni H1]] He; cbn zeta.
  - change (num_strict_eq (ofZ 0) (ofZ 0)) with true. cbn iota.
    split; [split; reflexivity|]. split; reflexivity.
  - destruct (at_least_one_branches i Ni H1) as [-> ->].
    destruct (ease_at_least_one e He) as [Fe He1].
    destruct (SFmul_ge i e Ni H1 Fe He1) as (N & L1 & Li & _).
    auto.
Qed.

Lemma answer_step_interval (st : Stats) (x : Answer) :
  ease_ok (easeFactor st) -> interval_ok (intervalDays st) ->
  interval_ok (intervalDays (answer_step st x)).
Proof.
  intros He Hi. unfold answer_step, calculateNewStats.
  destruct (ans_correct x); cbn iota beta zeta; cbn [intervalDays].
  - destruct (interval_step_correct _ _ Hi He) as (N & L & _). right. auto.
  - left. reflexivity.
Qed.

Lemma interval_ok_nonneg (i : number) : interval_ok i -> nonneg i.
Proof.
  intros [-> | [Ni H1]]; [reflexivity|].
  destruct ofZ_1_val as [F1 V1]. pose proof (pow2s_pos 0 ltac:(lia)) as P0.
  assert (num_ok (ofZ 1)) as N1 by (apply finite_ok_num_ok; exact F1).
  assert (num_ok (S754_zero false)) as N0 by (split; reflexivity).
  unfold num_le in H1. rewrite (SFleb_ord _ _ N1 Ni) in H1. apply Z.leb_le in H1.
  assert (SFord (ofZ 1) = pow2s 0) as O1 by (rewrite <- V1; reflexivity).
  unfold nonneg. rewrite (SFleb_ord _ _ N0 Ni). apply Z.leb_le.
  change (SFord (S754_zero false)) with 0. lia.
Qed.

Lemma after_answers_interval (answers : list Answer) (st : Stats) :
  ease_ok (easeFactor st) -> interval_ok (intervalDays st) ->
  interval_ok (intervalDays (after_answers st answers)).
Proof.
  revert st. induction answers as [ | x answers IH ]; intros st He Hi.
  - exact Hi.
  - cbn [after_answers fold_left].
    destruct (answer_step_inv st x He (interval_ok_nonneg _ Hi)) as [He' _].
    apply (IH (answer_step st x) He' (answer_step_interval st x He Hi)).
Qed.

Lemma reachable_interval_ok (now0 : Date) (answers : list Answer) :
  interval_ok (intervalDays (after_answers (initial_state now0) answers)).
Proof.
  apply after_answers_interval; [exact ease_ok_decimal_25 | left; reflexivity].
Qed.

(** X18: the interval of a reachable state is zero or at least one day,
    never NaN, negative or a fraction of a day.  A correct answer gives an
    interval of at least one day that is not shorter than the one before,
    and a wrong answer resets it to zero. *)
Theorem interval_grows_or_resets (now0 : Date) (answers : list Answer)
    (responseSecs now : number) :
  let s := after_answers (initial_state now0) answers in
  (intervalDays s = ofZ 0
   \/ (isNaN (intervalDays s) = false /\ num_le (ofZ 1) (intervalDays s) = true))
  /\ num_le (ofZ 1) (intervalDays (calculateNewStats s true responseSecs now)) = true
  /\ num_le (intervalDays s)
            (intervalDays (calculateNewStats s true responseSecs now)) = true
  /\ intervalDays (calculateNewStats s false responseSecs now) = ofZ 0.
Proof.
  cbn zeta. pose proof (reachable_ease_ok now0 answers) as He.
  pose proof (reachable_interval_ok now0 answers) as Hi.
  split; [|split; [|split]].
  - destruct Hi as [H0 | [[_ N] H1]]; auto.
  - unfold calculateNewStats. cbn iota beta zeta; cbn [intervalDays].
    apply (interval_step_correct _ _ Hi He).
  - unfold calculateNewStats. cbn iota beta zeta; cbn [intervalDays].
    apply (interval_step_correct _ _ Hi He).
  - reflexivity.
Qed.

Lemma two_53 : 2 ^ 53 = 9007199254740992.
Proof. reflexivity. Qed.

Lemma SFabs_facts (x : number) :
  finite_ok x -> finite_ok (SFabs x) /\ SFval (SFabs x) = Z.abs (SFval x).
Proof.
  intros [V F]. destruct x as [s| | |s m e]; try discriminate F.
  - split; [split|]; reflexivity.
  - split; [split; [exact V | reflexivity]|].
    assert (0 <= Z.pos m * pow2s e) as Hp
      by (apply Z.mul_nonneg_nonneg; [lia | unfold pow2s; apply Z.pow_nonneg; lia]).
    cbn [SFabs SFval cond_Zopp]. destruct s; cbn [cond_Zopp]; lia.
Qed.

(** A time value within the range of [Date] is kept by [TimeClip]. *)
Lemma TimeClip_ofZ (z : Z) :
  - 8640000000000000 <= z <= 8640000000000000 -> TimeClip (ofZ z) = ofZ z.
Proof.
  intros Hz. pose proof two_53 as E53.
  destruct (Z.eq_dec z 0) as [-> | Hne]; [vm_compute; reflexivity|].
  destruct (ofZ_exact z ltac:(lia)) as [F V].
  destruct (ofZ_exact 8640000000000000 ltac:(lia)) as [Fc Vc].
  destruct (SFabs_facts _ F) as [Fa Va].
  pose proof (pow2s_pos 0 ltac:(lia)) as P0.
  unfold TimeClip. rewrite (proj2 F). cbn [negb]. unfold num_lt.
  rewrite (SFltb_val _ _ Fc Fa), Va, V, Vc.
  replace (8640000000000000 * pow2s 0 <? Z.abs (z * pow2s 0)) with false
    by (symmetry; apply Z.ltb_ge; nia).
  remember (ofZ z) as x eqn:Ex. destruct F as [Vx Fx].
  destruct x as [s| | |s m e]; try discriminate Fx.
  - cbn [SFval] in V. nia.
  - cbn [ToInteger]. destruct (0 <=? e) eqn:E; [reflexivity|].
    apply Z.leb_gt in E. cbn [valid_binary] in Vx.
    apply bounded_facts in Vx as (He & _).
    pose proof (pow2s_pos e ltac:(lia)) as Pe.
    assert (0 < 2 ^ (- e)) as PB by (apply Z.pow_pos_nonneg; lia).
    rewrite (pow2s_split e) in V by lia. cbn [SFval] in V.
    assert (cond_Zopp s (Z.pos m / 2 ^ (- e)) = z) as ->.
    { destruct s; cbn [cond_Zopp] in *.
      - assert (Z.pos m = (- z) * 2 ^ (- e)) as -> by nia.
        rewrite Z.div_mul by lia. lia.
      - assert (Z.pos m = z * 2 ^ (- e)) as -> by nia.
        rewrite Z.div_mul by lia. reflexivity. }
    fold (ofZ z). symmetry. exact Ex.
Qed.

(** [TimeClip] of a number that is not below an integer time gives an
    invalid date or a time that is not below it either. *)
Lemma TimeClip_NaN_or_ge (z : Z) (sum : number) :
  - 2 ^ 53 < z < 2 ^ 53 -> num_ok sum -> SFleb (ofZ z) sum = true ->
  TimeClip sum = NaN \/ SFleb (ofZ z) (TimeClip sum) = true.
Proof.
  intros Hz [Vs Ns] H. destruct (ofZ_exact z Hz) as [F V].
  unfold TimeClip. destruct (negb (isFinite sum)) eqn:Fs; [left; reflexivity|].
  destruct (num_lt (ofZ 8640000000000000) (SFabs sum)); [left; reflexivity|].
  right. apply negb_false_iff in Fs.
  assert (finite_ok sum) as Fsum by (split; assumption).
  rewrite (SFleb_val _ _ F Fsum) in H. apply Z.leb_le in H. rewrite V in H.
  destruct sum as [s| | |s m e]; try discriminate Fs.
  - cbn [ToInteger]. rewrite SFleb_val; [|exact F|split; reflexivity].
    apply Z.leb_le. rewrite V. exact H.
  - cbn [ToInteger]. destruct (0 <=? e) eqn:E.
    + rewrite (SFleb_val _ _ F Fsum). apply Z.leb_le. rewrite V. exact H.
    + apply Z.leb_gt in E. cbn [valid_binary] in Vs.
      apply bounded_facts in Vs as (He & _).
      pose proof (pow2s_pos e ltac:(lia)) as Pe.
      assert (0 < 2 ^ (- e)) as PB by (apply Z.pow_pos_nonneg; lia).
      rewrite (pow2s_split e) in H by lia. cbn [SFval] in H.
      change (SFleb (ofZ z) (ofZ (cond_Zopp s (Z.pos m / 2 ^ (- e)))) = true).
      apply (ofZ_mono _ _ Hz).
      pose proof (Z.mul_div_le (Z.pos m) (2 ^ (- e)) PB) as Hd.
      set (B := 2 ^ (- e)) in *. set (q := Z.pos m / B) in *.
      destruct s; cbn [cond_Zopp] in *.
      * assert (z * B <= - Z.pos m) as Hm.
        { apply (Z.mul_le_mono_pos_r _ _ (pow2s e) Pe). lia. }
        assert (z * B <= (- q) * B) as Hq by lia.
        apply (Z.mul_le_mono_pos_r _ _ B PB). exact Hq.
      * assert (z * B <= Z.pos m) as Hm.
        { apply (Z.mul_le_mono_pos_r _ _ (pow2s e) Pe). lia. }
        apply Z.div_le_lower_bound; [exact PB | lia].
Qed.

(** Past the last representable time there is no date. *)
Lemma TimeClip_above (sum : number) :
  num_ok sum -> SFleb (ofZ 8640000000000001) sum = true -> TimeClip sum = NaN.
Proof.
  intros [Vs Ns] H. pose proof two_53 as E53.
  destruct (ofZ_exact 8640000000000001 ltac:(lia)) as [F1 V1].
  destruct (ofZ_exact 8640000000000000 ltac:(lia)) as [Fc Vc].
  pose proof (pow2s_pos 0 ltac:(lia)) as P0.
  unfold TimeClip. destruct (negb (isFinite sum)) eqn:Fs; [reflexivity|].
  apply negb_false_iff in Fs.
  assert (finite_ok sum) as Fsum by (split; assumption).
  destruct (SFabs_facts _ Fsum) as [Fa Va].
  rewrite (SFleb_val _ _ F1 Fsum) in H. apply Z.leb_le in H. rewrite V1 in H.
  unfold num_lt. rewrite (SFltb_val _ _ Fc Fa), Va, Vc.
  replace (8640000000000000 * pow2s 0 <? Z.abs (SFval sum)) with true
    by (symmetry; apply Z.ltb_lt; lia).
  reflexivity.
Qed.

Lemma SFadd_zero_r (x : number) :
  finite_ok x -> x <> S754_zero true -> SFadd prec emax x (S754_zero false) = x.
Proof.
  intros [_ F] Hx. destruct x as [[|]| | |s m e]; try discriminate F;
    try reflexivity. contradiction.
Qed.

Lemma SFadd_infinity_r (x : number) :
  finite_ok x -> SFadd prec emax x (S754_infinity false) = S754_infinity false.
Proof. intros [_ F]. destruct x; try discriminate F; reflexivity. Qed.

(** The date that [calculateNewStats] computes from the clock and the new
    interval. *)
Lemma next_review_time (z : Z) (i : number) :
  - 8640000000000000 <= z <= 8640000000000000 -> interval_ok i ->
  let t := new_Date (num_add (ofZ z) (num_mul (num_mul i (ofZ 86400)) (ofZ 1000))) in
  (i = ofZ 0 -> t = ofZ z)
  /\ (t = NaN \/ num_le (ofZ z) t = true)
  /\ (1 <= z -> num_le (ofZ 100000000) i = true -> t = NaN).
Proof.
  intros Hz Hi. cbn zeta. pose proof two_53 as E53.
  destruct (ofZ_exact z ltac:(lia)) as [F V].
  pose proof (pow2s_pos 0 ltac:(lia)) as P0.
  assert (new_Date (num_add (ofZ z) (num_mul (num_mul (ofZ 0) (ofZ 86400)) (ofZ 1000)))
          = ofZ z) as Hzero.
  { change (num_mul (num_mul (ofZ 0) (ofZ 86400)) (ofZ 1000)) with (S754_zero false).
    unfold num_add. rewrite SFadd_zero_r; [apply TimeClip_ofZ; exact Hz | exact F |].
    intros E. rewrite E in V. cbn [SFval] in V.
    assert (z = 0) as -> by nia. discriminate E. }
  destruct Hi as [-> | [Ni H1]].
  - rewrite Hzero. split; [reflexivity|]. split.
    + right. unfold num_le. rewrite (SFleb_val _ _ F F). apply Z.leb_le. lia.
    + intros _ H. vm_compute in H. discriminate H.
  - split; [intros ->; exact Hzero|].
    destruct ofZ_1_val as [F1 V1].
    destruct (ofZ_exact 86400 ltac:(lia)) as [Fd Vd].
    destruct (ofZ_exact 1000 ltac:(lia)) as [Fm Vm].
    destruct (ofZ_exact 100000000 ltac:(lia)) as [Fa Va].
    destruct (ofZ_exact 8640000000000 ltac:(lia)) as [Fb Vb].
    destruct (ofZ_exact 8640000000000000 ltac:(lia)) as [Fc Vc].
    destruct (ofZ_exact 8640000000000001 ltac:(lia)) as [Fe Ve].
    destruct (SFmul_ge i (ofZ 86400) Ni H1 Fd ltac:(lia)) as (N1 & L1 & _ & B1).
    destruct (SFmul_ge _ (ofZ 1000) N1 L1 Fm ltac:(lia)) as (N2 & L2 & _ & B2).
    fold (num_mul i (ofZ 86400)) in *.
    fold (num_mul (num_mul i (ofZ 86400)) (ofZ 1000)) in *.
    set (t := num_mul (num_mul i (ofZ 86400)) (ofZ 1000)) in *.
    destruct (num_ok_cases t N2) as [Ft | [Et | Et]].
    + rewrite (SFleb_val _ _ F1 Ft) in L2. apply Z.leb_le in L2.
      destruct (SFadd_spec (ofZ z) t F Ft) as (Vs & Ns & Hlb & _).
      fold (num_add (ofZ z) t) in *.
      assert (num_ok (num_add (ofZ z) t)) as Nsum by (split; assumption).
      split.
      * apply TimeClip_NaN_or_ge; [lia | exact Nsum |].
        apply Hlb; [exact F | lia].
      * intros Hz1 Hbig. apply (TimeClip_above _ Nsum).
        apply Hlb; [exact Fe|].
        assert (SFleb (ofZ 8640000000000) (num_mul i (ofZ 86400)) = true) as Hb1.
        { apply (B1 (ofZ 100000000)); [exact Fa | exact Fb | exact Hbig |].
          rewrite Va, Vb, Vd. nia. }
        assert (SFleb (ofZ 8640000000000000) t = true) as Hb2.
        { apply (B2 (ofZ 8640000000000)); [exact Fb | exact Fc | exact Hb1 |].
          rewrite Vb, Vc, Vm. nia. }
        rewrite (SFleb_val _ _ Fc Ft) in Hb2. apply Z.leb_le in Hb2.
        rewrite Ve, V. nia.
    + rewrite Et. unfold num_add. rewrite (SFadd_infinity_r _ F).
      split; [left; reflexivity | intros _ _; reflexivity].
    + rewrite Et in L2. vm_compute in L2. discriminate L2.
Qed.

Lemma nextReview_eq (st : Stats) (correct : bool) (responseSecs now : number) :
  nextReview (calculateNewStats st correct responseSecs now)
  = new_Date (num_add now
      (num_mul (num_mul (intervalDays (calculateNewStats st correct responseSecs now))
                        (ofZ 86400)) (ofZ 1000))).
Proof. unfold calculateNewStats. destruct correct; reflexivity. Qed.

(** X19: the next review that [calculateNewStats] schedules from a
    reachable state, when the clock reads a time value [z] within the range
    of [Date].  After a wrong answer it is the clock itself, so the fact is
    due at once and at any later time.  After any answer it is an invalid
    date or not before the clock.  Once the new interval reaches 100000000
    days, at any clock after the epoch, it is an invalid date. *)
Theorem nextReview_schedule (now0 : Date) (answers : list Answer)
    (responseSecs : number) (z : Z) :
  - 8640000000000000 <= z <= 8640000000000000 ->
  let s := after_answers (initial_state now0) answers in
  let now := ofZ z in
  nextReview (calculateNewStats s false responseSecs now) = now
  /\ (forall later, num_le now later = true ->
        num_le (nextReview (calculateNewStats s false responseSecs now)) later = true)
  /\ (forall correct,
        let s' := calculateNewStats s correct responseSecs now in
        nextReview s' = NaN \/ num_le now (nextReview s') = true)
  /\ (1 <= z ->
      num_le (ofZ 100000000)
             (intervalDays (calculateNewStats s true responseSecs now)) = true ->
      nextReview (calculateNewStats s true responseSecs now) = NaN).
Proof.
  intros Hz. cbn zeta.
  set (s := after_answers (initial_state now0) answers).
  assert (forall correct,
            interval_ok (intervalDays (calculateNewStats s correct responseSecs (ofZ z))))
    as Hi.
  { intros correct.
    apply (answer_step_interval s (mkAnswer correct responseSecs (ofZ z))).
    - apply reachable_ease_ok.
    - apply reachable_interval_ok. }
  assert (nextReview (calculateNewStats s false responseSecs (ofZ z)) = ofZ z) as Hw.
  { rewrite nextReview_eq.
    apply (next_review_time z _ Hz (Hi false)). reflexivity. }
  split; [exact Hw|]. split; [intros later Hl; rewrite Hw; exact Hl|]. split.
  - intros correct. rewrite nextReview_eq.
    apply (next_review_time z _ Hz (Hi correct)).
  - intros Hz1 Hbig. rewrite nextReview_eq.
    apply (next_review_time z _ Hz (Hi true)); assumption.
Qed.

Lemma nextReview_schedule_witness :
  nextReview
    (calculateNewStats
       (after_answers (initial_state (ofZ 1700000000000))
          (repeat (mkAnswer true (ofZ 2) (ofZ 1700000000000)) 17))
       true (ofZ 2) (ofZ 1700000000000)) = NaN.
Proof.
  apply (nextReview_schedule (ofZ 1700000000000)
           (repeat (mkAnswer true (ofZ 2) (ofZ 1700000000000)) 17)
           (ofZ 2) 1700000000000).
  - lia.
  - lia.
  - vm_compute. reflexivity.
Defined.
